(** * Backend_Dev_Task: the panel layout engine

    A shallow embedding of the layout engine of [backend_dev_task]
    ([models.py], [rafters.py], [mounts.py], [joints.py], [config.py],
    [layout_service.py]) and the properties its specification states.

    Numbers.  Every coordinate of the program is a Python [float].  The
    engine is written once, over an interface [PyFloat] that lists the
    float operations the source uses, and is run at two instances:
    - [binary64]: IEEE 754 double precision (Rocq's primitive floats),
      which is what CPython computes with; the scenarios of the
      specification are evaluated at this instance, bit for bit;
    - [exact]: the rationals in canonical form.  This is an idealisation
      and not what the code computes: nothing is rounded, nothing
      overflows, there is no NaN and no negative zero, and [round] never
      raises.  It is the arithmetic the specification reasons in; a
      statement at [exact] says what the algorithm does when no operation
      rounds, and is labelled as such.
    Statements that need no law of arithmetic are proved for every
    instance.  At [binary64], statements that need the laws of the order
    are proved for doubles that are neither NaN nor the negative zero (for
    the joints, for finite doubles), and statements that need exact sums
    are proved for doubles that are a whole number of sixteenths, at most
    [2^50] of them ([2^46] in value): there every sum, difference and
    comparison of [BuildGrid] is exact and [round(v, 4)] returns [v].
    Outside these domains the lemmas named [binary64_...] record what the
    doubles do.  No divisor of the program can be zero (they are [2.0] and
    [max(tolerance, 1e-9)]), so [ZeroDivisionError] is not modelled.

    Control.  An exception is a value of [Exception]; a function that may
    raise returns an [outcome].  The two [while] loops of
    [RafterFactory.BuildGrid] take a bound on their number of iterations
    and yield [OutOfFuel] when it is reached.

    Names.  Functions and fields keep the names of the source.  Fields of
    different classes that share a name get a prefix ([panel_x], [mount_x],
    [joint_x]; [dim_width], [cfg_width]; [rafter_edge_clearance]) or, in
    [LayoutConfig], the suffix [_cfg]; the loop of a method [M] that needs
    its accumulators is [M_from]. *)

From Stdlib Require Import ZArith List Bool Lia Permutation Sorted.
From Stdlib Require Import Floats.
From Stdlib Require Import QArith Qcanon Qcabs Qround Qabs Lqa.
Import ListNotations.

Close Scope Qc_scope.
Close Scope Q_scope.
Set Warnings "-inexact-float".

(** ** Outcomes of a call *)

(** The built-in exceptions the engine can raise: [ValueError] (raised by
    [BuildGrid], and by [round] on a NaN) and [OverflowError] ([round] on an
    infinity). *)
Inductive Builtin : Type :=
| ValueError
| OverflowError.

(** The float operations used by the source.  [lit m k] is the decimal
    literal [m * 10^-k] (so [1e-6] is [lit 1 6] and [44.7] is [lit 447 1]);
    [round4 v] is [round(v, 4)]; [round_int v] is [round(v)], which gives an
    [int] or raises. *)
Class PyFloat (F : Type) : Type := {
  fadd : F -> F -> F;
  fsub : F -> F -> F;
  fmul : F -> F -> F;
  fdiv : F -> F -> F;
  fneg : F -> F;
  fabs : F -> F;
  feqb : F -> F -> bool;
  fltb : F -> F -> bool;
  fleb : F -> F -> bool;
  lit : Z -> nat -> F;
  round4 : F -> F;
  round_int : F -> Builtin + Z
}.

Declare Scope py_scope.
Delimit Scope py_scope with py.
Infix "+" := fadd : py_scope.
Infix "-" := fsub : py_scope.
Infix "*" := fmul : py_scope.
Infix "/" := fdiv : py_scope.
Notation "- a" := (fneg a) : py_scope.
Infix "==" := feqb (at level 70, no associativity) : py_scope.
Infix "<" := fltb : py_scope.
Infix "<=" := fleb : py_scope.
Notation "a > b" := (fltb b a) : py_scope.
Notation "a >= b" := (fleb b a) : py_scope.

(** [round] to the nearest integer, ties to the even one, of the rational
    [num / den] ([0 < den]): the rounding of Python's [round]. *)
Definition round_half_even (num den : Z) : Z :=
  let q := (num / den)%Z in
  let r := (num mod den)%Z in
  match (2 * r ?= den)%Z with
  | Lt => q
  | Gt => (q + 1)%Z
  | Eq => if Z.even q then q else (q + 1)%Z
  end.

(** Modelled from the spec: [exceptions.py] is not among the sources; the
    specification gives a single error kind, [LayoutValidationError], whose
    message tells the conditions apart.  A message is kept with the values
    the source formats into it. *)
Inductive Message (F : Type) : Type :=
| MissingCoordinate
| NegativeCoordinate (x_value y_value : F)
| DuplicatePanel (x_value y_value : F)
| OverlappingPanels (first_x first_y second_x second_y : F)
| NoPanels
| NoRafterInSpan (allowed_start allowed_end : F)
| LeftCantileverExceeded (panel_x : F)
| RightCantileverExceeded (panel_x : F)
| SpanLimitExceeded (panel_x : F)
| ToleranceNotPositive.

Arguments MissingCoordinate {F}.
Arguments NegativeCoordinate {F}.
Arguments DuplicatePanel {F}.
Arguments OverlappingPanels {F}.
Arguments NoPanels {F}.
Arguments NoRafterInSpan {F}.
Arguments LeftCantileverExceeded {F}.
Arguments RightCantileverExceeded {F}.
Arguments SpanLimitExceeded {F}.
Arguments ToleranceNotPositive {F}.

Inductive Exception (F : Type) : Type :=
| LayoutValidationError (message : Message F)
| BuiltinError (e : Builtin).

Arguments LayoutValidationError {F}.
Arguments BuiltinError {F}.

Inductive outcome (F A : Type) : Type :=
| Returns (a : A)
| Raises (e : Exception F)
| OutOfFuel.

Arguments Returns {F A}.
Arguments Raises {F A}.
Arguments OutOfFuel {F A}.

Definition bind {F A B} (c : outcome F A) (k : A -> outcome F B) : outcome F B :=
  match c with
  | Returns a => k a
  | Raises e => Raises e
  | OutOfFuel => OutOfFuel
  end.

Notation "'let*' a ':=' c 'in' k" := (bind c (fun a => k))
  (at level 10, a pattern, c at level 100, k at level 200).

(** ** Python's containers *)

(** [list.sort] and [sorted] are stable and compare with [<] only; where
    [<] orders the keys (no NaN among them) a stable sort has one possible
    result.  The model is insertion from left to right: each element goes
    into the sorted prefix after every element it is not less than. *)
Section Sort.
Context {A : Type} (lt : A -> A -> bool).

Fixpoint insort (a : A) (l : list A) : list A :=
  match l with
  | [] => [a]
  | b :: l' => if lt a b then a :: b :: l' else b :: insort a l'
  end.

Definition sorted (l : list A) : list A :=
  fold_left (fun acc a => insort a acc) l [].
End Sort.

(** A [dict] keeps its keys in insertion order; [keq] is [==] on keys.
    (A NaN key, which Python can find again by object identity only, is
    never found again here.) *)
Section Dict.
Context {K V : Type} (keq : K -> K -> bool).

(** [d[k] = v] *)
Fixpoint dict_set (d : list (K * V)) (k : K) (v : V) : list (K * V) :=
  match d with
  | [] => [(k, v)]
  | (k', v') :: d' =>
      if keq k' k then (k', v) :: d' else (k', v') :: dict_set d' k v
  end.

Definition dict_values (d : list (K * V)) : list V := map snd d.

(** Every value of the dictionary sits at its own key, [key] giving the key
    of a value. *)
Definition keyed (key : V -> K) (d : list (K * V)) : Prop :=
  Forall (fun kv => fst kv = key (snd kv)) d.
End Dict.

(** [d.setdefault(k, []).append(a)] *)
Fixpoint setdefault_append {K A : Type} (keq : K -> K -> bool)
    (d : list (K * list A)) (k : K) (a : A) : list (K * list A) :=
  match d with
  | [] => [(k, [a])]
  | (k', l) :: d' =>
      if keq k' k then (k', l ++ [a]) :: d'
      else (k', l) :: setdefault_append keq d' k a
  end.

(** [zip(l, l[1:])] *)
Definition adjacent_pairs {A : Type} (l : list A) : list (A * A) :=
  combine l (tl l).

Section Engine.
Context {F : Type} `{PyFloat F}.
Local Open Scope py_scope.

(** Comparison of the 2-tuples used as sort keys: the first components
    that differ under [==] decide. *)
Definition tuple_lt (a b : F * F) : bool :=
  if negb (fst a == fst b) then fst a < fst b
  else if negb (snd a == snd b) then snd a < snd b
  else false.

Definition tuple_eqb (a b : F * F) : bool :=
  (fst a == fst b) && (snd a == snd b).

(** [max(a, b)] and [min(a, b)] keep the first argument unless the second
    is strictly beyond it. *)
Definition py_max (a b : F) : F := if b > a then b else a.
Definition py_min (a b : F) : F := if b < a then b else a.

(** *** models.py *)

Record PanelDimensions : Type := {
  dim_width : F;
  dim_height : F
}.

Record Panel : Type := {
  panel_x : F;
  panel_y : F;
  width : F;
  height : F
}.

Definition RightEdge (self : Panel) : F := panel_x self + width self.
Definition BottomEdge (self : Panel) : F := panel_y self + height self.

Record Mount : Type := { mount_x : F; mount_y : F }.
Record Joint : Type := { joint_x : F; joint_y : F }.

Record LayoutResult : Type := {
  mounts : list Mount;
  joints : list Joint
}.

Definition MountCount (self : LayoutResult) : nat := length (mounts self).
Definition JointCount (self : LayoutResult) : nat := length (joints self).

Record LayoutContext : Type := {
  result : LayoutResult;
  panels : list Panel;
  rafters : list F
}.

(** *** rafters.py *)

Record RafterGrid : Type := { positions : list F }.

Definition PositionsInRange (self : RafterGrid) (start_x end_x : F) : list F :=
  filter (fun value => (start_x - lit 1 6 <= value) && (value <= end_x + lit 1 6))
         (positions self).

Record RafterFactory : Type := {
  spacing : F;
  rafter_edge_clearance : F
}.

(** The first loop of [BuildGrid]: step [first_rafter] back by [spacing]. *)
Fixpoint walk_back (fuel : nat) (self : RafterFactory) (min_x first_rafter : F)
  : option F :=
  match fuel with
  | O => None
  | S fuel' =>
      if first_rafter - spacing self > min_x - spacing self * lit 2 0
      then walk_back fuel' self min_x (first_rafter - spacing self)
      else Some first_rafter
  end.

(** The second loop: record [round(current, 4)] and step forward. *)
Fixpoint walk_forward (fuel : nat) (self : RafterFactory) (limit : F)
    (positions : list F) (current : F) : option (list F) :=
  match fuel with
  | O => None
  | S fuel' =>
      if current <= limit
      then walk_forward fuel' self limit (positions ++ [round4 current])
                        (current + spacing self)
      else Some positions
  end.

Definition BuildGrid (fuel : nat) (self : RafterFactory) (min_x max_x : F)
  : outcome F RafterGrid :=
  if min_x > max_x then Raises (BuiltinError ValueError)
  else
    let first_rafter := min_x + rafter_edge_clearance self in
    match walk_back fuel self min_x first_rafter with
    | None => OutOfFuel
    | Some first_rafter =>
        let current := first_rafter in
        let limit := max_x + spacing self * lit 2 0 in
        match walk_forward fuel self limit [] current with
        | None => OutOfFuel
        | Some positions => Returns {| positions := positions |}
        end
    end.

(** *** mounts.py *)

Record MountCalculator : Type := {
  span_limit : F;
  cantilever_limit : F;
  edge_clearance : F
}.

Definition _CalculatePanelMounts (self : MountCalculator) (panel : Panel)
    (grid : RafterGrid) : outcome F (list Mount) :=
  let allowed_start := panel_x panel + edge_clearance self in
  let allowed_end := RightEdge panel - edge_clearance self in
  let rafters := PositionsInRange grid allowed_start allowed_end in
  match rafters with
  | [] => Raises (LayoutValidationError (NoRafterInSpan allowed_start allowed_end))
  | rafters_0 :: _ =>
      if rafters_0 - panel_x panel - edge_clearance self > cantilever_limit self
      then Raises (LayoutValidationError (LeftCantileverExceeded (panel_x panel)))
      else if RightEdge panel - edge_clearance self - last rafters rafters_0
              > cantilever_limit self
      then Raises (LayoutValidationError (RightCantileverExceeded (panel_x panel)))
      else if existsb (fun '(first, second) =>
                         second - first > span_limit self + lit 1 6)
                      (adjacent_pairs rafters)
      then Raises (LayoutValidationError (SpanLimitExceeded (panel_x panel)))
      else
        let top_y := panel_y panel in
        let bottom_y := BottomEdge panel in
        let panel_mounts :=
          map (fun value => {| mount_x := value; mount_y := top_y |}) rafters in
        Returns (panel_mounts
                 ++ map (fun value => {| mount_x := value; mount_y := bottom_y |})
                        rafters)
  end.

(** The loop of [CalculateMounts], with the list built so far. *)
Fixpoint CalculateMounts_from (self : MountCalculator) (grid : RafterGrid)
    (mounts : list Mount) (panels : list Panel) : outcome F (list Mount) :=
  match panels with
  | [] => Returns mounts
  | panel :: rest =>
      let* panel_mounts := _CalculatePanelMounts self panel grid in
      CalculateMounts_from self grid (mounts ++ panel_mounts) rest
  end.

Definition CalculateMounts (self : MountCalculator) (panels : list Panel)
    (grid : RafterGrid) : outcome F (list Mount) :=
  CalculateMounts_from self grid [] panels.

(** *** joints.py *)

Fixpoint _FindRowKey (row_map : list (F * list Panel)) (y_value tolerance : F) : F :=
  match row_map with
  | [] => y_value
  | (key, _) :: rest =>
      if fabs (key - y_value) <= tolerance then key
      else _FindRowKey rest y_value tolerance
  end.

Record JointCalculator : Type := {
  horizontal_gap_threshold : F;
  vertical_tolerance : F
}.

(** The first loop of [CalculateJoints]: the rows, in the order their keys
    were first seen. *)
Definition group_rows (self : JointCalculator) (panels : list Panel)
  : list (F * list Panel) :=
  fold_left
    (fun row_map panel =>
       let row_key := _FindRowKey row_map (panel_y panel) (vertical_tolerance self) in
       setdefault_append feqb row_map row_key panel)
    panels [].

(** The body of the inner loop, for one pair [(left, right)] of a row
    ([left] and [right] are constructors in Rocq, hence the names). *)
Definition pair_joints (self : JointCalculator) (row_key : F)
    (left_panel right_panel : Panel) : list Joint :=
  let gap := panel_x right_panel - RightEdge left_panel in
  if gap >= horizontal_gap_threshold self then []
  else
    let seam_x := (RightEdge left_panel + panel_x right_panel) / lit 2 0 in
    let top_joint := {| joint_x := round4 seam_x; joint_y := round4 row_key |} in
    let bottom_joint :=
      {| joint_x := round4 seam_x;
         joint_y := round4 (row_key + height left_panel) |} in
    [top_joint; bottom_joint].

Definition joint_key (j : Joint) : F * F := (joint_x j, joint_y j).

Definition store_joints (joints : list (F * F * Joint)) (new : list Joint)
  : list (F * F * Joint) :=
  fold_left (fun joints j => dict_set tuple_eqb joints (joint_key j) j) new joints.

Definition sort_row (row_panels : list Panel) : list Panel :=
  sorted (fun a b => panel_x a < panel_x b) row_panels.

Definition row_joints (self : JointCalculator) (joints : list (F * F * Joint))
    (row : F * list Panel) : list (F * F * Joint) :=
  let '(row_key, row_panels) := row in
  let row_panels := sort_row row_panels in
  fold_left
    (fun joints '(left_panel, right_panel) =>
       store_joints joints (pair_joints self row_key left_panel right_panel))
    (adjacent_pairs row_panels) joints.

Definition CalculateJoints (self : JointCalculator) (panels : list Panel)
  : list Joint :=
  let row_map := group_rows self panels in
  let joints := fold_left (row_joints self) row_map [] in
  sorted (fun a b => tuple_lt (joint_y a, joint_x a) (joint_y b, joint_x b))
         (dict_values joints).

(** *** config.py *)

Record PanelSettings : Type := {
  cfg_width : F;
  cfg_height : F
}.

Record RafterSettings : Type := {
  cfg_spacing : F;
  cfg_rafter_edge_clearance : F
}.

Record MountSettings : Type := {
  cfg_span_limit : F;
  cfg_cantilever_limit : F;
  cfg_edge_clearance : F
}.

Record JointSettings : Type := {
  cfg_horizontal_gap_threshold : F;
  cfg_vertical_tolerance : F
}.

Record ValidationSettings : Type := {
  allow_negative_coordinates : bool;
  allow_duplicates : bool;
  allow_overlaps : bool;
  coordinate_tolerance : F
}.

(** [ValidationSettings.__post_init__] *)
Definition ValidationSettings_post_init (self : ValidationSettings) : outcome F unit :=
  if coordinate_tolerance self <= lit 0 0
  then Raises (LayoutValidationError ToleranceNotPositive)
  else Returns tt.

Record LayoutConfig : Type := {
  panel : PanelSettings;
  rafters_cfg : RafterSettings;
  mounts_cfg : MountSettings;
  joints_cfg : JointSettings;
  validation_cfg : ValidationSettings
}.

(** The defaults of the five settings classes, that is [LoadConfig()]. *)
Definition default_config : LayoutConfig := {|
  panel := {| cfg_width := lit 447 1; cfg_height := lit 711 1 |};
  rafters_cfg := {| cfg_spacing := lit 16 0; cfg_rafter_edge_clearance := lit 2 0 |};
  mounts_cfg := {| cfg_span_limit := lit 48 0; cfg_cantilever_limit := lit 16 0;
                   cfg_edge_clearance := lit 2 0 |};
  joints_cfg := {| cfg_horizontal_gap_threshold := lit 1 0;
                   cfg_vertical_tolerance := lit 5 1 |};
  validation_cfg := {| allow_negative_coordinates := false;
                       allow_duplicates := false;
                       allow_overlaps := false;
                       coordinate_tolerance := lit 1 4 |}
|}.

(** *** layout_service.py *)

(** A panel spec is a mapping; only its entries at ["x"] and ["y"] are read,
    and either may be absent. *)
Record PanelSpec : Type := {
  spec_x : option F;
  spec_y : option F
}.

Record PanelFactory : Type := {
  dimensions : PanelDimensions;
  validation : ValidationSettings
}.

Definition _ValidateCoordinateBounds (self : PanelFactory) (x_value y_value tolerance : F)
  : outcome F unit :=
  if allow_negative_coordinates (validation self) then Returns tt
  else if (x_value < - tolerance) || (y_value < - tolerance)
  then Raises (LayoutValidationError (NegativeCoordinate x_value y_value))
  else Returns tt.

Definition py_round (v : F) : outcome F Z :=
  match round_int v with
  | inl e => Raises (BuiltinError e)
  | inr n => Returns n
  end.

Definition _QuantizeCoordinate (self : PanelFactory) (x_value y_value tolerance : F)
  : outcome F (Z * Z) :=
  let scale := py_max tolerance (lit 1 9) in
  let* qx := py_round (x_value / scale) in
  let* qy := py_round (y_value / scale) in
  Returns (qx, qy).

Definition _RectanglesOverlap (self : PanelFactory) (first second : Panel) (tolerance : F)
  : bool :=
  let separated_horizontally :=
    (RightEdge first <= panel_x second + tolerance)
    || (RightEdge second <= panel_x first + tolerance) in
  let separated_vertically :=
    (BottomEdge first <= panel_y second + tolerance)
    || (BottomEdge second <= panel_y first + tolerance) in
  negb (separated_horizontally || separated_vertically).

Fixpoint _ValidateNoOverlap (self : PanelFactory) (panels : list Panel) (tolerance : F)
  : outcome F unit :=
  match panels with
  | [] => Returns tt
  | first :: rest =>
      match find (fun second => _RectanglesOverlap self first second tolerance) rest with
      | Some second =>
          Raises (LayoutValidationError
                    (OverlappingPanels (panel_x first) (panel_y first)
                                       (panel_x second) (panel_y second)))
      | None => _ValidateNoOverlap self rest tolerance
      end
  end.

Definition key_in (key : Z * Z) (seen_positions : list (Z * Z)) : bool :=
  existsb (fun k => (fst k =? fst key)%Z && (snd k =? snd key)%Z) seen_positions.

(** The [for item in specs] loop of [BuildPanels], with its two
    accumulators. *)
Fixpoint BuildPanels_from (self : PanelFactory) (tolerance : F)
    (panels : list Panel) (seen_positions : list (Z * Z)) (specs : list PanelSpec)
  : outcome F (list Panel) :=
  match specs with
  | [] => Returns panels
  | item :: rest =>
      match spec_x item, spec_y item with
      | Some x_value, Some y_value =>
          let* _ := _ValidateCoordinateBounds self x_value y_value tolerance in
          let* seen_positions :=
            if allow_duplicates (validation self) then Returns seen_positions
            else
              let* key := _QuantizeCoordinate self x_value y_value tolerance in
              if key_in key seen_positions
              then Raises (LayoutValidationError (DuplicatePanel x_value y_value))
              else Returns (key :: seen_positions) in
          BuildPanels_from self tolerance
            (panels ++ [{| panel_x := x_value; panel_y := y_value;
                           width := dim_width (dimensions self);
                           height := dim_height (dimensions self) |}])
            seen_positions rest
      | _, _ => Raises (LayoutValidationError MissingCoordinate)
      end
  end.

Definition sort_panels (panels : list Panel) : list Panel :=
  sorted (fun a b => tuple_lt (panel_y a, panel_x a) (panel_y b, panel_x b)) panels.

Definition BuildPanels (self : PanelFactory) (specs : list PanelSpec)
  : outcome F (list Panel) :=
  let tolerance := coordinate_tolerance (validation self) in
  let* panels := BuildPanels_from self tolerance [] [] specs in
  let* _ := if allow_overlaps (validation self) then Returns tt
            else _ValidateNoOverlap self panels tolerance in
  Returns (sort_panels panels).

Record LayoutCalculator : Type := {
  config : LayoutConfig;
  panel_factory : PanelFactory;
  rafter_factory : RafterFactory;
  mount_calculator : MountCalculator;
  joint_calculator : JointCalculator
}.

(** [LayoutCalculator.__init__] *)
Definition LayoutCalculator_init (config : LayoutConfig) : LayoutCalculator := {|
  config := config;
  panel_factory :=
    {| dimensions := {| dim_width := cfg_width (panel config);
                        dim_height := cfg_height (panel config) |};
       validation := validation_cfg config |};
  rafter_factory :=
    {| spacing := cfg_spacing (rafters_cfg config);
       rafter_edge_clearance := cfg_rafter_edge_clearance (rafters_cfg config) |};
  mount_calculator :=
    {| span_limit := cfg_span_limit (mounts_cfg config);
       cantilever_limit := cfg_cantilever_limit (mounts_cfg config);
       edge_clearance := cfg_edge_clearance (mounts_cfg config) |};
  joint_calculator :=
    {| horizontal_gap_threshold := cfg_horizontal_gap_threshold (joints_cfg config);
       vertical_tolerance := cfg_vertical_tolerance (joints_cfg config) |}
|}.

(** [min(...)] and [max(...)] over a generator whose first item is [a]. *)
Definition min_of (a : F) (l : list F) : F := fold_left py_min l a.
Definition max_of (a : F) (l : list F) : F := fold_left py_max l a.

Definition CalculateLayoutDetailed (fuel : nat) (self : LayoutCalculator)
    (specs : list PanelSpec) : outcome F LayoutContext :=
  let* panels := BuildPanels (panel_factory self) specs in
  match panels with
  | [] => Raises (LayoutValidationError NoPanels)
  | panel_0 :: others =>
      let min_x := min_of (panel_x panel_0) (map panel_x others) in
      let max_x := max_of (RightEdge panel_0) (map RightEdge others) in
      let* grid := BuildGrid fuel (rafter_factory self) min_x max_x in
      let* mounts := CalculateMounts (mount_calculator self) panels grid in
      let joints := CalculateJoints (joint_calculator self) panels in
      let result := {| mounts := mounts; joints := joints |} in
      Returns {| result := result; panels := panels; rafters := positions grid |}
  end.

Definition CalculateLayout (fuel : nat) (self : LayoutCalculator)
    (specs : list PanelSpec) : outcome F LayoutResult :=
  let* context := CalculateLayoutDetailed fuel self specs in
  Returns (result context).

End Engine.

(** ** The instance [binary64]: CPython's floats *)

Module Binary64.

(** The double of an integer below [2^53] in absolute value, where the
    conversion is exact. *)
Definition of_Z (n : Z) : float :=
  if (n <? 0)%Z then PrimFloat.opp (PrimFloat.of_uint63 (Uint63.of_Z (- n)))
  else PrimFloat.of_uint63 (Uint63.of_Z n).

(** A decimal literal is read as the nearest double.  Both [m] and [10^k]
    are doubles for the literals of the program, and the division of two
    doubles is correctly rounded. *)
Definition literal (m : Z) (k : nat) : float :=
  PrimFloat.div (of_Z m) (of_Z (10 ^ Z.of_nat k)).

(** The sign of a finite double [v] and [|v| * scale] rounded to an
    integer, ties to even, computed on the exact value of [v]. *)
Definition scaled_round (v : spec_float) (scale : Z) : option (bool * Z) :=
  match v with
  | S754_zero s => Some (s, 0%Z)
  | S754_finite s m e =>
      Some (s, match e with
               | Zneg p => round_half_even (Zpos m * scale) (2 ^ Zpos p)
               | _ => (Zpos m * 2 ^ e * scale)%Z
               end)
  | _ => None
  end.

(** [round(v, 4)]: CPython rounds the exact value of [v] to 4 decimals
    (ties to even) and returns the nearest double to that decimal.  From
    [2^39] on, where doubles are more than [1e-4] apart, that double is [v]
    itself; below, the decimal is [n / 10^4] with [n < 2^53].  A NaN and the
    infinities are returned unchanged, and the sign of [v] is kept. *)
Definition round_ndigits4 (v : float) : float :=
  if PrimFloat.leb 549755813888%float (PrimFloat.abs v) then v
  else
    match scaled_round (Prim2SF v) 10000 with
    | Some (s, n) =>
        let r := PrimFloat.div (of_Z n) 10000%float in
        if s then PrimFloat.opp r else r
    | None => v
    end.

(** [round(v)]: the nearest integer, ties to even; [ValueError] on a NaN
    and [OverflowError] on an infinity. *)
Definition round_to_int (v : float) : Builtin + Z :=
  match Prim2SF v with
  | S754_nan => inl ValueError
  | S754_infinity _ => inl OverflowError
  | sf =>
      match scaled_round sf 1 with
      | Some (s, n) => inr (if s then (- n)%Z else n)
      | None => inl ValueError
      end
  end.

#[global] Instance binary64 : PyFloat float := {|
  fadd := PrimFloat.add;
  fsub := PrimFloat.sub;
  fmul := PrimFloat.mul;
  fdiv := PrimFloat.div;
  fneg := PrimFloat.opp;
  fabs := PrimFloat.abs;
  feqb := PrimFloat.eqb;
  fltb := PrimFloat.ltb;
  fleb := PrimFloat.leb;
  lit := literal;
  round4 := round_ndigits4;
  round_int := round_to_int
|}.

End Binary64.

(** ** The instance [exact]: rational arithmetic

    An idealisation of the arithmetic of the program, not what CPython
    computes: sums, products and quotients are exact, [round(v, 4)] rounds
    the exact value, [round(v)] never raises, and there is no NaN, no
    infinity and no negative zero.  What is proved at this instance alone
    says what the algorithm does when no operation rounds. *)

Module Exact.

Definition literal (m : Z) (k : nat) : Qc :=
  Q2Qc (m # Z.to_pos (10 ^ Z.of_nat k)).

Definition round_ndigits4 (v : Qc) : Qc :=
  Q2Qc (round_half_even (Qnum v * 10000) (Zpos (Qden v)) # 10000).

Definition round_to_int (v : Qc) : Builtin + Z :=
  inr (round_half_even (Qnum v) (Zpos (Qden v))).

Definition Qc_ltb (a b : Qc) : bool := negb (Qle_bool b a).

#[global] Instance exact : PyFloat Qc := {|
  fadd := Qcplus;
  fsub := Qcminus;
  fmul := Qcmult;
  fdiv := Qcdiv;
  fneg := Qcopp;
  fabs := Qcabs;
  feqb := Qc_eq_bool;
  fltb := Qc_ltb;
  fleb := fun a b => Qle_bool a b;
  lit := literal;
  round4 := round_ndigits4;
  round_int := round_to_int
|}.

End Exact.

(** ** Scenarios of the specification

    The inputs of the scenarios, written once for every instance. *)

Section Scenarios.
Context {F : Type} `{PyFloat F}.

Definition spec_at (x_value y_value : F) : PanelSpec :=
  {| spec_x := Some x_value; spec_y := Some y_value |}.

(** [LayoutCalculator()] *)
Definition default_calculator : LayoutCalculator := LayoutCalculator_init default_config.

(** [calculator.rafter_factory.spacing = value] *)
Definition set_rafter_spacing (self : LayoutCalculator) (value : F) : LayoutCalculator :=
  {| config := config self;
     panel_factory := panel_factory self;
     rafter_factory :=
       {| spacing := value;
          rafter_edge_clearance := rafter_edge_clearance (rafter_factory self) |};
     mount_calculator := mount_calculator self;
     joint_calculator := joint_calculator self |}.

(** The single panel at [(3.0, 0.0)]. *)
Definition single_panel_specs : list PanelSpec := [spec_at (lit 3 0) (lit 0 0)].

(** The 2x2 grid at exact panel-dimension offsets. *)
Definition two_by_two_specs : list PanelSpec :=
  [spec_at (lit 0 0) (lit 0 0); spec_at (lit 447 1) (lit 0 0);
   spec_at (lit 0 0) (lit 711 1); spec_at (lit 447 1) (lit 711 1)].

(** A rafter factory with spacing [1e-5] and no clearance. *)
Definition fine_factory : RafterFactory :=
  {| spacing := lit 1 5; rafter_edge_clearance := lit 0 0 |}.

End Scenarios.

(** The coordinates of a joint of the [exact] instance, as fractions. *)
Definition joint_fractions (j : Joint (F := Qc)) : Q * Q :=
  (this (joint_x j), this (joint_y j)).

(** ** Vocabulary of the properties *)

Section Vocabulary.
Context {F : Type} `{PyFloat F}.

(** The rafters under a panel: the grid positions inside its allowed
    window, in grid order. *)
Definition selected_rafters (self : MountCalculator) (grid : RafterGrid)
    (panel : Panel) : list F :=
  PositionsInRange grid (fadd (panel_x panel) (edge_clearance self))
                        (fsub (RightEdge panel) (edge_clearance self)).

Definition top_mounts (self : MountCalculator) (grid : RafterGrid) (panel : Panel)
  : list Mount :=
  map (fun value => {| mount_x := value; mount_y := panel_y panel |})
      (selected_rafters self grid panel).

Definition bottom_mounts (self : MountCalculator) (grid : RafterGrid) (panel : Panel)
  : list Mount :=
  map (fun value => {| mount_x := value; mount_y := BottomEdge panel |})
      (selected_rafters self grid panel).

(** The second loop of [BuildGrid] as a relation: [ps] are the positions
    recorded from [current] on, up to the first value beyond [limit]. *)
Fixpoint stepped (self : RafterFactory) (limit : F) (ps : list F) (current : F) : Prop :=
  match ps with
  | [] => fleb current limit = false
  | p :: ps' =>
      fleb current limit = true /\ p = round4 current
      /\ stepped self limit ps' (fadd current (spacing self))
  end.

(** One iteration of the loop of [BuildPanels]: the panel of a spec and the
    positions seen once it is accepted. *)
Definition checked_panel (self : PanelFactory) (tolerance : F)
    (seen_positions : list (Z * Z)) (item : PanelSpec)
  : outcome F (Panel * list (Z * Z)) :=
  match spec_x item, spec_y item with
  | Some x_value, Some y_value =>
      let* _ := _ValidateCoordinateBounds self x_value y_value tolerance in
      let* seen_positions :=
        if allow_duplicates (validation self) then Returns seen_positions
        else
          let* key := _QuantizeCoordinate self x_value y_value tolerance in
          if key_in key seen_positions
          then Raises (LayoutValidationError (DuplicatePanel x_value y_value))
          else Returns (key :: seen_positions) in
      Returns ({| panel_x := x_value; panel_y := y_value;
                  width := dim_width (dimensions self);
                  height := dim_height (dimensions self) |}, seen_positions)
  | _, _ => Raises (LayoutValidationError MissingCoordinate)
  end.

(** A joint of the output was emitted for an adjacent pair of a row. *)
Definition emitted (self : JointCalculator) (rows : list (F * list Panel))
    (j : Joint) : Prop :=
  exists row_key row_panels left_panel right_panel,
    In (row_key, row_panels) rows
    /\ In (left_panel, right_panel) (adjacent_pairs (sort_row row_panels))
    /\ In j (pair_joints self row_key left_panel right_panel).

(** Two lists of seen positions that hold the same keys. *)
Definition same_keys (seen seen' : list (Z * Z)) : Prop :=
  forall k, key_in k seen = key_in k seen'.

(** [(y, x)] order on panels, the key of the sort of [BuildPanels]. *)
Definition panel_lt (a b : Panel) : bool :=
  tuple_lt (panel_y a, panel_x a) (panel_y b, panel_x b).

(** [(y, x)] order on mounts, as a comparison of tuples. *)
Definition mount_lt (a b : Mount) : bool :=
  tuple_lt (mount_y a, mount_x a) (mount_y b, mount_x b).

(** No element of the list is less than one that stands before it. *)
Fixpoint ascending {A : Type} (lt : A -> A -> bool) (l : list A) : bool :=
  match l with
  | [] => true
  | a :: l' => forallb (fun b => negb (lt b a)) l' && ascending lt l'
  end.

End Vocabulary.

(** *** The order of doubles

    A key in [Z * Z * Z] that orders the doubles other than NaN the way
    their comparison does; [ordinary] doubles are those that are neither a
    NaN nor the negative zero, on which [==] is equality. *)

Module Binary64Order.

Definition sf_key (v : spec_float) : Z * Z * Z :=
  match v with
  | S754_zero _ => (0, 0, 0)%Z
  | S754_infinity s => ((if s then -2 else 2), 0, 0)%Z
  | S754_nan => (3, 0, 0)%Z
  | S754_finite s m e => if s then (-1, - e, Zneg m)%Z else (1, e, Zpos m)%Z
  end.

Definition key_compare (a b : Z * Z * Z) : comparison :=
  let '(a1, a2, a3) := a in
  let '(b1, b2, b3) := b in
  match (a1 ?= b1)%Z with
  | Eq => match (a2 ?= b2)%Z with
          | Eq => (a3 ?= b3)%Z
          | c => c
          end
  | c => c
  end.

Definition key_lt (a b : Z * Z * Z) : Prop :=
  let '(a1, a2, a3) := a in
  let '(b1, b2, b3) := b in
  (a1 < b1 \/ (a1 = b1 /\ (a2 < b2 \/ (a2 = b2 /\ a3 < b3))))%Z.

Definition fkey (v : float) : Z * Z * Z := sf_key (Prim2SF v).

Definition ordinary (v : float) : bool :=
  match Prim2SF v with
  | S754_nan => false
  | S754_zero s => negb s
  | _ => true
  end.

(** Panels of one size at ordinary coordinates. *)
Definition ordinary_panel (w h : float) (p : Panel (F := float)) : Prop :=
  ordinary (panel_x p) = true /\ ordinary (panel_y p) = true
  /\ width p = w /\ height p = h.

(** A spec whose coordinates, where present, are ordinary. *)
Definition ordinary_spec (item : PanelSpec (F := float)) : Prop :=
  forall x_value y_value,
    spec_x item = Some x_value -> spec_y item = Some y_value ->
    ordinary x_value = true /\ ordinary y_value = true.

End Binary64Order.

(** ** Vocabulary of the further properties *)

Section FurtherVocabulary.
Context {F : Type} `{PyFloat F}.

(** What [_CalculatePanelMounts] has checked of a panel when it returns:
    a rafter under the panel, both cantilevers and every span between
    neighbouring rafters within their limits, each by the comparison of the
    source. *)
Definition within_limits (self : MountCalculator) (grid : RafterGrid) (panel : Panel)
  : Prop :=
  exists rafters_0 others,
    selected_rafters self grid panel = rafters_0 :: others
    /\ fltb (cantilever_limit self)
            (fsub (fsub rafters_0 (panel_x panel)) (edge_clearance self)) = false
    /\ fltb (cantilever_limit self)
            (fsub (fsub (RightEdge panel) (edge_clearance self))
                  (last (rafters_0 :: others) rafters_0)) = false
    /\ Forall (fun pair =>
                 fltb (fadd (span_limit self) (lit 1 6))
                      (fsub (snd pair) (fst pair)) = false)
              (adjacent_pairs (rafters_0 :: others)).

(** A spec without its ["x"] or without its ["y"]. *)
Definition incomplete (item : @PanelSpec F) : Prop :=
  spec_x item = None \/ spec_y item = None.

(** The panel that [BuildPanels] makes of the coordinates of a spec. *)
Definition panel_at (self : PanelFactory) (x_value y_value : F) : Panel :=
  {| panel_x := x_value; panel_y := y_value;
     width := dim_width (dimensions self);
     height := dim_height (dimensions self) |}.

(** The spec a panel was made of. *)
Definition spec_of (p : @Panel F) : PanelSpec := spec_at (panel_x p) (panel_y p).

(** The key under which [BuildPanels] remembers the position of a panel. *)
Definition quantized (self : PanelFactory) (tolerance : F) (p : Panel)
  : outcome F (Z * Z) :=
  _QuantizeCoordinate self (panel_x p) (panel_y p) tolerance.

(** The test of [_ValidateCoordinateBounds]. *)
Definition below_bounds (x_value y_value tolerance : F) : bool :=
  fltb x_value (fneg tolerance) || fltb y_value (fneg tolerance).

(** A row of [CalculateJoints] anchored at its first panel: the key of the
    row is the [y] of the first panel put into it, and every later panel of
    the row has that [y] or one within the tolerance of it. *)
Definition anchored (tolerance : F) (row : F * list Panel) : Prop :=
  exists first others,
    snd row = first :: others
    /\ panel_y first = fst row
    /\ Forall (fun p => panel_y p = fst row
                        \/ fleb (fabs (fsub (fst row) (panel_y p))) tolerance = true)
              others.

(** The order of the joints in the output: by [(y, x)]. *)
Definition joint_lt (a b : Joint) : bool :=
  tuple_lt (joint_y a, joint_x a) (joint_y b, joint_x b).

(** The panel at the position of a spec overlaps itself, by the test of
    [_RectanglesOverlap]: it is wider and higher than the tolerance, as the
    code computes its edges at that position. *)
Definition overlaps_itself (self : PanelFactory) (item : PanelSpec) : Prop :=
  forall x_value y_value,
    spec_x item = Some x_value -> spec_y item = Some y_value ->
    _RectanglesOverlap self (panel_at self x_value y_value)
                       (panel_at self x_value y_value)
                       (coordinate_tolerance (validation self)) = true.

End FurtherVocabulary.

(** Neighbours of the list are [step] apart, up to the rounding of both
    to 4 decimals. *)
Definition evenly_spaced (step : Qc) (l : list Qc) : Prop :=
  Forall (fun pair =>
            (this step - (1 # 10000) <= this (snd pair) - this (fst pair)
             <= this step + (1 # 10000))%Q)
         (adjacent_pairs l).

(** *** Doubles on which the sums of [BuildGrid] are exact

    A double that is a whole number of sixteenths, below [2^53] sixteenths
    in absolute value, is [a / 16] for an integer [a].  Sums and
    differences of such doubles that stay in that range are exact, their
    comparison is the comparison of the integers, and [round(v, 4)] returns
    them unchanged, since a sixteenth is a decimal of 4 places. *)

Module Binary64Dyadic.

(** The sign and the spare bits of an integer below [2^53]. *)
Definition sign (a : Z) : bool := (a <? 0)%Z.
Definition slack (a : Z) : Z := (53 - (Z.log2 (Z.abs a) + 1))%Z.

(** The double of value [a * 2^u], for an integer [a] below [2^53] in
    absolute value: the mantissa is [|a|] shifted to 53 bits. *)
Definition dyadic (u a : Z) : spec_float :=
  match a with
  | Z0 => S754_zero false
  | _ => S754_finite (sign a) (Z.to_pos (Z.abs a * 2 ^ slack a)) (u - slack a)%Z
  end.

End Binary64Dyadic.

(** [a / 16.0] *)
Definition sixteenths (a : Z) : float :=
  PrimFloat.div (Binary64.of_Z a) 16%float.

(** The positions [r, r + s, r + 2s, ...], [n] of them. *)
Fixpoint ladder (n : nat) (r s : Z) : list Z :=
  match n with
  | O => []
  | S n' => r :: ladder n' (r + s)%Z s
  end.

(** The factory of spacing [s / 16] and clearance [c / 16]. *)
Definition sixteenths_factory (s c : Z) : RafterFactory (F := float) :=
  {| spacing := sixteenths s; rafter_edge_clearance := sixteenths c |}.

(** *** Doubles that are numbers *)

Module Binary64Number.

(** A double that is not a NaN, and one that is neither a NaN nor an
    infinity. *)
Definition number (v : float) : bool :=
  match Prim2SF v with
  | S754_nan => false
  | _ => true
  end.

Definition finite (v : float) : bool :=
  match Prim2SF v with
  | S754_zero _ | S754_finite _ _ _ => true
  | _ => false
  end.

(** A panel whose coordinates and size are finite doubles. *)
Definition finite_panel (p : Panel (F := float)) : Prop :=
  finite (panel_x p) = true /\ finite (panel_y p) = true
  /\ finite (width p) = true /\ finite (height p) = true.

(** A joint whose coordinates are numbers, and its place in the order of
    the output: the keys of its [(y, x)]. *)
Definition number_joint (j : Joint (F := float)) : Prop :=
  number (joint_x j) = true /\ number (joint_y j) = true.

Definition joint_rank (j : Joint (F := float)) : (Z * Z * Z) * (Z * Z * Z) :=
  (Binary64Order.fkey (joint_y j), Binary64Order.fkey (joint_x j)).

End Binary64Number.

(** * Lemmas *)

(** ** The [binary64] instance on known values

    Literals are the doubles Python reads, and [round] behaves as in
    CPython: [round(2.67545, 4)] is [2.6755], [round(0.00005, 4)] is
    [0.0001] (the double is above the tie), [round(-0.00001, 4)] is [-0.0],
    [round(0.5)] is [0] and [round(1.5)] and [round(2.5)] are [2]. *)
Lemma binary64_samples :
  lit 447 1 = 44.7%float /\ lit 711 1 = 71.1%float /\ lit 1 6 = 1e-6%float
  /\ round4 2.67545%float = 2.6755%float
  /\ round4 0.00005%float = 0.0001%float
  /\ round4 (-0.00001)%float = PrimFloat.neg_zero
  /\ round4 1e20%float = 1e20%float
  /\ round4 PrimFloat.nan = PrimFloat.nan
  /\ round_int 0.5%float = inr 0%Z
  /\ round_int 1.5%float = inr 2%Z
  /\ round_int 2.5%float = inr 2%Z
  /\ round_int (-447000.4)%float = inr (-447000)%Z
  /\ round_int PrimFloat.nan = inl ValueError
  /\ round_int PrimFloat.infinity = inl OverflowError.
Proof. repeat split; vm_compute; reflexivity. Qed.

(** ** More fuel never changes a result *)

Section Fuel.
Context {F : Type} `{PyFloat F}.

Lemma walk_back_mono (self : RafterFactory) (min_x : F) :
  forall n m first r, (n <= m)%nat ->
    walk_back n self min_x first = Some r ->
    walk_back m self min_x first = Some r.
Proof.
  induction n as [|n IH]; intros m first r Hle Hn; [discriminate|].
  destruct m as [|m]; [lia|].
  simpl in *.
  destruct (fltb _ _); [apply IH; [lia|assumption]|assumption].
Qed.

Lemma walk_forward_mono (self : RafterFactory) (limit : F) :
  forall n m acc current r, (n <= m)%nat ->
    walk_forward n self limit acc current = Some r ->
    walk_forward m self limit acc current = Some r.
Proof.
  induction n as [|n IH]; intros m acc current r Hle Hn; [discriminate|].
  destruct m as [|m]; [lia|].
  simpl in *.
  destruct (fleb _ _); [apply IH; [lia|assumption]|assumption].
Qed.

Lemma BuildGrid_mono (self : RafterFactory) (min_x max_x : F) (n m : nat) :
  (n <= m)%nat ->
  BuildGrid n self min_x max_x <> OutOfFuel ->
  BuildGrid m self min_x max_x = BuildGrid n self min_x max_x.
Proof.
  intros Hle. unfold BuildGrid.
  destruct (fltb max_x min_x); [reflexivity|].
  destruct (walk_back n _ _ _) as [first|] eqn:Hb; [|congruence].
  rewrite (walk_back_mono _ _ _ _ _ _ Hle Hb).
  destruct (walk_forward n _ _ _ _) as [ps|] eqn:Hf; [|congruence].
  now rewrite (walk_forward_mono _ _ _ _ _ _ _ Hle Hf).
Qed.

Lemma CalculateLayoutDetailed_mono (self : LayoutCalculator) (specs : list PanelSpec)
    (n m : nat) :
  (n <= m)%nat ->
  CalculateLayoutDetailed n self specs <> OutOfFuel ->
  CalculateLayoutDetailed m self specs = CalculateLayoutDetailed n self specs.
Proof.
  intros Hle. unfold CalculateLayoutDetailed.
  destruct (BuildPanels _ _) as [[|p ps]| |]; simpl; try reflexivity.
  destruct (BuildGrid n _ _ _) eqn:Hg; simpl; intros Hn;
    try congruence;
    rewrite (BuildGrid_mono _ _ _ _ _ Hle) by congruence;
    rewrite Hg; reflexivity.
Qed.

Lemma CalculateLayout_mono (self : LayoutCalculator) (specs : list PanelSpec)
    (n m : nat) :
  (n <= m)%nat ->
  CalculateLayout n self specs <> OutOfFuel ->
  CalculateLayout m self specs = CalculateLayout n self specs.
Proof.
  intros Hle. unfold CalculateLayout. intros Hn.
  rewrite (CalculateLayoutDetailed_mono _ _ _ _ Hle); [reflexivity|].
  intros E. rewrite E in Hn. now apply Hn.
Qed.

End Fuel.

(** ** Structure of a run, at every instance *)

Section Structure.
Context {F : Type} `{PyFloat F}.

Lemma CalculatePanelMounts_returns (self : MountCalculator) (grid : RafterGrid)
    (panel : Panel) (ms : list Mount) :
  _CalculatePanelMounts self panel grid = Returns ms ->
  ms = top_mounts self grid panel ++ bottom_mounts self grid panel.
Proof.
  unfold _CalculatePanelMounts, top_mounts, bottom_mounts, selected_rafters.
  destruct (PositionsInRange grid _ _) as [|r0 rs]; [discriminate|].
  repeat match goal with
         | |- context [if ?b then _ else _] => destruct b; [discriminate|]
         end.
  intros E. injection E as <-. reflexivity.
Qed.

Lemma CalculateMounts_from_returns (self : MountCalculator) (grid : RafterGrid) :
  forall (ps : list Panel) acc ms,
    CalculateMounts_from self grid acc ps = Returns ms ->
    ms = acc ++ flat_map (fun p => top_mounts self grid p ++ bottom_mounts self grid p)
                         ps.
Proof.
  induction ps as [|p ps IH]; intros acc ms E; simpl in E.
  - injection E as <-. simpl. now rewrite app_nil_r.
  - destruct (_CalculatePanelMounts self p grid) as [pm| |] eqn:Ep; try discriminate E.
    simpl in E. apply IH in E. apply CalculatePanelMounts_returns in Ep.
    subst pm. simpl. now rewrite E, <- app_assoc.
Qed.

Lemma CalculateMounts_returns (self : MountCalculator) (grid : RafterGrid)
    (panels : list Panel) (ms : list Mount) :
  CalculateMounts self panels grid = Returns ms ->
  ms = flat_map (fun p => top_mounts self grid p ++ bottom_mounts self grid p) panels.
Proof. intros E. now apply CalculateMounts_from_returns in E. Qed.

(** What a successful run of [CalculateLayoutDetailed] has computed. *)
Lemma CalculateLayoutDetailed_returns (fuel : nat) (self : LayoutCalculator)
    (specs : list PanelSpec) (context : LayoutContext) :
  CalculateLayoutDetailed fuel self specs = Returns context ->
  exists panel_0 others grid,
    BuildPanels (panel_factory self) specs = Returns (panel_0 :: others)
    /\ panels context = panel_0 :: others
    /\ BuildGrid fuel (rafter_factory self)
                 (min_of (panel_x panel_0) (map panel_x others))
                 (max_of (RightEdge panel_0) (map RightEdge others)) = Returns grid
    /\ rafters context = positions grid
    /\ CalculateMounts (mount_calculator self) (panels context) grid
       = Returns (mounts (result context))
    /\ joints (result context) = CalculateJoints (joint_calculator self) (panels context).
Proof.
  unfold CalculateLayoutDetailed. intros E.
  destruct (BuildPanels _ _) as [[|p0 ps]| |]; simpl in E; try discriminate E.
  destruct (BuildGrid _ _ _ _) as [grid| |] eqn:Eg; simpl in E; try discriminate E.
  destruct (CalculateMounts _ _ _) as [ms| |] eqn:Em; simpl in E; try discriminate E.
  injection E as <-. simpl. exists p0, ps, grid. repeat split; assumption.
Qed.

End Structure.

(** ** Where the "NoPanels" error can come from *)

Section NoPanelsError.
Context {F : Type} `{PyFloat F}.

Lemma insort_length {A : Type} (lt : A -> A -> bool) (a : A) (l : list A) :
  length (insort lt a l) = S (length l).
Proof.
  induction l as [|b l IH]; simpl; [reflexivity|].
  destruct (lt a b); simpl; [reflexivity|now rewrite IH].
Qed.

Lemma sorted_length {A : Type} (lt : A -> A -> bool) (l : list A) :
  length (sorted lt l) = length l.
Proof.
  unfold sorted.
  enough (G : forall acc, length (fold_left (fun acc a => insort lt a acc) l acc)
                          = (length acc + length l)%nat) by apply G.
  induction l as [|a l IH]; intros acc; simpl; [lia|].
  rewrite IH, insort_length. lia.
Qed.

Lemma BuildPanels_from_length (self : PanelFactory) (tolerance : F) :
  forall specs acc seen ps,
    BuildPanels_from self tolerance acc seen specs = Returns ps ->
    length ps = (length acc + length specs)%nat.
Proof.
  induction specs as [|item rest IH]; intros acc seen ps E; simpl in E.
  - injection E as <-. simpl. lia.
  - destruct (spec_x item); [|discriminate E].
    destruct (spec_y item); [|discriminate E].
    destruct (_ValidateCoordinateBounds _ _ _ _); simpl in E; try discriminate E.
    match type of E with
    | bind ?c _ = _ => destruct c as [seen'| |]; simpl in E; try discriminate E
    end.
    apply IH in E. rewrite E, length_app. simpl. lia.
Qed.

Lemma BuildPanels_length (self : PanelFactory) (specs : list PanelSpec)
    (ps : list Panel) :
  BuildPanels self specs = Returns ps -> length ps = length specs.
Proof.
  unfold BuildPanels. intros E.
  destruct (BuildPanels_from _ _ _ _ _) as [built| |] eqn:Eb; simpl in E;
    try discriminate E.
  apply BuildPanels_from_length in Eb. simpl in Eb.
  match type of E with
  | bind ?c _ = _ => destruct c; simpl in E; try discriminate E
  end.
  injection E as <-. unfold sort_panels. now rewrite sorted_length.
Qed.

Lemma BuildPanels_from_not_NoPanels (self : PanelFactory) (tolerance : F) :
  forall specs acc seen,
    BuildPanels_from self tolerance acc seen specs
      <> Raises (LayoutValidationError NoPanels).
Proof.
  induction specs as [|item rest IH]; intros acc seen E; simpl in E; [discriminate E|].
  destruct (spec_x item); [|discriminate E].
  destruct (spec_y item); [|discriminate E].
  unfold _ValidateCoordinateBounds, _QuantizeCoordinate, py_round in E.
  destruct (allow_negative_coordinates _); simpl in E;
    [|destruct (_ || _); simpl in E; [discriminate E|]];
    (destruct (allow_duplicates _); simpl in E;
     [now apply IH in E|];
     destruct (round_int _); simpl in E; [discriminate E|];
     destruct (round_int _); simpl in E; [discriminate E|];
     destruct (key_in _ _); simpl in E; [discriminate E|now apply IH in E]).
Qed.

Lemma ValidateNoOverlap_not_NoPanels (self : PanelFactory) (tolerance : F) :
  forall ps, _ValidateNoOverlap self ps tolerance
             <> Raises (LayoutValidationError NoPanels).
Proof.
  induction ps as [|p ps IH]; simpl; [discriminate|].
  destruct (find _ _); [discriminate|assumption].
Qed.

Lemma BuildPanels_not_NoPanels (self : PanelFactory) (specs : list PanelSpec) :
  BuildPanels self specs <> Raises (LayoutValidationError NoPanels).
Proof.
  unfold BuildPanels. intros E.
  destruct (BuildPanels_from _ _ _ _ _) as [built| |] eqn:Eb; simpl in E.
  - destruct (allow_overlaps _); simpl in E; [discriminate E|].
    destruct (_ValidateNoOverlap _ _ _) eqn:Ev; simpl in E; try discriminate E.
    injection E as ->. now apply ValidateNoOverlap_not_NoPanels in Ev.
  - rewrite E in Eb. now apply BuildPanels_from_not_NoPanels in Eb.
  - discriminate E.
Qed.

Lemma BuildGrid_not_NoPanels (fuel : nat) (self : RafterFactory) (min_x max_x : F) :
  BuildGrid fuel self min_x max_x <> Raises (LayoutValidationError NoPanels).
Proof.
  unfold BuildGrid.
  destruct (fltb _ _); [discriminate|].
  destruct (walk_back _ _ _ _); [|discriminate].
  destruct (walk_forward _ _ _ _ _); discriminate.
Qed.

Lemma CalculatePanelMounts_not_NoPanels (self : MountCalculator) (p : Panel)
    (grid : RafterGrid) :
  _CalculatePanelMounts self p grid <> Raises (LayoutValidationError NoPanels).
Proof.
  unfold _CalculatePanelMounts.
  destruct (PositionsInRange _ _ _); [discriminate|].
  repeat match goal with
         | |- context [if ?b then _ else _] => destruct b; [discriminate|]
         end.
  discriminate.
Qed.

Lemma CalculateMounts_from_not_NoPanels (self : MountCalculator) (grid : RafterGrid) :
  forall ps acc, CalculateMounts_from self grid acc ps
                 <> Raises (LayoutValidationError NoPanels).
Proof.
  induction ps as [|p ps IH]; intros acc; simpl; [discriminate|].
  destruct (_CalculatePanelMounts self p grid) eqn:Ep; simpl; [apply IH| |discriminate].
  intros E. injection E as ->. now apply CalculatePanelMounts_not_NoPanels in Ep.
Qed.

End NoPanelsError.

(** ** Containers and the joint dictionary *)

Section Containers.
Context {A : Type} (lt : A -> A -> bool).

Lemma insort_In (a b : A) (l : list A) :
  In b (insort lt a l) <-> b = a \/ In b l.
Proof.
  induction l as [|c l IH]; simpl.
  - intuition congruence.
  - destruct (lt a c); simpl; [intuition congruence|].
    rewrite IH. intuition congruence.
Qed.

Lemma sorted_In (b : A) (l : list A) : In b (sorted lt l) <-> In b l.
Proof.
  unfold sorted.
  enough (G : forall acc, In b (fold_left (fun acc a => insort lt a acc) l acc)
                          <-> In b acc \/ In b l).
  { rewrite G. simpl. tauto. }
  induction l as [|a l IH]; intros acc; simpl; [tauto|].
  rewrite IH, insort_In. intuition congruence.
Qed.

End Containers.

Section DictFacts.
Context {K V : Type} (keq : K -> K -> bool).

Lemma dict_set_values_In (d : list (K * V)) (k : K) (v w : V) :
  In w (dict_values (dict_set keq d k v)) -> w = v \/ In w (dict_values d).
Proof.
  induction d as [|[k' v'] d IH]; simpl.
  - intuition congruence.
  - destruct (keq k' k); simpl; [intuition congruence|].
    intros [E|Hin]; [auto|]. apply IH in Hin. tauto.
Qed.

Lemma dict_set_values_new (d : list (K * V)) (k : K) (v : V) :
  In v (dict_values (dict_set keq d k v)).
Proof.
  induction d as [|[k' v'] d IH]; simpl; [auto|].
  destruct (keq k' k); simpl; auto.
Qed.

(** With a key function [key] and an [==] that is equality, a dictionary
    whose every value sits at its own key keeps the values it has. *)
Context (key : V -> K).
Hypothesis keq_eq : forall a b, keq a b = true -> a = b.
Hypothesis key_inj : forall v w, key v = key w -> v = w.

Lemma dict_set_keyed (d : list (K * V)) (v : V) :
  keyed key d -> keyed key (dict_set keq d (key v) v).
Proof.
  unfold keyed. induction d as [|[k' v'] d IH]; simpl; intros Hd.
  - repeat constructor.
  - inversion Hd as [|? ? Hk Hd']; subst. simpl in Hk.
    destruct (keq k' (key v)) eqn:E.
    + constructor; [simpl; now apply keq_eq in E|assumption].
    + constructor; [assumption|now apply IH].
Qed.

Lemma dict_set_values_old (d : list (K * V)) (v w : V) :
  keyed key d -> In w (dict_values d) ->
  In w (dict_values (dict_set keq d (key v) v)).
Proof.
  unfold keyed. induction d as [|[k' v'] d IH]; simpl; intros Hd Hin; [tauto|].
  inversion Hd as [|? ? Hk Hd']; subst. simpl in Hk.
  destruct (keq k' (key v)) eqn:E; simpl.
  - destruct Hin as [<-|Hin]; [|auto].
    left. apply keq_eq in E. symmetry. apply key_inj. congruence.
  - destruct Hin as [<-|Hin]; [auto|right; now apply IH].
Qed.

End DictFacts.

Section JointsFacts.
Context {F : Type} `{PyFloat F}.

Lemma pair_joints_spec (self : JointCalculator) (row_key : F)
    (left_panel right_panel : Panel) :
  let gap := fsub (panel_x right_panel) (RightEdge left_panel) in
  let seam_x := fdiv (fadd (RightEdge left_panel) (panel_x right_panel)) (lit 2 0) in
  (fleb (horizontal_gap_threshold self) gap = true ->
   pair_joints self row_key left_panel right_panel = [])
  /\ (fleb (horizontal_gap_threshold self) gap = false ->
      pair_joints self row_key left_panel right_panel
      = [ {| joint_x := round4 seam_x; joint_y := round4 row_key |};
          {| joint_x := round4 seam_x;
             joint_y := round4 (fadd row_key (height left_panel)) |} ]).
Proof.
  unfold pair_joints. simpl. split; intros ->; reflexivity.
Qed.

Lemma pair_joints_In_gap (self : JointCalculator) (row_key : F)
    (left_panel right_panel : Panel) (j : Joint) :
  In j (pair_joints self row_key left_panel right_panel) ->
  fleb (horizontal_gap_threshold self)
       (fsub (panel_x right_panel) (RightEdge left_panel)) = false.
Proof.
  unfold pair_joints. destruct (fleb _ _); [intros []|reflexivity].
Qed.

Lemma joint_key_inj (v w : @Joint F) : joint_key v = joint_key w -> v = w.
Proof. destruct v, w. unfold joint_key. simpl. congruence. Qed.

Lemma store_joints_In (new : list Joint) :
  forall d w, In w (dict_values (store_joints d new)) ->
              In w new \/ In w (dict_values d).
Proof.
  unfold store_joints.
  induction new as [|j new IH]; intros d w Hin; simpl in *; [auto|].
  apply IH in Hin. destruct Hin as [Hin|Hin]; [auto|].
  apply dict_set_values_In in Hin. intuition congruence.
Qed.

Lemma pairs_fold_In (self : JointCalculator) (row_key : F) (prs : list (Panel * Panel)) :
  forall d w,
    In w (dict_values
            (fold_left (fun joints '(left_panel, right_panel) =>
                          store_joints joints
                            (pair_joints self row_key left_panel right_panel))
                       prs d)) ->
    In w (dict_values d)
    \/ exists l r, In (l, r) prs /\ In w (pair_joints self row_key l r).
Proof.
  induction prs as [|[l r] prs IH]; intros d w Hin; simpl in *; [auto|].
  apply IH in Hin. destruct Hin as [Hin|(l' & r' & Hp & Hw)].
  - apply store_joints_In in Hin. destruct Hin as [Hin|Hin]; [|auto].
    right. exists l, r. auto.
  - right. exists l', r'. auto.
Qed.

Lemma rows_fold_In (self : JointCalculator) (rows : list (F * list Panel)) :
  forall d w,
    In w (dict_values (fold_left (row_joints self) rows d)) ->
    In w (dict_values d) \/ emitted self rows w.
Proof.
  induction rows as [|[k ps] rows IH]; intros d w Hin; simpl in *; [auto|].
  apply IH in Hin. destruct Hin as [Hin|(k' & ps' & l & r & Hr & Hp & Hw)].
  - apply pairs_fold_In in Hin. destruct Hin as [Hin|(l & r & Hp & Hw)]; [auto|].
    right. exists k, ps, l, r. simpl. auto.
  - right. exists k', ps', l, r. simpl. auto.
Qed.

Lemma CalculateJoints_sound (self : JointCalculator) (ps : list Panel) (j : Joint) :
  In j (CalculateJoints self ps) -> emitted self (group_rows self ps) j.
Proof.
  unfold CalculateJoints. intros Hin. apply sorted_In in Hin.
  apply rows_fold_In in Hin. destruct Hin as [[]|Hin]. exact Hin.
Qed.

(** Where [==] is equality, every emitted joint is in the output. *)
Hypothesis feqb_eq : forall a b : F, feqb a b = true -> a = b.

Lemma tuple_eqb_eq (a b : F * F) : tuple_eqb a b = true -> a = b.
Proof.
  destruct a, b. unfold tuple_eqb. simpl. intros E.
  apply andb_prop in E. destruct E as [E1 E2].
  apply feqb_eq in E1, E2. congruence.
Qed.

Lemma store_joints_keyed (new : list Joint) :
  forall d, keyed joint_key d -> keyed joint_key (store_joints d new).
Proof.
  unfold store_joints. induction new as [|j new IH]; intros d Hd; simpl; [assumption|].
  apply IH. apply dict_set_keyed; [exact tuple_eqb_eq|assumption].
Qed.

Lemma store_joints_old (new : list Joint) :
  forall d w, keyed joint_key d -> In w (dict_values d) ->
              In w (dict_values (store_joints d new)).
Proof.
  unfold store_joints. induction new as [|j new IH]; intros d w Hd Hin; simpl; [assumption|].
  apply IH.
  - apply dict_set_keyed; [exact tuple_eqb_eq|assumption].
  - apply dict_set_values_old;
      [exact tuple_eqb_eq|exact joint_key_inj|assumption|assumption].
Qed.

Lemma store_joints_new (new : list Joint) :
  forall d w, keyed joint_key d -> In w new ->
              In w (dict_values (store_joints d new)).
Proof.
  induction new as [|j new IH]; intros d w Hd Hin; [destruct Hin|].
  change (store_joints d (j :: new))
    with (store_joints (dict_set tuple_eqb d (joint_key j) j) new).
  assert (Hd' : keyed joint_key (dict_set tuple_eqb d (joint_key j) j))
    by (apply dict_set_keyed; [exact tuple_eqb_eq|assumption]).
  destruct Hin as [<-|Hin]; [|now apply IH].
  apply store_joints_old; [assumption|apply dict_set_values_new].
Qed.

Lemma pairs_fold_keyed (self : JointCalculator) (row_key : F)
    (prs : list (Panel * Panel)) :
  forall d, keyed joint_key d ->
    keyed joint_key
      (fold_left (fun joints '(left_panel, right_panel) =>
                    store_joints joints
                      (pair_joints self row_key left_panel right_panel))
                 prs d).
Proof.
  induction prs as [|[l r] prs IH]; intros d Hd; simpl; [assumption|].
  apply IH. now apply store_joints_keyed.
Qed.

Lemma pairs_fold_complete (self : JointCalculator) (row_key : F)
    (prs : list (Panel * Panel)) :
  forall d w, keyed joint_key d ->
    (In w (dict_values d)
     \/ exists l r, In (l, r) prs /\ In w (pair_joints self row_key l r)) ->
    In w (dict_values
            (fold_left (fun joints '(left_panel, right_panel) =>
                          store_joints joints
                            (pair_joints self row_key left_panel right_panel))
                       prs d)).
Proof.
  induction prs as [|[l r] prs IH]; intros d w Hd Hin; simpl.
  - destruct Hin as [Hin|(l & r & [] & _)]. exact Hin.
  - apply IH; [now apply store_joints_keyed|].
    destruct Hin as [Hin|(l' & r' & [E|Hp] & Hw)].
    + left. now apply store_joints_old.
    + injection E as <- <-. left. now apply store_joints_new.
    + right. exists l', r'. auto.
Qed.

Lemma rows_fold_complete (self : JointCalculator) (rows : list (F * list Panel)) :
  forall d w, keyed joint_key d ->
    (In w (dict_values d) \/ emitted self rows w) ->
    In w (dict_values (fold_left (row_joints self) rows d)).
Proof.
  induction rows as [|[k ps] rows IH]; intros d w Hd Hin; simpl.
  - destruct Hin as [Hin|(? & ? & ? & ? & [] & _)]. exact Hin.
  - apply IH; [now apply pairs_fold_keyed|].
    destruct Hin as [Hin|(k' & ps' & l & r & [E|Hr] & Hp & Hw)].
    + left. apply pairs_fold_complete; auto.
    + injection E as <- <-. left. apply pairs_fold_complete; [assumption|].
      right. exists l, r. auto.
    + right. exists k', ps', l, r. auto.
Qed.

Lemma CalculateJoints_complete (self : JointCalculator) (ps : list Panel) (j : Joint) :
  emitted self (group_rows self ps) j -> In j (CalculateJoints self ps).
Proof.
  intros Hin. unfold CalculateJoints. apply sorted_In.
  apply rows_fold_complete; [constructor|auto].
Qed.

End JointsFacts.

(** [<] and [>=] on doubles exclude each other. *)
Lemma SFcompare_antisym (x y : spec_float) :
  SFcompare y x = option_map CompOpp (SFcompare x y).
Proof.
  destruct x as [sx|sx| |sx mx ex], y as [sy|sy| |sy my ey]; simpl;
    try reflexivity;
    try (destruct sx; reflexivity); try (destruct sy; reflexivity);
    try (destruct sx, sy; reflexivity).
  pose proof (Pos.compare_cont_antisym mx my Eq) as Hm. simpl in Hm.
  destruct sx, sy; try reflexivity;
    rewrite (Z.compare_antisym ex ey); destruct (ex ?= ey)%Z; simpl; try reflexivity;
    rewrite <- Hm; destruct (Pos.compare_cont Eq mx my); reflexivity.
Qed.

Lemma binary64_lt_not_ge (x y : float) :
  PrimFloat.ltb x y = true -> PrimFloat.leb y x = false.
Proof.
  rewrite FloatAxioms.ltb_spec, FloatAxioms.leb_spec. unfold SFltb, SFleb.
  rewrite (SFcompare_antisym (Prim2SF x) (Prim2SF y)).
  destruct (SFcompare (Prim2SF x) (Prim2SF y)) as [[]|]; simpl; congruence.
Qed.

Lemma exact_feqb_eq (a b : Qc) : feqb a b = true -> a = b.
Proof. apply Qc_eq_bool_correct. Qed.

(** ** The rafter grid in exact arithmetic *)

(** *** Rounding half to even *)

Lemma round_half_even_spec (num den : Z) :
  (0 < den)%Z ->
  let r := round_half_even num den in
  (- den <= 2 * (den * r - num) <= den)%Z
  /\ ((2 * (den * r - num) = den \/ 2 * (den * r - num) = - den)%Z -> Z.even r = true).
Proof.
  intros Hden. unfold round_half_even.
  pose proof (Z.div_mod num den ltac:(lia)) as Hdm.
  pose proof (Z.mod_pos_bound num den Hden) as Hr.
  set (q := (num / den)%Z) in *. set (m := (num mod den)%Z) in *.
  clearbody q m. cbv zeta.
  destruct (Z.compare_spec (2 * m) den) as [E|E|E].
  - destruct (Z.even q) eqn:Ev.
    + split; [lia|auto].
    + split; [lia|]. intros _. rewrite Z.even_add, Ev. reflexivity.
  - split; [lia|]. intros [?|?]; lia.
  - split; [lia|]. intros [?|?]; lia.
Qed.

Lemma round_half_even_mono (n1 d1 n2 d2 : Z) :
  (0 < d1)%Z -> (0 < d2)%Z -> (n1 * d2 <= n2 * d1)%Z ->
  (round_half_even n1 d1 <= round_half_even n2 d2)%Z.
Proof.
  intros H1 H2 Hle.
  destruct (round_half_even_spec n1 d1 H1) as [B1 T1].
  destruct (round_half_even_spec n2 d2 H2) as [B2 T2].
  set (r1 := round_half_even n1 d1) in *. set (r2 := round_half_even n2 d2) in *.
  cbv zeta in *.
  clearbody r1 r2.
  destruct (Z_le_gt_dec r1 r2) as [|Hgt]; [assumption|exfalso].
  assert (H1' : ((2 * r1 - 1) * (d1 * d2) <= 2 * n1 * d2)%Z) by nia.
  assert (H2' : (2 * n2 * d1 <= (2 * r2 + 1) * (d1 * d2))%Z) by nia.
  assert (HD : (0 < d1 * d2)%Z) by nia.
  assert (H3 : ((2 * r1 - 1) * (d1 * d2) <= (2 * r2 + 1) * (d1 * d2))%Z) by lia.
  apply Z.mul_le_mono_pos_r in H3; [|assumption].
  assert (E : (r1 = r2 + 1)%Z) by lia. subst r1.
  assert (T1' : (2 * (d1 * (r2 + 1) - n1) = d1)%Z).
  { assert (G : ((2 * n1 - (2 * (r2 + 1) - 1) * d1) * d2 = 0)%Z) by nia.
    apply Z.mul_eq_0 in G. lia. }
  assert (T2' : (2 * (d2 * r2 - n2) = - d2)%Z).
  { assert (G : (((2 * r2 + 1) * d2 - 2 * n2) * d1 = 0)%Z) by nia.
    apply Z.mul_eq_0 in G. lia. }
  specialize (T1 (or_introl T1')). specialize (T2 (or_intror T2')).
  rewrite Z.even_add, T2 in T1. discriminate T1.
Qed.

(** *** The [exact] instance in terms of rationals *)

Module ExactFacts.
Open Scope Q_scope.

Lemma fleb_true (a b : Qc) : fleb a b = true <-> this a <= this b.
Proof. exact (Qle_bool_iff a b). Qed.

Lemma fleb_false (a b : Qc) : fleb a b = false <-> this b < this a.
Proof.
  change (fleb a b) with (Qle_bool a b).
  rewrite <- Bool.not_true_iff_false, Qle_bool_iff.
  split; [apply Qnot_le_lt|apply Qlt_not_le].
Qed.

Lemma fltb_true (a b : Qc) : fltb a b = true <-> this a < this b.
Proof.
  change (fltb a b) with (negb (Qle_bool b a)).
  rewrite Bool.negb_true_iff. apply fleb_false.
Qed.

Lemma fltb_false (a b : Qc) : fltb a b = false <-> this b <= this a.
Proof.
  change (fltb a b) with (negb (Qle_bool b a)).
  rewrite Bool.negb_false_iff. apply fleb_true.
Qed.

Lemma this_fadd (a b : Qc) : this (fadd a b) == this a + this b.
Proof. exact (Qred_correct _). Qed.

Lemma this_fsub (a b : Qc) : this (fsub a b) == this a - this b.
Proof.
  change (this (fsub a b)) with (Qred (this a + Qred (- this b))).
  now rewrite !Qred_correct.
Qed.

Lemma this_fmul (a b : Qc) : this (fmul a b) == this a * this b.
Proof. exact (Qred_correct _). Qed.

Lemma this_lit (m : Z) (k : nat) : this (lit m k) == m # Z.to_pos (10 ^ Z.of_nat k).
Proof. exact (Qred_correct _). Qed.

Lemma this_round4 (a : Qc) :
  this (round4 a) == inject_Z (round_half_even (Qnum a * 10000) (Zpos (Qden a))) / 10000.
Proof.
  change (this (round4 a))
    with (Qred (round_half_even (Qnum a * 10000) (Zpos (Qden a)) # 10000)).
  rewrite Qred_correct.
  unfold Qdiv, Qmult, Qinv, inject_Z, Qeq. simpl. lia.
Qed.

Lemma round4_mono (a b : Qc) : this a <= this b -> this (round4 a) <= this (round4 b).
Proof.
  intros Hle. rewrite !this_round4.
  apply Qmult_le_compat_r; [|discriminate].
  rewrite <- Zle_Qle. apply round_half_even_mono; try reflexivity.
  unfold Qle in Hle. nia.
Qed.

Lemma round4_near (a : Qc) :
  this a - (1 # 20000) <= this (round4 a) <= this a + (1 # 20000).
Proof.
  rewrite this_round4.
  destruct (round_half_even_spec (Qnum a * 10000) (Zpos (Qden a)) eq_refl) as [B _].
  cbv zeta in B.
  set (r := round_half_even _ _) in *. clearbody r.
  destruct a as [[n d] Hc]. cbn [this Qnum Qden] in *.
  unfold Qle, Qminus, Qplus, Qopp, Qdiv, Qmult, Qinv, inject_Z.
  cbn [Qnum Qden]. rewrite ?Pos2Z.inj_mul. split; nia.
Qed.

Lemma round4_step (a b : Qc) :
  this a + (1 # 10000) < this b -> this (round4 a) < this (round4 b).
Proof.
  intros Hlt. pose proof (round4_near a). pose proof (round4_near b). lra.
Qed.

End ExactFacts.

(** *** The two loops of [BuildGrid] *)

Section Stepped.
Context {F : Type} `{PyFloat F}.

Lemma walk_forward_stepped (self : RafterFactory) (limit : F) :
  forall fuel acc current r,
    walk_forward fuel self limit acc current = Some r ->
    exists ps, r = acc ++ ps /\ stepped self limit ps current.
Proof.
  induction fuel as [|fuel IH]; intros acc current r E; [discriminate E|].
  cbn [walk_forward] in E. destruct (fleb current limit) eqn:Ec.
  - apply IH in E. destruct E as (ps & -> & Hps).
    exists (round4 current :: ps). split; [now rewrite <- app_assoc|].
    cbn [stepped]. auto.
  - injection E as <-. exists []. split; [now rewrite app_nil_r|exact Ec].
Qed.

Lemma walk_forward_S (self : RafterFactory) (limit : F) (fuel : nat)
    (acc : list F) (current : F) :
  walk_forward (S fuel) self limit acc current
  = if fleb current limit
    then walk_forward fuel self limit (acc ++ [round4 current])
                      (fadd current (spacing self))
    else Some acc.
Proof. reflexivity. Qed.

Lemma stepped_walk_forward (self : RafterFactory) (limit : F) :
  forall ps acc current,
    stepped self limit ps current ->
    walk_forward (S (length ps)) self limit acc current = Some (acc ++ ps).
Proof.
  induction ps as [|p ps IH]; intros acc current Hps; cbn [stepped] in Hps.
  - rewrite walk_forward_S, Hps. now rewrite app_nil_r.
  - destruct Hps as (Hc & -> & Hps).
    change (length (round4 current :: ps)) with (S (length ps)).
    rewrite walk_forward_S, Hc, (IH _ _ Hps). now rewrite <- app_assoc.
Qed.

End Stepped.

Module GridFacts.
Import ExactFacts.
Open Scope Q_scope.

Lemma this_lit_2 : this (lit 2 0) == 2.
Proof. rewrite this_lit. reflexivity. Qed.

Lemma inject_succ (n : nat) : inject_Z (Z.of_nat (S n)) == inject_Z (Z.of_nat n) + 1.
Proof. rewrite Nat2Z.inj_succ. unfold Z.succ. rewrite inject_Z_plus. reflexivity. Qed.

Lemma walk_back_exact (self : RafterFactory (F := Qc)) (min_x : Qc) :
  0 < this (spacing self) ->
  forall n first,
    this first <= this min_x - this (spacing self)
                  + inject_Z (Z.of_nat n) * this (spacing self) ->
    exists r, walk_back (S n) self min_x first = Some r
              /\ this r <= this min_x - this (spacing self)
              /\ (this min_x - 2 * this (spacing self) < this first ->
                  this min_x - 2 * this (spacing self) < this r).
Proof.
  intros Hs. induction n as [|n IH]; intros first Hub; cbn [walk_back].
  - destruct (fltb _ _) eqn:E.
    + apply fltb_true in E. rewrite !this_fsub, this_fmul, this_lit_2 in E.
      change (inject_Z (Z.of_nat 0)) with 0 in Hub. lra.
    + apply fltb_false in E. rewrite !this_fsub, this_fmul, this_lit_2 in E.
      exists first. repeat split; [lra|auto].
  - destruct (fltb _ _) eqn:E.
    + apply fltb_true in E. rewrite !this_fsub, this_fmul, this_lit_2 in E.
      destruct (IH (fsub first (spacing self))) as (r & Hr & Hub' & Hlb').
      { rewrite this_fsub. rewrite inject_succ in Hub. lra. }
      exists r. repeat split; [assumption|assumption|].
      intros _. apply Hlb'. rewrite this_fsub. lra.
    + apply fltb_false in E. rewrite !this_fsub, this_fmul, this_lit_2 in E.
      exists first. repeat split; [lra|auto].
Qed.

(** Some multiple of a positive step exceeds any bound. *)
Lemma archimedes (a s : Q) : 0 < s -> exists n : nat, a < inject_Z (Z.of_nat n) * s.
Proof.
  intros Hs. exists (Z.to_nat (Qceiling (a / s)) + 1)%nat.
  assert (Hc : a / s <= inject_Z (Qceiling (a / s))) by apply Qle_ceiling.
  assert (Hn : inject_Z (Qceiling (a / s))
               < inject_Z (Z.of_nat (Z.to_nat (Qceiling (a / s)) + 1))).
  { rewrite <- Zlt_Qlt. lia. }
  set (m := inject_Z (Z.of_nat _)) in *. clearbody m.
  assert (Hlt : a / s < m) by lra.
  apply (Qmult_lt_compat_r _ _ s Hs) in Hlt.
  unfold Qdiv in Hlt. rewrite <- Qmult_assoc, (Qmult_comm (/ s)), Qmult_inv_r, Qmult_1_r in Hlt;
    [assumption|lra].
Qed.

Lemma stepped_exists (self : RafterFactory (F := Qc)) (limit : Qc) :
  0 < this (spacing self) ->
  forall n current,
    this limit < this current + inject_Z (Z.of_nat n) * this (spacing self) ->
    exists ps, stepped self limit ps current.
Proof.
  intros Hs. induction n as [|n IH]; intros current Hn.
  - exists []. cbn [stepped]. apply fleb_false.
    change (inject_Z (Z.of_nat 0)) with 0 in Hn. lra.
  - destruct (fleb current limit) eqn:E.
    + destruct (IH (fadd current (spacing self))) as [ps Hps].
      { rewrite this_fadd. rewrite inject_succ in Hn. lra. }
      exists (round4 current :: ps). cbn [stepped]. auto.
    + exists []. exact E.
Qed.

Lemma stepped_sorted (self : RafterFactory (F := Qc)) (limit : Qc) :
  0 < this (spacing self) ->
  forall ps current,
    stepped self limit ps current ->
    Forall (fun p => this (round4 current) <= this p) ps
    /\ StronglySorted Qcle ps.
Proof.
  intros Hs. induction ps as [|p ps IH]; intros current Hps; cbn [stepped] in Hps.
  - split; constructor.
  - destruct Hps as (_ & -> & Hps). apply IH in Hps. destruct Hps as [Hlow Hsorted].
    assert (Hstep : this (round4 current) <= this (round4 (fadd current (spacing self)))).
    { apply round4_mono. rewrite this_fadd. lra. }
    split.
    + constructor; [apply Qle_refl|].
      eapply Forall_impl; [|exact Hlow]. intros q Hq. cbv beta in Hq. lra.
    + constructor; [assumption|].
      eapply Forall_impl; [|exact Hlow]. intros q Hq. cbv beta in Hq.
      unfold Qcle. lra.
Qed.

Lemma stepped_strictly_sorted (self : RafterFactory (F := Qc)) (limit : Qc) :
  (1 # 10000) < this (spacing self) ->
  forall ps current,
    stepped self limit ps current ->
    Forall (fun p => this (round4 current) <= this p) ps
    /\ StronglySorted Qclt ps.
Proof.
  intros Hs. induction ps as [|p ps IH]; intros current Hps; cbn [stepped] in Hps.
  - split; constructor.
  - destruct Hps as (_ & -> & Hps). apply IH in Hps. destruct Hps as [Hlow Hsorted].
    assert (Hstep : this (round4 current) < this (round4 (fadd current (spacing self)))).
    { apply round4_step. rewrite this_fadd. lra. }
    split.
    + constructor; [apply Qle_refl|].
      eapply Forall_impl; [|exact Hlow]. intros q Hq. cbv beta in Hq. lra.
    + constructor; [assumption|].
      eapply Forall_impl; [|exact Hlow]. intros q Hq. cbv beta in Hq.
      unfold Qclt. lra.
Qed.

End GridFacts.

Module GridRuns.
Import ExactFacts GridFacts.

(** [BuildGrid] returns in exact arithmetic, whatever the clearance. *)
Lemma BuildGrid_exact_returns (self : RafterFactory (F := Qc)) (min_x max_x : Qc) :
  (0 < spacing self)%Qc -> (min_x <= max_x)%Qc ->
  exists fuel first rest,
    (forall fuel', (fuel <= fuel')%nat ->
       walk_back fuel' self min_x (fadd min_x (rafter_edge_clearance self)) = Some first
       /\ BuildGrid fuel' self min_x max_x
          = Returns {| positions := round4 first :: rest |})
    /\ (first <= fsub min_x (spacing self))%Qc
    /\ ((0 <= rafter_edge_clearance self)%Qc ->
        (fsub min_x (fmul (spacing self) (lit 2 0)) < first)%Qc).
Proof.
  intros Hs Hle. unfold Qclt, Qcle in *. change (this 0%Qc) with 0%Q in *.
  set (first_0 := fadd min_x (rafter_edge_clearance self)).
  destruct (archimedes (this first_0 - this min_x + this (spacing self))
                       (this (spacing self)) Hs) as [nb Hnb].
  destruct (walk_back_exact self min_x Hs nb first_0 ltac:(lra))
    as (first & Hback & Hub & Hlb).
  set (limit := fadd max_x (fmul (spacing self) (lit 2 0))).
  destruct (archimedes (this limit - this first) (this (spacing self)) Hs) as [nf Hnf].
  destruct (stepped_exists self limit Hs nf first ltac:(lra)) as [ps Hps].
  destruct ps as [|p rest].
  { exfalso. cbn [stepped] in Hps. apply fleb_false in Hps.
    unfold limit in Hps. rewrite this_fadd, this_fmul, this_lit_2 in Hps. lra. }
  assert (Hp : p = round4 first) by (cbn [stepped] in Hps; tauto). subst p.
  exists (Nat.max (S nb) (S (length (round4 first :: rest)))), first, rest.
  split; [|split].
  - intros fuel' Hfuel. split.
    { eapply walk_back_mono; [|exact Hback]. lia. }
    unfold BuildGrid.
    replace (fltb max_x min_x) with false
      by (symmetry; apply fltb_false; assumption).
    fold first_0. rewrite (walk_back_mono self min_x (S nb) fuel' first_0 first);
      [|lia|exact Hback].
    fold limit.
    rewrite (walk_forward_mono self limit (S (length (round4 first :: rest))) fuel'
                               [] first (round4 first :: rest));
      [reflexivity|lia|].
    apply (stepped_walk_forward self limit (round4 first :: rest) [] first Hps).
  - rewrite this_fsub. exact Hub.
  - intros Hec. rewrite this_fsub, this_fmul, this_lit_2.
    assert (G : (this min_x - 2 * this (spacing self) < this first)%Q).
    { apply Hlb. unfold first_0. rewrite this_fadd. lra. }
    lra.
Qed.

Lemma StronglySorted_Qclt_NoDup (l : list Qc) : StronglySorted Qclt l -> NoDup l.
Proof.
  induction 1 as [|a l Hs IH Hall]; constructor; [|assumption].
  intros Hin. rewrite Forall_forall in Hall. apply Hall in Hin.
  unfold Qclt in Hin. revert Hin. apply Qlt_irrefl.
Qed.

Lemma BuildGrid_positions_stepped {F : Type} `{PyFloat F} (fuel : nat)
    (self : RafterFactory) (min_x max_x : F) (grid : RafterGrid) :
  BuildGrid fuel self min_x max_x = Returns grid ->
  exists first,
    walk_back fuel self min_x (fadd min_x (rafter_edge_clearance self)) = Some first
    /\ stepped self (fadd max_x (fmul (spacing self) (lit 2 0))) (positions grid) first.
Proof.
  unfold BuildGrid. destruct (fltb max_x min_x); [discriminate|].
  destruct (walk_back _ _ _ _) as [first|]; [|discriminate].
  destruct (walk_forward _ _ _ _ _) as [ps|] eqn:Ef; [|discriminate].
  intros E. injection E as <-. exists first. split; [reflexivity|].
  apply walk_forward_stepped in Ef. destruct Ef as (ps' & -> & Hps). exact Hps.
Qed.

End GridRuns.

(** ** Sorting under a total order *)

Section SortedOutput.
Context {A : Type} (lt : A -> A -> bool) (P : A -> Prop).
Hypothesis lt_asym : forall a b, P a -> P b -> lt a b = true -> lt b a = false.
Hypothesis le_trans :
  forall a b c, P a -> P b -> P c ->
                lt b a = false -> lt c b = false -> lt c a = false.

Lemma insort_sorted (a : A) (l : list A) :
  P a -> Forall P l ->
  StronglySorted (fun x y => lt y x = false) l ->
  StronglySorted (fun x y => lt y x = false) (insort lt a l).
Proof.
  intros Pa Pl Hsorted. revert Pl.
  induction Hsorted as [|b l Hs IH Hall]; intros Pl; cbn [insort].
  - repeat constructor.
  - inversion Pl as [|? ? Pb Pl']; subst.
    destruct (lt a b) eqn:Hab.
    + constructor; [now constructor|].
      constructor; [now apply lt_asym|].
      apply Forall_forall. intros c Hc.
      rewrite Forall_forall in Hall, Pl'.
      apply (le_trans a b c); auto.
    + constructor; [now apply IH|].
      apply Forall_forall. intros c Hc. apply insort_In in Hc.
      destruct Hc as [->|Hc]; [assumption|].
      rewrite Forall_forall in Hall. now apply Hall.
Qed.

Lemma sorted_StronglySorted (l : list A) :
  Forall P l -> StronglySorted (fun x y => lt y x = false) (sorted lt l).
Proof.
  unfold sorted.
  enough (G : Forall P l ->
              forall acc, Forall P acc ->
                          StronglySorted (fun x y => lt y x = false) acc ->
                          StronglySorted (fun x y => lt y x = false)
                            (fold_left (fun acc a => insort lt a acc) l acc))
    by (intros Pl; apply G; [assumption|constructor|constructor]).
  induction l as [|a l IH]; intros Pl acc Pacc Hacc; cbn [fold_left]; [assumption|].
  inversion Pl as [|? ? Pa Pl']; subst.
  apply IH; [assumption| |now apply insort_sorted].
  apply Forall_forall. intros b Hb. apply insort_In in Hb.
  destruct Hb as [->|Hb]; [assumption|].
  rewrite Forall_forall in Pacc. now apply Pacc.
Qed.

End SortedOutput.

(** The sort of a permutation, where [lt] is a total order on the elements
    that satisfy [P]. *)
Section SortPermuted.
Context {A : Type} (lt : A -> A -> bool) (P : A -> Prop).
Hypothesis lt_asym : forall a b, P a -> P b -> lt a b = true -> lt b a = false.
Hypothesis le_trans :
  forall a b c, P a -> P b -> P c ->
                lt b a = false -> lt c b = false -> lt c a = false.
Hypothesis lt_tricho :
  forall a b, P a -> P b -> lt a b = false -> lt b a = false -> a = b.

Lemma lt_trans (a b c : A) :
  P a -> P b -> P c -> lt a b = true -> lt b c = true -> lt a c = true.
Proof.
  intros Pa Pb Pc Hab Hbc. destruct (lt a c) eqn:Hac; [reflexivity|].
  apply (lt_asym a b Pa Pb) in Hab.
  rewrite (le_trans c a b Pc Pa Pb Hac Hab) in Hbc. discriminate Hbc.
Qed.

Lemma insort_comm (a b : A) (s : list A) :
  P a -> P b -> Forall P s ->
  insort lt a (insort lt b s) = insort lt b (insort lt a s).
Proof.
  intros Pa Pb.
  assert (Hbase : forall t,
             (if lt a b then a :: b :: t else b :: a :: t)
             = (if lt b a then b :: a :: t else a :: b :: t)).
  { intros t. destruct (lt a b) eqn:Hab, (lt b a) eqn:Hba; try reflexivity.
    - rewrite (lt_asym _ _ Pa Pb Hab) in Hba. discriminate Hba.
    - now rewrite (lt_tricho a b Pa Pb Hab Hba). }
  induction s as [|c s IH]; intros Ps; cbn [insort].
  - apply Hbase.
  - inversion Ps as [|? ? Pc Ps']; subst.
    destruct (lt b c) eqn:Hbc, (lt a c) eqn:Hac; cbn [insort];
      rewrite ?Hbc, ?Hac.
    + pose proof (Hbase (c :: s)) as Hb.
      destruct (lt a b), (lt b a); cbn [insort]; rewrite ?Hbc, ?Hac; exact Hb.
    + destruct (lt a b) eqn:Hab; [|reflexivity].
      rewrite (lt_trans _ _ _ Pa Pb Pc Hab Hbc) in Hac. discriminate Hac.
    + destruct (lt b a) eqn:Hba; [|reflexivity].
      rewrite (lt_trans _ _ _ Pb Pa Pc Hba Hac) in Hbc. discriminate Hbc.
    + now rewrite (IH Ps').
Qed.

Lemma insort_Forall (a : A) (l : list A) :
  P a -> Forall P l -> Forall P (insort lt a l).
Proof.
  intros Pa Pl. apply Forall_forall. intros b Hb. apply insort_In in Hb.
  destruct Hb as [->|Hb]; [assumption|].
  rewrite Forall_forall in Pl. now apply Pl.
Qed.

Lemma sorted_perm (l l' : list A) :
  Permutation l l' -> Forall P l -> sorted lt l = sorted lt l'.
Proof.
  unfold sorted. intros Hperm.
  enough (G : Forall P l -> forall acc, Forall P acc ->
             fold_left (fun acc a => insort lt a acc) l acc
             = fold_left (fun acc a => insort lt a acc) l' acc)
    by (intros HP; apply G; [assumption|constructor]).
  induction Hperm as [|x l l' Hperm IH|x y l|l l' l'' H1 IH1 H2 IH2];
    intros HP acc Hacc; cbn [fold_left].
  - reflexivity.
  - inversion HP as [|? ? Px HP']; subst.
    apply IH; [assumption|now apply insort_Forall].
  - inversion HP as [|? ? Py HP']; subst. inversion HP' as [|? ? Px _]; subst.
    now rewrite (insort_comm x y acc Px Py Hacc).
  - rewrite (IH1 HP acc Hacc). apply IH2; [|assumption].
    eapply Permutation_Forall; eassumption.
Qed.

End SortPermuted.

(** ** The [(y, x)] order at the [exact] instance *)

Module OrderFacts.
Import ExactFacts.
Open Scope Q_scope.

Lemma feqb_true (a b : Qc) : feqb a b = true <-> this a == this b.
Proof.
  change (feqb a b) with (Qc_eq_bool a b). split.
  - intros E. apply Qc_eq_bool_correct in E. now rewrite E.
  - intros E. apply Qc_is_canon in E. subst b. unfold Qc_eq_bool.
    destruct (Qc_eq_dec a a); [reflexivity|congruence].
Qed.

Lemma tuple_lt_true (a1 a2 b1 b2 : Qc) :
  tuple_lt (a1, a2) (b1, b2) = true
  <-> this a1 < this b1 \/ (this a1 == this b1 /\ this a2 < this b2).
Proof.
  unfold tuple_lt. cbn [fst snd].
  destruct (feqb a1 b1) eqn:E1; cbn [negb].
  - apply feqb_true in E1.
    destruct (feqb a2 b2) eqn:E2; cbn [negb].
    + apply feqb_true in E2. split; [discriminate|]. intros [?|[_ ?]]; lra.
    + rewrite fltb_true. split; [auto|]. intros [?|[_ ?]]; [lra|assumption].
  - rewrite fltb_true. split; [auto|].
    intros [?|[E ?]]; [assumption|].
    apply feqb_true in E. congruence.
Qed.

Lemma tuple_lt_false (a1 a2 b1 b2 : Qc) :
  tuple_lt (a1, a2) (b1, b2) = false
  <-> this b1 < this a1 \/ (this a1 == this b1 /\ this b2 <= this a2).
Proof.
  rewrite <- Bool.not_true_iff_false, tuple_lt_true. split.
  - intros Hn.
    destruct (Qlt_le_dec (this b1) (this a1)) as [?|Hle]; [auto|].
    destruct (Qlt_le_dec (this a1) (this b1)) as [?|Hge]; [tauto|].
    right. split; [lra|].
    destruct (Qlt_le_dec (this a2) (this b2)) as [?|?]; [|assumption].
    exfalso. apply Hn. right. split; [lra|assumption].
  - intros [?|[? ?]] [?|[? ?]]; lra.
Qed.

Lemma exact_panel_lt_asym (a b : Panel (F := Qc)) :
  panel_lt a b = true -> panel_lt b a = false.
Proof.
  unfold panel_lt. rewrite tuple_lt_true, tuple_lt_false.
  intros [?|[? ?]]; [left; assumption|right; split; lra].
Qed.

Lemma exact_panel_le_trans (a b c : Panel (F := Qc)) :
  panel_lt b a = false -> panel_lt c b = false -> panel_lt c a = false.
Proof.
  unfold panel_lt. rewrite !tuple_lt_false.
  intros [?|[? ?]] [?|[? ?]]; [left; lra|left; lra|left; lra|right; split; lra].
Qed.

(** Panels of one size that are equal in the [(y, x)] order are equal. *)
Lemma exact_panel_lt_tricho (w h : Qc) (a b : Panel (F := Qc)) :
  (width a = w /\ height a = h) -> (width b = w /\ height b = h) ->
  panel_lt a b = false -> panel_lt b a = false -> a = b.
Proof.
  unfold panel_lt. rewrite !tuple_lt_false.
  destruct a as [ax ay aw ah], b as [bx by_ bw bh]. cbn.
  intros [-> ->] [-> ->] Hab Hba.
  assert (Ey : this ay == this by_) by (destruct Hab as [?|[? ?]], Hba as [?|[? ?]]; lra).
  assert (Ex : this ax == this bx) by (destruct Hab as [?|[? ?]], Hba as [?|[? ?]]; lra).
  apply Qc_is_canon in Ey, Ex. now subst.
Qed.

End OrderFacts.

(** ** The [(y, x)] order at the [binary64] instance *)

Module Binary64OrderFacts.
Import Binary64Order.

Lemma key_compare_spec (a b : Z * Z * Z) :
  CompareSpec (a = b) (key_lt a b) (key_lt b a) (key_compare a b).
Proof.
  destruct a as [[a1 a2] a3], b as [[b1 b2] b3]. unfold key_compare, key_lt.
  destruct (Z.compare_spec a1 b1); [|constructor; lia..].
  destruct (Z.compare_spec a2 b2); [|constructor; lia..].
  destruct (Z.compare_spec a3 b3); constructor; [congruence|lia..].
Qed.

Lemma SFcompare_key (x y : spec_float) :
  x <> S754_nan -> y <> S754_nan ->
  SFcompare x y = Some (key_compare (sf_key x) (sf_key y)).
Proof.
  intros Hx Hy.
  destruct x as [sx|sx| |sx mx ex], y as [sy|sy| |sy my ey]; try congruence;
    cbn [SFcompare sf_key]; try (destruct sx; reflexivity);
    try (destruct sy; reflexivity); try (destruct sx, sy; reflexivity).
  destruct sx, sy; try reflexivity. unfold key_compare.
  change (-1 ?= -1)%Z with Eq. rewrite Z.compare_opp, (Z.compare_antisym ex ey).
  destruct (ex ?= ey)%Z; reflexivity.
Qed.

Lemma ordinary_not_nan (v : float) : ordinary v = true -> Prim2SF v <> S754_nan.
Proof. unfold ordinary. destruct (Prim2SF v); congruence. Qed.

Lemma ltb_key (x y : float) :
  ordinary x = true -> ordinary y = true ->
  (PrimFloat.ltb x y = true <-> key_lt (fkey x) (fkey y)).
Proof.
  intros Hx Hy. apply ordinary_not_nan in Hx, Hy.
  rewrite FloatAxioms.ltb_spec. unfold SFltb. rewrite (SFcompare_key _ _ Hx Hy).
  fold (fkey x) (fkey y).
  destruct (key_compare_spec (fkey x) (fkey y)) as [E|L|G].
  - rewrite E. split; [discriminate|]. destruct (fkey y) as [[? ?] ?]. cbn. lia.
  - tauto.
  - split; [discriminate|]. destruct (fkey x) as [[? ?] ?], (fkey y) as [[? ?] ?].
    cbn in *. lia.
Qed.

Lemma eqb_key (x y : float) :
  ordinary x = true -> ordinary y = true ->
  (PrimFloat.eqb x y = true <-> fkey x = fkey y).
Proof.
  intros Hx Hy. apply ordinary_not_nan in Hx, Hy.
  rewrite FloatAxioms.eqb_spec. unfold SFeqb. rewrite (SFcompare_key _ _ Hx Hy).
  fold (fkey x) (fkey y).
  destruct (key_compare_spec (fkey x) (fkey y)) as [E|L|G].
  - tauto.
  - split; [discriminate|]. intros E. rewrite E in L.
    destruct (fkey y) as [[? ?] ?]. cbn in L. lia.
  - split; [discriminate|]. intros E. rewrite E in G.
    destruct (fkey y) as [[? ?] ?]. cbn in G. lia.
Qed.

Lemma fkey_inj (x y : float) :
  ordinary x = true -> ordinary y = true -> fkey x = fkey y -> x = y.
Proof.
  unfold ordinary, fkey. intros Hx Hy E.
  rewrite <- (SF2Prim_Prim2SF x), <- (SF2Prim_Prim2SF y). f_equal.
  destruct (Prim2SF x) as [sx|sx| |sx mx ex], (Prim2SF y) as [sy|sy| |sy my ey];
    try discriminate; cbn [sf_key] in E.
  - destruct sx, sy; try discriminate; reflexivity.
  - destruct sy; discriminate.
  - destruct sy; discriminate.
  - destruct sx; discriminate.
  - destruct sx, sy; try discriminate; reflexivity.
  - destruct sx, sy; discriminate.
  - destruct sx; discriminate.
  - destruct sx, sy; discriminate.
  - destruct sx, sy; injection E as E1 E2; try discriminate.
    + f_equal; [lia|lia].
    + f_equal; [lia|lia].
Qed.

Lemma triple_eq (a1 a2 a3 b1 b2 b3 : Z) :
  (a1, a2, a3) = (b1, b2, b3) <-> a1 = b1 /\ a2 = b2 /\ a3 = b3.
Proof. split; [intros E; injection E; auto|intros (-> & -> & ->); reflexivity]. Qed.

Lemma tuple_lt_key (a1 a2 b1 b2 : float) :
  ordinary a1 = true -> ordinary a2 = true ->
  ordinary b1 = true -> ordinary b2 = true ->
  (tuple_lt (a1, a2) (b1, b2) = true
   <-> key_lt (fkey a1) (fkey b1)
       \/ (fkey a1 = fkey b1 /\ key_lt (fkey a2) (fkey b2))).
Proof.
  intros Ha1 Ha2 Hb1 Hb2. unfold tuple_lt. cbn [fst snd].
  change (feqb a1 b1) with (PrimFloat.eqb a1 b1).
  change (feqb a2 b2) with (PrimFloat.eqb a2 b2).
  change (fltb a1 b1) with (PrimFloat.ltb a1 b1).
  change (fltb a2 b2) with (PrimFloat.ltb a2 b2).
  pose proof (eqb_key a1 b1 Ha1 Hb1) as E1. pose proof (eqb_key a2 b2 Ha2 Hb2) as E2.
  pose proof (ltb_key a1 b1 Ha1 Hb1) as L1. pose proof (ltb_key a2 b2 Ha2 Hb2) as L2.
  destruct (fkey a1) as [[p1 p2] p3], (fkey b1) as [[q1 q2] q3],
           (fkey a2) as [[r1 r2] r3], (fkey b2) as [[t1 t2] t3].
  rewrite triple_eq in *. cbn [key_lt] in *.
  destruct (PrimFloat.eqb a1 b1), (PrimFloat.eqb a2 b2),
           (PrimFloat.ltb a1 b1), (PrimFloat.ltb a2 b2); cbn [negb];
    intuition (try discriminate; try lia).
Qed.

Ltac panel_keys :=
  repeat match goal with
         | H : ordinary_panel _ _ _ |- _ =>
             let Hx := fresh "Hx" in let Hy := fresh "Hy" in
             let Hw := fresh "Hw" in let Hh := fresh "Hh" in
             destruct H as (Hx & Hy & Hw & Hh)
         end.

Lemma panel_lt_key (w h : float) (a b : Panel (F := float)) :
  ordinary_panel w h a -> ordinary_panel w h b ->
  (panel_lt a b = true
   <-> key_lt (fkey (panel_y a)) (fkey (panel_y b))
       \/ (fkey (panel_y a) = fkey (panel_y b)
           /\ key_lt (fkey (panel_x a)) (fkey (panel_x b)))).
Proof.
  intros Pa Pb. panel_keys. unfold panel_lt. now apply tuple_lt_key.
Qed.

Ltac key_arith :=
  repeat match goal with
         | |- context [fkey ?v] =>
             let k := fresh "k" in
             generalize (fkey v); intros [[? ?] ?]
         end;
  cbn [key_lt]; rewrite ?triple_eq; intros; lia.

Lemma binary64_panel_lt_asym (w h : float) (a b : Panel (F := float)) :
  ordinary_panel w h a -> ordinary_panel w h b ->
  panel_lt a b = true -> panel_lt b a = false.
Proof.
  intros Pa Pb. rewrite <- Bool.not_true_iff_false.
  rewrite (panel_lt_key w h a b Pa Pb), (panel_lt_key w h b a Pb Pa).
  key_arith.
Qed.

Lemma binary64_panel_le_trans (w h : float) (a b c : Panel (F := float)) :
  ordinary_panel w h a -> ordinary_panel w h b -> ordinary_panel w h c ->
  panel_lt b a = false -> panel_lt c b = false -> panel_lt c a = false.
Proof.
  intros Pa Pb Pc. rewrite <- !Bool.not_true_iff_false.
  rewrite (panel_lt_key w h b a Pb Pa), (panel_lt_key w h c b Pc Pb),
          (panel_lt_key w h c a Pc Pa).
  key_arith.
Qed.

Lemma binary64_panel_lt_tricho (w h : float) (a b : Panel (F := float)) :
  ordinary_panel w h a -> ordinary_panel w h b ->
  panel_lt a b = false -> panel_lt b a = false -> a = b.
Proof.
  intros Pa Pb. rewrite <- !Bool.not_true_iff_false.
  rewrite (panel_lt_key w h a b Pa Pb), (panel_lt_key w h b a Pb Pa).
  intros Hab Hba.
  assert (Ey : fkey (panel_y a) = fkey (panel_y b)).
  { revert Hab Hba. generalize (fkey (panel_y a)) (fkey (panel_y b))
      (fkey (panel_x a)) (fkey (panel_x b)).
    intros [[? ?] ?] [[? ?] ?] [[? ?] ?] [[? ?] ?].
    cbn [key_lt]. rewrite ?triple_eq. lia. }
  assert (Ex : fkey (panel_x a) = fkey (panel_x b)).
  { revert Hab Hba. generalize (fkey (panel_y a)) (fkey (panel_y b))
      (fkey (panel_x a)) (fkey (panel_x b)).
    intros [[? ?] ?] [[? ?] ?] [[? ?] ?] [[? ?] ?].
    cbn [key_lt]. rewrite ?triple_eq. lia. }
  destruct Pa as (Hxa & Hya & Hwa & Hha), Pb as (Hxb & Hyb & Hwb & Hhb).
  apply fkey_inj in Ey, Ex; try assumption.
  destruct a, b. cbn in *. congruence.
Qed.

End Binary64OrderFacts.

(** ** Exact arithmetic on doubles of few bits

    Sums, differences, products and quotients of doubles whose result has
    at most 53 bits are not rounded.  The lemmas follow the specification
    of the operations ([SpecFloat]) through [binary_round_aux]. *)

Module Binary64DyadicFacts.
Import Binary64Dyadic.
Local Open Scope Z_scope.

Lemma digits2_size (p : positive) : digits2_pos p = Pos.size p.
Proof. induction p as [p IH|p IH|]; cbn; now rewrite ?IH. Qed.

Lemma digits2_log2 (p : positive) : Zpos (digits2_pos p) = Z.log2 (Zpos p) + 1.
Proof.
  rewrite digits2_size. destruct p as [p|p|]; cbn [Z.log2 Pos.size]; lia.
Qed.

Lemma iter_pos_nat {A : Type} (f : A -> A) (p : positive) :
  forall x, SpecFloat.iter_pos f p x = Nat.iter (Pos.to_nat p) f x.
Proof.
  induction p as [p IH|p IH|]; intros x; cbn [SpecFloat.iter_pos].
  - rewrite !IH, Pos2Nat.inj_xI.
    replace (S (2 * Pos.to_nat p)) with (Pos.to_nat p + (Pos.to_nat p + 1))%nat by lia.
    rewrite !Nat.iter_add. reflexivity.
  - rewrite !IH, Pos2Nat.inj_xO.
    replace (2 * Pos.to_nat p)%nat with (Pos.to_nat p + Pos.to_nat p)%nat by lia.
    rewrite Nat.iter_add. reflexivity.
  - reflexivity.
Qed.

Lemma shr_1_double (m : Z) :
  0 < m ->
  shr_1 {| shr_m := 2 * m; shr_r := false; shr_s := false |}
  = {| shr_m := m; shr_r := false; shr_s := false |}.
Proof. destruct m; try lia. reflexivity. Qed.

Lemma shr_exact (k : nat) :
  forall m, 0 < m ->
    Nat.iter k shr_1
      {| shr_m := m * 2 ^ Z.of_nat k; shr_r := false; shr_s := false |}
    = {| shr_m := m; shr_r := false; shr_s := false |}.
Proof.
  induction k as [|k IH]; intros m Hm.
  - cbn [Nat.iter]. now rewrite Z.mul_1_r.
  - rewrite Nat.iter_succ_r.
    replace (m * 2 ^ Z.of_nat (S k)) with (2 * (m * 2 ^ Z.of_nat k))
      by (rewrite Nat2Z.inj_succ, Z.pow_succ_r; lia).
    rewrite shr_1_double by (apply Z.mul_pos_pos; [exact Hm|apply Z.pow_pos_nonneg; lia]).
    now apply IH.
Qed.

Lemma shr_shift (m e n : Z) :
  0 < m -> 0 <= n ->
  shr {| shr_m := m * 2 ^ n; shr_r := false; shr_s := false |} e n
  = ({| shr_m := m; shr_r := false; shr_s := false |}, e + n).
Proof.
  intros Hm Hn. unfold shr. destruct n as [|p|p]; [|  |lia].
  - now rewrite Z.mul_1_r, Z.add_0_r.
  - rewrite iter_pos_nat. rewrite <- (positive_nat_Z p) at 1.
    now rewrite shr_exact.
Qed.

Lemma Zdigits2_log2 (m : Z) : 0 < m -> Zdigits2 m = Z.log2 m + 1.
Proof. destruct m as [|p|p]; try lia. intros _. apply digits2_log2. Qed.

Lemma log2_shift (c j : Z) : 0 < c -> 0 <= j -> Z.log2 (c * 2 ^ j) = j + Z.log2 c.
Proof. intros Hc Hj. now apply Z.log2_mul_pow2. Qed.

(** Rounding a value that has at most 53 bits changes nothing: a mantissa
    [c * 2^j] at exponent [E] comes out as [c] shifted to 53 bits. *)
Lemma binary_round_aux_exact (s : bool) (c j E : Z) :
  0 < c ->
  53 - (Z.log2 c + 1) <= j -> 0 <= 53 - (Z.log2 c + 1) ->
  -1074 <= E + j - (53 - (Z.log2 c + 1)) <= 971 ->
  binary_round_aux prec emax s (c * 2 ^ j) E loc_Exact
  = S754_finite s (Z.to_pos (c * 2 ^ (53 - (Z.log2 c + 1))))
                (E + j - (53 - (Z.log2 c + 1))).
Proof.
  intros Hc Hj Hd He.
  set (k := 53 - (Z.log2 c + 1)) in *.
  set (n := j - k).
  assert (Hn : 0 <= n) by (unfold n; lia).
  assert (Hm : 0 < c * 2 ^ k)
    by (apply Z.mul_pos_pos; [exact Hc|apply Z.pow_pos_nonneg; lia]).
  assert (Hsplit : c * 2 ^ j = (c * 2 ^ k) * 2 ^ n).
  { unfold n. rewrite <- Z.mul_assoc, <- Z.pow_add_r by lia. f_equal. f_equal. lia. }
  assert (Hlog : Z.log2 (c * 2 ^ k) = 52).
  { rewrite log2_shift by lia. unfold k. lia. }
  unfold binary_round_aux, shr_fexp.
  rewrite Zdigits2_log2
    by (rewrite Hsplit; apply Z.mul_pos_pos;
        [exact Hm|apply Z.pow_pos_nonneg; lia]).
  rewrite (log2_shift c j) by lia.
  unfold fexp, emin. change prec with 53. change emax with 1024.
  replace (Z.max (j + Z.log2 c + 1 + E - 53) (3 - 1024 - 53) - E) with n
    by (unfold n, k; lia).
  cbn [shr_record_of_loc]. rewrite Hsplit, shr_shift by assumption.
  cbn [shr_m loc_of_shr_record round_nearest_even].
  rewrite Zdigits2_log2 by exact Hm. rewrite Hlog.
  replace (Z.max (52 + 1 + (E + n) - 53) (3 - 1024 - 53) - (E + n)) with 0
    by (unfold n; lia).
  cbn [shr shr_m].
  destruct (c * 2 ^ k) as [|p|p] eqn:Ep; try lia.
  replace (E + n <=? 1024 - 53) with true by (symmetry; apply Z.leb_le; unfold n; lia).
  cbn [Z.to_pos]. f_equal. unfold n. lia.
Qed.

Lemma iter_xO (d : positive) (m : positive) :
  Zpos (Pos.iter xO m d) = Zpos m * 2 ^ Zpos d.
Proof.
  induction d as [|d IH] using Pos.peano_ind.
  - cbn [Pos.iter]. lia.
  - rewrite Pos.iter_succ, Pos2Z.inj_xO, IH, Pos2Z.inj_succ, Z.pow_succ_r by lia. lia.
Qed.

Lemma shl_align_fst (mx : positive) (ex ez : Z) :
  ez <= ex -> Zpos (fst (shl_align mx ex ez)) = Zpos mx * 2 ^ (ex - ez).
Proof.
  intros Hle. unfold shl_align.
  destruct (ez - ex) as [|d|d] eqn:Ed; cbn [fst]; try lia.
  - replace (ex - ez) with 0 by lia. lia.
  - rewrite iter_xO. f_equal. f_equal. lia.
Qed.

Lemma shl_align_snd (mx : positive) (ex ez : Z) :
  ez <= ex -> snd (shl_align mx ex ez) = ez.
Proof.
  intros Hle. unfold shl_align.
  destruct (ez - ex) as [|d|d] eqn:Ed; cbn [snd]; lia.
Qed.

Lemma shl_align_keep (mx : positive) (ex ez : Z) :
  ex <= ez -> shl_align mx ex ez = (mx, ex).
Proof.
  intros Hle. unfold shl_align.
  destruct (ez - ex) as [|d|d] eqn:Ed; try reflexivity. lia.
Qed.

(** [binary_round] of [c * 2^j] at exponent [ex], for [c] below [2^53]. *)
Lemma binary_round_exact (s : bool) (mx : positive) (ex c j : Z) :
  Zpos mx = c * 2 ^ j -> 0 < c -> 0 <= j ->
  0 <= 53 - (Z.log2 c + 1) ->
  -1074 <= ex + j - (53 - (Z.log2 c + 1)) <= 971 ->
  binary_round prec emax s mx ex
  = S754_finite s (Z.to_pos (c * 2 ^ (53 - (Z.log2 c + 1))))
                (ex + j - (53 - (Z.log2 c + 1))).
Proof.
  intros Hmx Hc Hj Hd He.
  set (k := 53 - (Z.log2 c + 1)) in *.
  unfold binary_round. rewrite digits2_log2, Hmx, log2_shift by lia.
  unfold fexp, emin. change prec with 53. change emax with 1024.
  replace (Z.max (j + Z.log2 c + 1 + ex - 53) (3 - 1024 - 53)) with (ex + j - k)
    by (unfold k; lia).
  destruct (Z_lt_le_dec (ex + j - k) ex) as [Hlt|Hge].
  - destruct (shl_align mx ex (ex + j - k)) as [mz ez] eqn:Ea.
    pose proof (shl_align_fst mx ex (ex + j - k) ltac:(lia)) as Hf.
    pose proof (shl_align_snd mx ex (ex + j - k) ltac:(lia)) as Hs.
    rewrite Ea in Hf, Hs. cbn [fst snd] in Hf, Hs. subst ez.
    assert (Hmz : Zpos mz = c * 2 ^ k).
    { rewrite Hf, Hmx, <- Z.mul_assoc, <- Z.pow_add_r by lia. f_equal. f_equal. lia. }
    rewrite Hmz. change (binary_round_aux 53 1024) with (binary_round_aux prec emax).
    rewrite (binary_round_aux_exact s c k (ex + j - k)) by (fold k; lia).
    fold k. f_equal. lia.
  - rewrite shl_align_keep by lia. rewrite Hmx.
    change (binary_round_aux 53 1024) with (binary_round_aux prec emax).
    now rewrite (binary_round_aux_exact s c j ex) by (fold k; lia).
Qed.


Lemma dyadic_nonzero (u a : Z) :
  a <> 0 ->
  dyadic u a = S754_finite (sign a) (Z.to_pos (Z.abs a * 2 ^ slack a)) (u - slack a).
Proof. intros Ha. destruct a as [|p|p]; [congruence|reflexivity|reflexivity]. Qed.

Lemma slack_bounds (a : Z) : a <> 0 -> Z.abs a < 2 ^ 53 -> 0 <= slack a <= 52.
Proof.
  intros Ha Hb. unfold slack.
  assert (0 <= Z.log2 (Z.abs a)) by apply Z.log2_nonneg.
  assert (Z.log2 (Z.abs a) < 53) by (apply Z.log2_lt_pow2; lia).
  lia.
Qed.

Lemma binary_normalize_exact (u m e a : Z) :
  m = a * 2 ^ (u - e) -> e <= u -> -64 <= u <= 64 -> -1000 <= e ->
  a <> 0 -> Z.abs a < 2 ^ 53 ->
  binary_normalize prec emax m e false = dyadic u a.
Proof.
  intros Hm He Hu He' Ha Hb. pose proof (slack_bounds a Ha Hb) as Hs.
  assert (Hpow : 0 < 2 ^ (u - e)) by (apply Z.pow_pos_nonneg; lia).
  rewrite dyadic_nonzero by exact Ha. unfold binary_normalize.
  destruct m as [|p|p].
  - exfalso. symmetry in Hm. apply Z.mul_eq_0 in Hm. lia.
  - assert (Hpos : 0 < a) by nia.
    unfold slack in *. rewrite (Z.abs_eq a) in * by lia.
    rewrite (binary_round_exact false p e a (u - e)) by lia.
    unfold sign. replace (a <? 0) with false by (symmetry; apply Z.ltb_ge; lia).
    f_equal. lia.
  - assert (Hneg : a < 0) by nia.
    unfold slack in *. rewrite (Z.abs_neq a) in * by lia.
    rewrite (binary_round_exact true p e (- a) (u - e)) by lia.
    unfold sign. replace (a <? 0) with true by (symmetry; apply Z.ltb_lt; lia).
    f_equal. lia.
Qed.

Lemma cond_Zopp_sign (a k : Z) :
  0 <= k -> a <> 0 ->
  cond_Zopp (sign a) (Z.abs a * 2 ^ k) = a * 2 ^ k.
Proof.
  intros Hk Ha. unfold sign, cond_Zopp.
  destruct (a <? 0) eqn:E; [apply Z.ltb_lt in E|apply Z.ltb_ge in E].
  - rewrite Z.abs_neq by lia. lia.
  - rewrite Z.abs_eq by lia. lia.
Qed.

Lemma to_pos_abs (a k : Z) :
  0 <= k -> a <> 0 -> Zpos (Z.to_pos (Z.abs a * 2 ^ k)) = Z.abs a * 2 ^ k.
Proof.
  intros Hk Ha. apply Z2Pos.id. apply Z.mul_pos_pos; [lia|].
  apply Z.pow_pos_nonneg; lia.
Qed.

(** The mantissas of two values at their common exponent. *)
Lemma aligned (u a ez : Z) :
  a <> 0 -> Z.abs a < 2 ^ 53 -> ez <= u - slack a ->
  cond_Zopp (sign a)
    (Zpos (fst (shl_align (Z.to_pos (Z.abs a * 2 ^ slack a)) (u - slack a) ez)))
  = a * 2 ^ (u - ez).
Proof.
  intros Ha Hb Hez. pose proof (slack_bounds a Ha Hb) as Hs.
  rewrite shl_align_fst by exact Hez. rewrite to_pos_abs by lia.
  rewrite <- Z.mul_assoc, <- Z.pow_add_r by lia.
  replace (slack a + (u - slack a - ez)) with (u - ez) by lia.
  apply cond_Zopp_sign; lia.
Qed.

Lemma SFadd_dyadic (u a b : Z) :
  -64 <= u <= 64 ->
  Z.abs a < 2 ^ 53 -> Z.abs b < 2 ^ 53 -> Z.abs (a + b) < 2 ^ 53 ->
  SFadd prec emax (dyadic u a) (dyadic u b) = dyadic u (a + b).
Proof.
  intros Hu Ha Hb Hab.
  destruct (Z.eq_dec a 0) as [->|Na].
  { destruct b as [|p|p]; reflexivity. }
  destruct (Z.eq_dec b 0) as [->|Nb].
  { rewrite Z.add_0_r. destruct a as [|p|p]; reflexivity. }
  pose proof (slack_bounds a Na Ha) as Hsa. pose proof (slack_bounds b Nb Hb) as Hsb.
  rewrite (dyadic_nonzero u a Na), (dyadic_nonzero u b Nb). unfold SFadd.
  set (ez := Z.min (u - slack a) (u - slack b)).
  rewrite (aligned u a ez Na Ha) by (unfold ez; lia).
  rewrite (aligned u b ez Nb Hb) by (unfold ez; lia).
  destruct (Z.eq_dec (a + b) 0) as [Z0|Nab].
  - rewrite <- Z.mul_add_distr_r, Z0. reflexivity.
  - apply (binary_normalize_exact u); try assumption; unfold ez; lia.
Qed.

Lemma SFsub_dyadic (u a b : Z) :
  -64 <= u <= 64 ->
  Z.abs a < 2 ^ 53 -> Z.abs b < 2 ^ 53 -> Z.abs (a - b) < 2 ^ 53 ->
  SFsub prec emax (dyadic u a) (dyadic u b) = dyadic u (a - b).
Proof.
  intros Hu Ha Hb Hab.
  destruct (Z.eq_dec b 0) as [->|Nb].
  { rewrite Z.sub_0_r. destruct a as [|p|p]; reflexivity. }
  destruct (Z.eq_dec a 0) as [->|Na].
  { destruct b as [|p|p]; [congruence|reflexivity|reflexivity]. }
  pose proof (slack_bounds a Na Ha) as Hsa. pose proof (slack_bounds b Nb Hb) as Hsb.
  rewrite (dyadic_nonzero u a Na), (dyadic_nonzero u b Nb). unfold SFsub.
  set (ez := Z.min (u - slack a) (u - slack b)).
  rewrite (aligned u a ez Na Ha) by (unfold ez; lia).
  rewrite (aligned u b ez Nb Hb) by (unfold ez; lia).
  destruct (Z.eq_dec (a - b) 0) as [Z0|Nab].
  - rewrite <- Z.mul_sub_distr_r, Z0. reflexivity.
  - apply (binary_normalize_exact u); try assumption; unfold ez; lia.
Qed.

Lemma sign_mul (a b : Z) :
  a <> 0 -> b <> 0 -> xorb (sign a) (sign b) = sign (a * b).
Proof.
  intros Ha Hb. unfold sign.
  destruct (a <? 0) eqn:Ea, (b <? 0) eqn:Eb, (a * b <? 0) eqn:Eab;
    try reflexivity; exfalso;
    rewrite ?Z.ltb_lt, ?Z.ltb_ge in *; nia.
Qed.

Lemma SFmul_dyadic (u v a b : Z) :
  -64 <= u <= 64 -> -64 <= v <= 64 ->
  a <> 0 -> b <> 0 -> Z.abs (a * b) < 2 ^ 53 ->
  SFmul prec emax (dyadic u a) (dyadic v b) = dyadic (u + v) (a * b).
Proof.
  intros Hu Hv Na Nb Hab.
  assert (Ha : Z.abs a < 2 ^ 53) by (rewrite Z.abs_mul in Hab; nia).
  assert (Hb : Z.abs b < 2 ^ 53) by (rewrite Z.abs_mul in Hab; nia).
  assert (Nab : a * b <> 0) by nia.
  pose proof (slack_bounds a Na Ha) as Hsa. pose proof (slack_bounds b Nb Hb) as Hsb.
  pose proof (slack_bounds (a * b) Nab Hab) as Hsab.
  rewrite (dyadic_nonzero u a Na), (dyadic_nonzero v b Nb), (dyadic_nonzero _ _ Nab).
  unfold SFmul. rewrite Pos2Z.inj_mul, !to_pos_abs by lia.
  replace (Z.abs a * 2 ^ slack a * (Z.abs b * 2 ^ slack b))
    with (Z.abs (a * b) * 2 ^ (slack a + slack b))
    by (rewrite Z.abs_mul, Z.pow_add_r by lia; ring).
  rewrite sign_mul by assumption.
  assert (Hlog : Z.log2 (Z.abs a) + Z.log2 (Z.abs b) <= Z.log2 (Z.abs (a * b))).
  { rewrite Z.abs_mul. apply Z.log2_mul_below; lia. }
  rewrite (binary_round_aux_exact (sign (a * b)) (Z.abs (a * b)) (slack a + slack b)
             (u - slack a + (v - slack b))); unfold slack in *; try lia.
  f_equal. lia.
Qed.

Lemma log2_lt_cancel (a b : Z) : 0 < a -> Z.log2 a < Z.log2 b -> a < b.
Proof.
  intros Ha Hlt.
  destruct (Z_lt_le_dec a b) as [H|H]; [exact H|].
  apply Z.log2_le_mono in H. lia.
Qed.

Lemma compare_positive (u a b : Z) :
  0 < a -> 0 < b -> a < 2 ^ 53 -> b < 2 ^ 53 ->
  match u - slack a ?= u - slack b with
  | Lt => Lt
  | Gt => Gt
  | Eq => Pos.compare_cont Eq (Z.to_pos (Z.abs a * 2 ^ slack a))
                              (Z.to_pos (Z.abs b * 2 ^ slack b))
  end = (a ?= b).
Proof.
  intros Ha Hb Ha' Hb'. unfold slack. rewrite !Z.abs_eq by lia.
  destruct (Z.compare_spec (u - (53 - (Z.log2 a + 1))) (u - (53 - (Z.log2 b + 1))))
    as [He|He|He].
  - assert (Hl : Z.log2 a = Z.log2 b) by lia. rewrite Hl.
    assert (Hs : 0 <= 53 - (Z.log2 b + 1)).
    { assert (Z.log2 b < 53) by (apply Z.log2_lt_pow2; lia). lia. }
    assert (Hp : 0 < 2 ^ (53 - (Z.log2 b + 1))) by (apply Z.pow_pos_nonneg; lia).
    change (Pos.compare_cont Eq ?x ?y) with (Pos.compare x y).
    rewrite Pos2Z.inj_compare, !Z2Pos.id by (apply Z.mul_pos_pos; lia).
    destruct (Z.compare_spec a b) as [E|E|E].
    + subst. apply Z.compare_refl.
    + apply Z.compare_lt_iff. nia.
    + apply Z.compare_gt_iff. nia.
  - symmetry. apply Z.compare_lt_iff. apply log2_lt_cancel; lia.
  - symmetry. apply Z.compare_gt_iff. apply log2_lt_cancel; lia.
Qed.

Lemma SFcompare_dyadic (u a b : Z) :
  Z.abs a < 2 ^ 53 -> Z.abs b < 2 ^ 53 ->
  SFcompare (dyadic u a) (dyadic u b) = Some (a ?= b).
Proof.
  intros Ha Hb.
  destruct (Z.eq_dec a 0) as [->|Na]; [destruct b as [|p|p]; reflexivity|].
  destruct (Z.eq_dec b 0) as [->|Nb]; [destruct a as [|p|p]; reflexivity|].
  rewrite (dyadic_nonzero u a Na), (dyadic_nonzero u b Nb). unfold SFcompare, sign.
  destruct (a <? 0) eqn:Ea, (b <? 0) eqn:Eb;
    rewrite ?Z.ltb_lt, ?Z.ltb_ge in *; f_equal.
  - pose proof (compare_positive u (- b) (- a)) as Hc.
    unfold slack in *. rewrite !Z.abs_opp in Hc.
    specialize (Hc ltac:(lia) ltac:(lia) ltac:(lia) ltac:(lia)).
    rewrite (Z.compare_opp b a) in Hc. rewrite <- Hc. clear Hc.
    rewrite (Z.compare_antisym (u - (53 - (Z.log2 (Z.abs a) + 1)))
                               (u - (53 - (Z.log2 (Z.abs b) + 1)))).
    destruct (u - (53 - (Z.log2 (Z.abs a) + 1)) ?= u - (53 - (Z.log2 (Z.abs b) + 1)));
      cbn [CompOpp]; try reflexivity.
    symmetry. apply Pos.compare_antisym.
  - symmetry. apply Z.compare_lt_iff. lia.
  - symmetry. apply Z.compare_gt_iff. lia.
  - apply (compare_positive u); lia.
Qed.

(** A quotient that has at most 53 bits is exact: [n * 2^k = c * d]. *)
Lemma SFdiv_exact (s : bool) (u v k n d c : Z) :
  -64 <= u <= 64 -> -64 <= v <= 64 -> 0 <= k <= 64 ->
  0 < n -> 0 < d -> 0 < c -> n < 2 ^ 53 -> d < 2 ^ 53 -> c < 2 ^ 53 ->
  n * 2 ^ k = c * d ->
  SFdiv prec emax
    (S754_finite s (Z.to_pos (n * 2 ^ slack n)) (u - slack n)) (dyadic v d)
  = S754_finite s (Z.to_pos (c * 2 ^ slack c)) (u - v - k - slack c).
Proof.
  intros Hu Hv Hk Hn Hd Hc Bn Bd Bc Hnk.
  assert (Nc : c <> 0) by lia. assert (Nd : d <> 0) by lia.
  assert (Nn : n <> 0) by lia.
  pose proof (slack_bounds c Nc ltac:(lia)) as Hsc.
  pose proof (slack_bounds d Nd ltac:(lia)) as Hsd.
  pose proof (slack_bounds n Nn ltac:(lia)) as Hsn.
  assert (Ld : Z.log2 d = 52 - slack d) by (unfold slack; rewrite Z.abs_eq; lia).
  assert (Ln : Z.log2 n = 52 - slack n) by (unfold slack; rewrite Z.abs_eq; lia).
  assert (Lc : Z.log2 c = 52 - slack c) by (unfold slack; rewrite Z.abs_eq; lia).
  assert (Hlog : Z.log2 n + k <= Z.log2 c + Z.log2 d + 1).
  { rewrite Z.add_comm, <- log2_shift, Hnk by lia. apply Z.log2_mul_above; lia. }
  set (j := slack n + 53 - slack d - k).
  assert (Hj : slack c <= j) by (unfold j; lia).
  rewrite (dyadic_nonzero v d Nd).
  unfold SFdiv, SFdiv_core_binary.
  rewrite (Z.abs_eq d) by lia.
  rewrite !Z2Pos.id
    by (apply Z.mul_pos_pos; [lia|apply Z.pow_pos_nonneg; lia]).
  rewrite !Zdigits2_log2
    by (apply Z.mul_pos_pos; [lia|apply Z.pow_pos_nonneg; lia]).
  rewrite !log2_shift by lia.
  rewrite Ld, Ln.
  unfold fexp, emin. change prec with 53. change emax with 1024.
  replace (Z.min
             (Z.max
                (slack n + (52 - slack n) + 1 + (u - slack n)
                 - (slack d + (52 - slack d) + 1 + (v - slack d)) - 53)
                (3 - 1024 - 53))
             (u - slack n - (v - slack d)))
    with (u - slack n - (v - slack d) - 53) by lia.
  replace (u - slack n - (v - slack d) - (u - slack n - (v - slack d) - 53))
    with 53 by lia.
  rewrite Z.shiftl_mul_pow2 by lia.
  assert (Hq : Z.div_eucl (n * 2 ^ slack n * 2 ^ 53) (d * 2 ^ slack d)
               = (c * 2 ^ j, 0)).
  { assert (Hpos : 0 < d * 2 ^ slack d)
      by (apply Z.mul_pos_pos; [lia|apply Z.pow_pos_nonneg; lia]).
    pose proof (Z.div_eucl_eq (n * 2 ^ slack n * 2 ^ 53)
                              (d * 2 ^ slack d) ltac:(lia)) as Heq.
    pose proof (Z.mod_pos_bound (n * 2 ^ slack n * 2 ^ 53)
                                (d * 2 ^ slack d) Hpos) as Hmod.
    unfold Z.modulo in Hmod.
    destruct (Z.div_eucl _ _) as [q r].
    assert (Hsplit : n * 2 ^ slack n * 2 ^ 53 = d * 2 ^ slack d * (c * 2 ^ j)).
    { assert (P : 2 ^ k * (2 ^ slack d * 2 ^ j) = 2 ^ slack n * 2 ^ 53).
      { rewrite <- !Z.pow_add_r by lia. f_equal. unfold j. lia. }
      transitivity (n * (2 ^ slack n * 2 ^ 53)); [ring|].
      rewrite <- P.
      transitivity (n * 2 ^ k * (2 ^ slack d * 2 ^ j)); [ring|].
      rewrite Hnk. ring. }
    rewrite Hsplit in Heq.
    assert (Hr : r = 0).
    { assert (Hd' : (d * 2 ^ slack d) * (c * 2 ^ j - q) = r) by nia.
      destruct (Z.eq_dec (c * 2 ^ j - q) 0) as [E0|E0]; [rewrite E0 in Hd'; lia|].
      exfalso. nia. }
    subst r. f_equal. nia. }
  rewrite Hq.
  replace (new_location (d * 2 ^ slack d) 0) with loc_Exact
    by (unfold new_location, new_location_even, new_location_odd;
        now destruct (Z.even _)).
  unfold sign.
  replace (d <? 0) with false by (symmetry; apply Z.ltb_ge; lia).
  rewrite xorb_false_r.
  change (binary_round_aux 53 1024) with (binary_round_aux prec emax).
  rewrite (binary_round_aux_exact s c j (u - slack n - (v - slack d) - 53));
    rewrite <- ?Lc; fold (slack c); unfold j in *; try lia.
  rewrite Lc. replace (53 - (52 - slack c + 1)) with (slack c) by lia.
  f_equal. lia.
Qed.

(** *** Doubles that are a whole number of sixteenths *)

Lemma SFopp_dyadic (u a : Z) : a <> 0 -> SFopp (dyadic u a) = dyadic u (- a).
Proof.
  intros Ha. destruct a as [|p|p]; [congruence|reflexivity|reflexivity].
Qed.

Lemma SFabs_dyadic (u a : Z) : SFabs (dyadic u a) = dyadic u (Z.abs a).
Proof. destruct a as [|p|p]; reflexivity. Qed.

Lemma wB_value : Uint63.wB = 2 ^ 63.
Proof. reflexivity. Qed.

Lemma Prim2SF_of_uint63 (a : Z) :
  0 <= a < 2 ^ 53 -> Prim2SF (of_uint63 (Uint63.of_Z a)) = dyadic 0 a.
Proof.
  intros Ha. rewrite of_uint63_spec, Uint63.of_Z_spec, wB_value.
  rewrite Z.mod_small by lia.
  destruct (Z.eq_dec a 0) as [->|Na]; [reflexivity|].
  apply (binary_normalize_exact 0); lia.
Qed.

Lemma Prim2SF_of_Z (a : Z) :
  Z.abs a < 2 ^ 53 -> Prim2SF (Binary64.of_Z a) = dyadic 0 a.
Proof.
  intros Ha. unfold Binary64.of_Z.
  destruct (a <? 0) eqn:E; [apply Z.ltb_lt in E|apply Z.ltb_ge in E].
  - rewrite opp_spec, Prim2SF_of_uint63 by lia.
    rewrite SFopp_dyadic by lia. f_equal. lia.
  - apply Prim2SF_of_uint63. lia.
Qed.

Lemma slack_abs (a : Z) : slack (Z.abs a) = slack a.
Proof. unfold slack. now rewrite Z.abs_idemp. Qed.

(** The quotient of two integers that is a whole number of [2^-k]. *)
Lemma SFdiv_dyadic (k n d c : Z) :
  0 <= k <= 64 -> 0 < d -> Z.abs n < 2 ^ 53 -> d < 2 ^ 53 -> Z.abs c < 2 ^ 53 ->
  n * 2 ^ k = c * d ->
  SFdiv prec emax (dyadic 0 n) (dyadic 0 d) = dyadic (- k) c.
Proof.
  intros Hk Hd Bn Bd Bc Hnk.
  assert (Hp : 0 < 2 ^ k) by (apply Z.pow_pos_nonneg; lia).
  destruct (Z.eq_dec n 0) as [->|Nn].
  { assert (c = 0) by nia. subst c.
    destruct d as [|p|p]; [lia|reflexivity|lia]. }
  assert (Nc : c <> 0) by (intros ->; nia).
  rewrite (dyadic_nonzero 0 n Nn), (dyadic_nonzero (- k) c Nc).
  assert (Hs : sign n = sign c).
  { unfold sign. destruct (n <? 0) eqn:En, (c <? 0) eqn:Ec; try reflexivity;
      rewrite ?Z.ltb_lt, ?Z.ltb_ge in *; nia. }
  rewrite <- (slack_abs n), <- (slack_abs c), Hs.
  assert (Habs : Z.abs n * 2 ^ k = Z.abs c * d).
  { assert (E : Z.abs (n * 2 ^ k) = Z.abs (c * d)) by now rewrite Hnk.
    rewrite !Z.abs_mul in E.
    now rewrite (Z.abs_eq (2 ^ k)), (Z.abs_eq d) in E by lia. }
  rewrite (SFdiv_exact (sign c) 0 0 k (Z.abs n) d (Z.abs c)); try lia.
  f_equal.
Qed.

Lemma Prim2SF_sixteenths (a : Z) :
  Z.abs a < 2 ^ 53 -> Prim2SF (sixteenths a) = dyadic (- 4) a.
Proof.
  intros Ha. unfold sixteenths. rewrite div_spec, Prim2SF_of_Z by exact Ha.
  change (Prim2SF 16%float) with (dyadic 0 16).
  apply (SFdiv_dyadic 4); lia.
Qed.

(** The operations of the program on sixteenths. *)
Lemma sixteenths_add (a b : Z) :
  Z.abs a < 2 ^ 53 -> Z.abs b < 2 ^ 53 -> Z.abs (a + b) < 2 ^ 53 ->
  fadd (sixteenths a) (sixteenths b) = sixteenths (a + b).
Proof.
  intros Ha Hb Hab. apply Prim2SF_inj. cbn [fadd Binary64.binary64].
  rewrite add_spec, !Prim2SF_sixteenths by assumption.
  apply SFadd_dyadic; lia.
Qed.

Lemma sixteenths_sub (a b : Z) :
  Z.abs a < 2 ^ 53 -> Z.abs b < 2 ^ 53 -> Z.abs (a - b) < 2 ^ 53 ->
  fsub (sixteenths a) (sixteenths b) = sixteenths (a - b).
Proof.
  intros Ha Hb Hab. apply Prim2SF_inj. cbn [fsub Binary64.binary64].
  rewrite sub_spec, !Prim2SF_sixteenths by assumption.
  apply SFsub_dyadic; lia.
Qed.

Lemma sixteenths_double (a : Z) :
  Z.abs (a * 2) < 2 ^ 53 ->
  fmul (sixteenths a) (lit 2 0) = sixteenths (a * 2).
Proof.
  intros Ha. apply Prim2SF_inj. cbn [fmul lit Binary64.binary64].
  rewrite mul_spec, !Prim2SF_sixteenths by lia.
  change (Prim2SF (Binary64.literal 2 0)) with (dyadic 0 2).
  destruct (Z.eq_dec a 0) as [->|Na]; [reflexivity|].
  change (-4) with (-4 + 0). apply SFmul_dyadic; lia.
Qed.

Lemma sixteenths_ltb (a b : Z) :
  Z.abs a < 2 ^ 53 -> Z.abs b < 2 ^ 53 ->
  fltb (sixteenths a) (sixteenths b) = (a <? b).
Proof.
  intros Ha Hb. cbn [fltb Binary64.binary64].
  rewrite ltb_spec, !Prim2SF_sixteenths by assumption.
  unfold SFltb. rewrite SFcompare_dyadic by assumption.
  unfold Z.ltb. now destruct (a ?= b).
Qed.

Lemma sixteenths_leb (a b : Z) :
  Z.abs a < 2 ^ 53 -> Z.abs b < 2 ^ 53 ->
  fleb (sixteenths a) (sixteenths b) = (a <=? b).
Proof.
  intros Ha Hb. cbn [fleb Binary64.binary64].
  rewrite leb_spec, !Prim2SF_sixteenths by assumption.
  unfold SFleb. rewrite SFcompare_dyadic by assumption.
  unfold Z.leb. now destruct (a ?= b).
Qed.

Lemma sixteenths_eqb (a b : Z) :
  Z.abs a < 2 ^ 53 -> Z.abs b < 2 ^ 53 ->
  feqb (sixteenths a) (sixteenths b) = (a =? b).
Proof.
  intros Ha Hb. cbn [feqb Binary64.binary64].
  rewrite FloatAxioms.eqb_spec, !Prim2SF_sixteenths by assumption.
  unfold SFeqb. rewrite SFcompare_dyadic by assumption.
  destruct (Z.compare_spec a b) as [E|E|E]; symmetry;
    [apply Z.eqb_eq; exact E|apply Z.eqb_neq; lia|apply Z.eqb_neq; lia].
Qed.

Lemma sixteenths_inj (a b : Z) :
  Z.abs a < 2 ^ 53 -> Z.abs b < 2 ^ 53 -> sixteenths a = sixteenths b -> a = b.
Proof.
  intros Ha Hb E. apply Z.eqb_eq.
  pose proof (sixteenths_eqb a b Ha Hb) as H. rewrite E in H.
  rewrite (sixteenths_eqb b b Hb Hb), Z.eqb_refl in H. now symmetry.
Qed.

Lemma round_half_even_exact (q den : Z) :
  0 < den -> round_half_even (q * den) den = q.
Proof.
  intros Hd. unfold round_half_even.
  rewrite Z.mod_mul, Z.div_mul by lia.
  replace (2 * 0 ?= den) with Lt by (symmetry; apply Z.compare_lt_iff; lia).
  reflexivity.
Qed.

(** [round(v, 4)] returns a whole number of sixteenths unchanged: it is a
    decimal of 4 places. *)
Lemma sixteenths_round4 (a : Z) :
  Z.abs a < 2 ^ 53 -> round4 (sixteenths a) = sixteenths a.
Proof.
  intros Ha. cbn [round4 Binary64.binary64]. unfold Binary64.round_ndigits4.
  destruct (PrimFloat.leb 549755813888 (PrimFloat.abs (sixteenths a))) eqn:Eg;
    [reflexivity|].
  rewrite leb_spec, abs_spec, Prim2SF_sixteenths in Eg by exact Ha.
  rewrite SFabs_dyadic in Eg.
  change (Prim2SF 549755813888%float) with (dyadic (-4) (2 ^ 43)) in Eg.
  unfold SFleb in Eg. rewrite SFcompare_dyadic in Eg by lia.
  assert (Hsmall : Z.abs a < 2 ^ 43).
  { destruct (2 ^ 43 ?= Z.abs a) eqn:Ec; try discriminate Eg.
    apply Z.compare_gt_iff in Ec. exact Ec. }
  clear Eg. rewrite Prim2SF_sixteenths by exact Ha.
  destruct (Z.eq_dec a 0) as [->|Na]; [reflexivity|].
  pose proof (slack_bounds a Na Ha) as Hs.
  rewrite (dyadic_nonzero _ a Na). cbn [Binary64.scaled_round].
  destruct (-4 - slack a) as [|p|p] eqn:Ee; try lia.
  rewrite to_pos_abs by lia.
  replace (Z.abs a * 2 ^ slack a * 10000)
    with (Z.abs a * 625 * 2 ^ Zpos p).
  2:{ replace (Zpos p) with (slack a + 4) by lia.
      rewrite Z.pow_add_r by lia. change (2 ^ 4) with 16. ring. }
  rewrite round_half_even_exact by (apply Z.pow_pos_nonneg; lia).
  assert (Hr : PrimFloat.div (Binary64.of_Z (Z.abs a * 625)) 10000
               = sixteenths (Z.abs a)).
  { apply Prim2SF_inj.
    rewrite div_spec, Prim2SF_of_Z, Prim2SF_sixteenths by lia.
    change (Prim2SF 10000%float) with (dyadic 0 10000).
    apply (SFdiv_dyadic 4); lia. }
  cbv zeta. rewrite Hr. unfold sign.
  destruct (a <? 0) eqn:E; [apply Z.ltb_lt in E|apply Z.ltb_ge in E].
  - apply Prim2SF_inj. rewrite opp_spec, !Prim2SF_sixteenths by lia.
    rewrite SFopp_dyadic by lia. f_equal. lia.
  - f_equal. lia.
Qed.

End Binary64DyadicFacts.

(** ** [BuildGrid] on sixteenths

    For a spacing, a clearance and an extent that are whole numbers of
    sixteenths, at most [2^50] of them ([2^46] in value), every operation
    of [BuildGrid] at [binary64] is exact, and the grid is the ladder of
    the integers. *)

Module Binary64Grid.
Import Binary64Dyadic Binary64DyadicFacts.
Local Open Scope Z_scope.

Section Grid.
Variables m M s c : Z.
Hypothesis Hs : 0 < s <= 2 ^ 50.
Hypothesis Hm : Z.abs m <= 2 ^ 50.
Hypothesis HM : Z.abs M <= 2 ^ 50.

Variable self : RafterFactory (F := float).
Hypothesis Hspacing : spacing self = sixteenths s.
Hypothesis Hclearance : rafter_edge_clearance self = sixteenths c.

Lemma walk_back_S (fuel : nat) (first : float) :
  walk_back (S fuel) self (sixteenths m) first
  = if fltb (fsub (sixteenths m) (fmul (spacing self) (lit 2 0)))
            (fsub first (spacing self))
    then walk_back fuel self (sixteenths m) (fsub first (spacing self))
    else Some first.
Proof. reflexivity. Qed.

Lemma back_test (r : Z) :
  Z.abs r <= 2 ^ 52 ->
  fltb (fsub (sixteenths m) (fmul (spacing self) (lit 2 0)))
       (fsub (sixteenths r) (spacing self))
  = (m - s * 2 <? r - s).
Proof.
  intros Hr. rewrite Hspacing.
  rewrite sixteenths_double, !sixteenths_sub, sixteenths_ltb by lia.
  reflexivity.
Qed.

Lemma walk_back_sound :
  forall fuel r first,
    Z.abs r <= 2 ^ 52 ->
    walk_back fuel self (sixteenths m) (sixteenths r) = Some first ->
    exists r' k,
      first = sixteenths r' /\ 0 <= k /\ r = r' + k * s
      /\ r' <= m - s /\ (m - s < r -> m - s * 2 < r') /\ (r <= m - s -> r' = r).
Proof.
  induction fuel as [|fuel IH]; intros r first Hr E; [discriminate E|].
  rewrite walk_back_S, back_test in E by exact Hr.
  destruct (m - s * 2 <? r - s) eqn:Et;
    [apply Z.ltb_lt in Et|apply Z.ltb_ge in Et].
  - rewrite Hspacing in E.
    rewrite sixteenths_sub in E by lia.
    apply IH in E; [|lia].
    destruct E as (r' & k & -> & Hk & Hrk & Hle & Hin & Hsame).
    exists r', (k + 1). repeat split; lia.
  - injection E as <-. exists r, 0. repeat split; lia.
Qed.

Lemma walk_back_total :
  forall n r,
    Z.abs r <= 2 ^ 52 -> r <= m - s + Z.of_nat n * s ->
    exists first, walk_back (S n) self (sixteenths m) (sixteenths r) = Some first.
Proof.
  induction n as [|n IH]; intros r Hr Hub;
    rewrite walk_back_S, back_test by exact Hr;
    destruct (m - s * 2 <? r - s) eqn:Et;
    try (apply Z.ltb_lt in Et); try (apply Z.ltb_ge in Et);
    try (eexists; reflexivity).
  - lia.
  - rewrite Hspacing.
    rewrite sixteenths_sub by lia. apply IH; lia.
Qed.

Lemma limit_value :
  fadd (sixteenths M) (fmul (spacing self) (lit 2 0)) = sixteenths (M + s * 2).
Proof.
  rewrite Hspacing.
  rewrite sixteenths_double, sixteenths_add by lia. reflexivity.
Qed.

Lemma ladder_stepped :
  forall n r,
    Z.abs r <= 2 ^ 52 ->
    r + (Z.of_nat n - 1) * s <= M + s * 2 < r + Z.of_nat n * s ->
    stepped self (sixteenths (M + s * 2)) (map sixteenths (ladder n r s))
            (sixteenths r).
Proof.
  induction n as [|n IH]; intros r Hr Hn; cbn [ladder map stepped].
  - rewrite sixteenths_leb by lia. apply Z.leb_gt. lia.
  - rewrite sixteenths_leb by lia. split; [apply Z.leb_le; nia|].
    split; [now rewrite sixteenths_round4 by lia|].
    rewrite Hspacing.
    rewrite sixteenths_add by nia. apply IH; [nia|lia].
Qed.

Lemma ladder_length (n : nat) : forall r, length (ladder n r s) = n.
Proof. induction n as [|n IH]; intros r; cbn [ladder length]; now rewrite ?IH. Qed.

Lemma ladder_In (n : nat) :
  forall r a, In a (ladder n r s) -> r <= a <= r + (Z.of_nat n - 1) * s.
Proof.
  induction n as [|n IH]; intros r a Hin; cbn [ladder] in Hin; [contradiction|].
  destruct Hin as [<-|Hin]; [nia|]. apply IH in Hin. nia.
Qed.

Lemma ladder_sorted (n : nat) :
  forall r, StronglySorted Z.lt (ladder n r s).
Proof.
  induction n as [|n IH]; intros r; cbn [ladder]; constructor; [apply IH|].
  apply Forall_forall. intros a Hin. apply ladder_In in Hin. lia.
Qed.

Hypothesis Hc : Z.abs c <= 2 ^ 50.
Hypothesis Hle : m <= M.

(** [BuildGrid] on sixteenths: both loops end, and the grid is the ladder
    from the first position on. *)
Lemma BuildGrid_ladder :
  exists fuel r n,
    (forall fuel', (fuel <= fuel')%nat ->
       walk_back fuel' self (sixteenths m)
                 (fadd (sixteenths m) (rafter_edge_clearance self))
       = Some (sixteenths r)
       /\ walk_forward fuel' self
            (fadd (sixteenths M) (fmul (spacing self) (lit 2 0))) [] (sixteenths r)
          = Some (map sixteenths (ladder n r s))
       /\ BuildGrid fuel' self (sixteenths m) (sixteenths M)
          = Returns {| positions := map sixteenths (ladder n r s) |})
    /\ Z.abs r <= 2 ^ 52
    /\ r <= m - s /\ (- s < c -> m - s * 2 < r)
    /\ (exists k, 0 <= k /\ m + c = r + k * s)
    /\ r + (Z.of_nat n - 1) * s <= M + s * 2 < r + Z.of_nat n * s.
Proof.
  assert (E0 : fadd (sixteenths m) (rafter_edge_clearance self) = sixteenths (m + c)).
  { rewrite Hclearance.
    now rewrite sixteenths_add by lia. }
  set (nb := Z.to_nat ((c + s) / s + 1)).
  assert (Hnb : m + c <= m - s + Z.of_nat nb * s).
  { unfold nb. destruct (Z_lt_le_dec (c + s) 0) as [Hneg|Hpos]; [nia|].
    assert (0 <= (c + s) / s) by (apply Z.div_pos; lia).
    rewrite Z2Nat.id by lia.
    pose proof (Z.mod_pos_bound (c + s) s ltac:(lia)).
    pose proof (Z.div_mod (c + s) s ltac:(lia)). nia. }
  destruct (walk_back_total nb (m + c) ltac:(lia) Hnb) as [first Hback].
  destruct (walk_back_sound (S nb) (m + c) first ltac:(lia) Hback)
    as (r & k & -> & Hk & Hrk & Hub & Hin & Hsame).
  assert (Hr : Z.abs r <= 2 ^ 52).
  { destruct (Z_lt_le_dec (m - s) (m + c)) as [H1|H1]; [specialize (Hin H1); lia|].
    rewrite (Hsame H1). lia. }
  set (n := Z.to_nat ((M + s * 2 - r) / s + 1)).
  assert (Hq : 0 <= (M + s * 2 - r) / s) by (apply Z.div_pos; lia).
  assert (Hn : r + (Z.of_nat n - 1) * s <= M + s * 2 < r + Z.of_nat n * s).
  { unfold n. rewrite Z2Nat.id by lia.
    pose proof (Z.mod_pos_bound (M + s * 2 - r) s ltac:(lia)).
    pose proof (Z.div_mod (M + s * 2 - r) s ltac:(lia)). nia. }
  pose proof (ladder_stepped n r Hr Hn) as Hps.
  pose proof (stepped_walk_forward self _ _ [] _ Hps) as Hfwd.
  rewrite length_map, ladder_length in Hfwd. cbn [app] in Hfwd.
  exists (Nat.max (S nb) (S n)), r, n.
  split; [|repeat split; try lia; try (exists k; lia)].
  intros fuel' Hfuel.
  assert (Hb' : walk_back fuel' self (sixteenths m)
                  (fadd (sixteenths m) (rafter_edge_clearance self))
                = Some (sixteenths r)).
  { rewrite E0. apply (walk_back_mono self _ (S nb)); [lia|exact Hback]. }
  assert (Hf' : walk_forward fuel' self
                  (fadd (sixteenths M) (fmul (spacing self) (lit 2 0))) []
                  (sixteenths r)
                = Some (map sixteenths (ladder n r s))).
  { rewrite limit_value. apply (walk_forward_mono self _ (S n)); [lia|exact Hfwd]. }
  split; [exact Hb'|]. split; [exact Hf'|].
  unfold BuildGrid. rewrite sixteenths_ltb by lia.
  replace (M <? m) with false by (symmetry; apply Z.ltb_ge; lia).
  cbv zeta. now rewrite Hb', Hf'.
Qed.

Lemma map_ladder_sorted (n : nat) (r : Z) :
  Z.abs r <= 2 ^ 52 -> r + (Z.of_nat n - 1) * s <= 2 ^ 52 ->
  StronglySorted (fun a b => fltb a b = true) (map sixteenths (ladder n r s)).
Proof.
  intros Hr Hn.
  assert (Hb : Forall (fun a => Z.abs a < 2 ^ 53) (ladder n r s)).
  { apply Forall_forall. intros a Hin. apply ladder_In in Hin. lia. }
  pose proof (ladder_sorted n r) as Hso.
  induction Hso as [|a l Hso IH Hall]; cbn [map]; constructor.
  - apply IH. now inversion Hb.
  - apply Forall_forall. intros x Hin. apply in_map_iff in Hin.
    destruct Hin as (b & <- & Hin). inversion Hb as [|? ? Ha Hl]; subst.
    rewrite Forall_forall in Hall, Hl.
    rewrite sixteenths_ltb by auto. apply Z.ltb_lt. auto.
Qed.

Lemma map_ladder_NoDup (n : nat) (r : Z) :
  Z.abs r <= 2 ^ 52 -> r + (Z.of_nat n - 1) * s <= 2 ^ 52 ->
  NoDup (map sixteenths (ladder n r s)).
Proof.
  intros Hr Hn.
  assert (Hb : Forall (fun a => Z.abs a < 2 ^ 53) (ladder n r s)).
  { apply Forall_forall. intros a Hin. apply ladder_In in Hin. lia. }
  pose proof (ladder_sorted n r) as Hso.
  induction Hso as [|a l Hso IH Hall]; cbn [map]; constructor.
  - intros Hin. apply in_map_iff in Hin. destruct Hin as (b & Eb & Hin).
    inversion Hb as [|? ? Ha Hl]; subst.
    rewrite Forall_forall in Hall, Hl.
    apply sixteenths_inj in Eb; auto. specialize (Hall _ Hin). lia.
  - apply IH. now inversion Hb.
Qed.

(** Whatever the fuel, a returned grid is that ladder. *)
Lemma BuildGrid_returned (fuel : nat) (grid : RafterGrid) :
  BuildGrid fuel self (sixteenths m) (sixteenths M) = Returns grid ->
  exists r n,
    positions grid = map sixteenths (ladder n r s)
    /\ Z.abs r <= 2 ^ 52
    /\ r <= m - s /\ (- s < c -> m - s * 2 < r)
    /\ (exists k, 0 <= k /\ m + c = r + k * s)
    /\ r + (Z.of_nat n - 1) * s <= M + s * 2 < r + Z.of_nat n * s.
Proof.
  intros E.
  destruct BuildGrid_ladder as (fuel0 & r & n & Hrun & Hfacts).
  exists r, n. split; [|exact Hfacts].
  destruct (Hrun (Nat.max fuel fuel0) ltac:(lia)) as (_ & _ & Hg).
  rewrite (BuildGrid_mono self _ _ fuel) in Hg by (try lia; congruence).
  rewrite E in Hg. now injection Hg as ->.
Qed.

(** The positions of a returned grid are strictly ascending. *)
Lemma BuildGrid_sixteenths_ascending (fuel : nat) (grid : RafterGrid) :
  BuildGrid fuel self (sixteenths m) (sixteenths M) = Returns grid ->
  StronglySorted (fun a b => fltb a b = true) (positions grid)
  /\ NoDup (positions grid).
Proof.
  intros E. apply BuildGrid_returned in E.
  destruct E as (r & n & -> & Hr & _ & _ & _ & Hn).
  split; [apply map_ladder_sorted|apply map_ladder_NoDup]; lia.
Qed.

Lemma ladder_S (n : nat) (r : Z) : ladder (S n) r s = r :: ladder n (r + s) s.
Proof. reflexivity. Qed.

(** Both loops end; the first position lies in
    [(min_x - 2*spacing, min_x - spacing]] and is stored unchanged. *)
Lemma BuildGrid_sixteenths_first :
  0 <= c ->
  exists fuel first rest,
    (forall fuel', (fuel <= fuel')%nat ->
       walk_back fuel' self (sixteenths m)
                 (fadd (sixteenths m) (rafter_edge_clearance self)) = Some first
       /\ walk_forward fuel' self
            (fadd (sixteenths M) (fmul (spacing self) (lit 2 0))) [] first
          = Some (round4 first :: rest)
       /\ BuildGrid fuel' self (sixteenths m) (sixteenths M)
          = Returns {| positions := round4 first :: rest |})
    /\ fltb (fsub (sixteenths m) (fmul (spacing self) (lit 2 0))) first = true
    /\ fleb first (fsub (sixteenths m) (spacing self)) = true
    /\ fltb (round4 first) (sixteenths m) = true.
Proof.
  intros Hc0.
  destruct BuildGrid_ladder as (fuel & r & n & Hrun & Hr & Hub & Hlb & _ & Hn).
  specialize (Hlb ltac:(lia)).
  destruct n as [|n]; [lia|]. rewrite ladder_S in Hrun. cbn [map] in Hrun.
  exists fuel, (sixteenths r), (map sixteenths (ladder n (r + s) s)).
  rewrite sixteenths_round4 by lia.
  split; [exact Hrun|].
  rewrite Hspacing.
  rewrite sixteenths_double, !sixteenths_sub, !sixteenths_ltb, sixteenths_leb by lia.
  repeat split; [apply Z.ltb_lt|apply Z.leb_le|apply Z.ltb_lt]; lia.
Qed.

Lemma last_ladder (n : nat) :
  forall r d, last (map sixteenths (ladder (S n) r s)) d
              = sixteenths (r + Z.of_nat n * s).
Proof.
  induction n as [|n IH]; intros r d.
  - cbn [ladder map last]. f_equal. lia.
  - rewrite ladder_S. cbn [map].
    change (last (?a :: map sixteenths (ladder (S n) ?r' s)) d)
      with (last (map sixteenths (ladder (S n) r' s)) d).
    rewrite IH. f_equal. lia.
Qed.

Lemma ladder_steps (n : nat) :
  forall r,
    Z.abs r <= 2 ^ 52 -> r + (Z.of_nat n - 1) * s <= 2 ^ 52 ->
    Forall (fun pair => fsub (snd pair) (fst pair) = spacing self)
           (adjacent_pairs (map sixteenths (ladder n r s))).
Proof.
  induction n as [|n IH]; intros r Hr Hn; [constructor|].
  destruct n as [|n]; [constructor|].
  change (adjacent_pairs (map sixteenths (ladder (S (S n)) r s)))
    with ((sixteenths r, sixteenths (r + s))
            :: adjacent_pairs (map sixteenths (ladder (S n) (r + s) s))).
  constructor; [|apply IH; lia].
  cbn [fst snd]. rewrite Hspacing.
  rewrite sixteenths_sub by lia. f_equal. lia.
Qed.

(** A returned grid starts at or left of [min_x - spacing], ends right of
    [max_x + spacing], and its neighbours are one spacing apart. *)
Lemma BuildGrid_sixteenths_cover (fuel : nat) (grid : RafterGrid) :
  BuildGrid fuel self (sixteenths m) (sixteenths M) = Returns grid ->
  exists first others,
    positions grid = first :: others
    /\ fleb first (fsub (sixteenths m) (spacing self)) = true
    /\ fltb (fadd (sixteenths M) (spacing self)) (last others first) = true
    /\ Forall (fun pair => fsub (snd pair) (fst pair) = spacing self)
              (adjacent_pairs (positions grid)).
Proof.
  intros E. apply BuildGrid_returned in E.
  destruct E as (r & n & Hps & Hr & Hub & _ & _ & Hn).
  destruct n as [|n]; [lia|].
  exists (sixteenths r), (map sixteenths (ladder n (r + s) s)).
  split; [exact Hps|]. split; [|split].
  - rewrite Hspacing.
    rewrite sixteenths_sub, sixteenths_leb by lia. apply Z.leb_le. lia.
  - assert (El : last (map sixteenths (ladder n (r + s) s)) (sixteenths r)
                 = sixteenths (r + Z.of_nat n * s)).
    { destruct n as [|n']; [cbn [ladder map last]; f_equal; lia|].
      rewrite last_ladder. f_equal. lia. }
    rewrite El. rewrite Hspacing.
    rewrite sixteenths_add, sixteenths_ltb by lia. apply Z.ltb_lt. lia.
  - rewrite Hps. apply ladder_steps; lia.
Qed.

End Grid.



End Binary64Grid.

(** ** No NaN from finite doubles

    The sum of a number and a finite double, the quotient of a number by a
    finite double other than zero and [round(v, 4)] of a number are
    numbers: rounding never makes a NaN. *)

Module Binary64NumberFacts.
Import Binary64Number.
Local Open Scope Z_scope.

Lemma shr_1_nonneg (mrs : shr_record) : 0 <= shr_m mrs -> 0 <= shr_m (shr_1 mrs).
Proof.
  destruct mrs as [m r s]. cbn [shr_m]. intros Hm.
  destruct m as [|[p|p|]|p]; cbn; lia.
Qed.

Lemma shr_nonneg (mrs : shr_record) (e n : Z) :
  0 <= shr_m mrs -> 0 <= shr_m (fst (shr mrs e n)).
Proof.
  intros Hm. unfold shr. destruct n as [|p|p]; cbn [fst]; try exact Hm.
  rewrite Binary64DyadicFacts.iter_pos_nat.
  induction (Pos.to_nat p) as [|k IH]; cbn [Nat.iter]; [exact Hm|].
  now apply shr_1_nonneg.
Qed.

Lemma shr_fexp_nonneg (m e : Z) (l : location) :
  0 <= m -> 0 <= shr_m (fst (shr_fexp prec emax m e l)).
Proof.
  intros Hm. unfold shr_fexp. apply shr_nonneg.
  unfold shr_record_of_loc. destruct l as [|[| |]]; exact Hm.
Qed.

Lemma round_nearest_even_nonneg (m : Z) (l : location) :
  0 <= m -> 0 <= round_nearest_even m l.
Proof.
  intros Hm. unfold round_nearest_even.
  destruct l as [|[| |]]; try lia. destruct (Z.even m); lia.
Qed.

(** Rounding never makes a NaN. *)
Lemma binary_round_aux_number (s : bool) (m e : Z) (l : location) :
  0 <= m -> binary_round_aux prec emax s m e l <> S754_nan.
Proof.
  intros Hm. unfold binary_round_aux.
  pose proof (shr_fexp_nonneg m e l Hm) as H1.
  destruct (shr_fexp prec emax m e l) as [mrs' e']. cbn [fst] in H1.
  pose proof (shr_fexp_nonneg
                (round_nearest_even (shr_m mrs') (loc_of_shr_record mrs')) e'
                loc_Exact (round_nearest_even_nonneg _ _ H1)) as H2.
  destruct (shr_fexp prec emax _ e' loc_Exact) as [mrs'' e'']. cbn [fst] in H2.
  destruct (shr_m mrs'') as [|p|p]; try discriminate; [|lia].
  destruct (e'' <=? emax - prec); discriminate.
Qed.

Lemma binary_normalize_number (m e : Z) (szero : bool) :
  binary_normalize prec emax m e szero <> S754_nan.
Proof.
  unfold binary_normalize, binary_round.
  destruct m as [|p|p]; [discriminate| |];
    destruct (shl_align _ _ _) as [mz ez]; apply binary_round_aux_number; lia.
Qed.

Lemma number_spec (v : float) : number v = true <-> Prim2SF v <> S754_nan.
Proof. unfold number. destruct (Prim2SF v); split; congruence. Qed.

Lemma finite_number (v : float) : finite v = true -> number v = true.
Proof. unfold finite, number. destruct (Prim2SF v); congruence. Qed.

(** A number plus a finite double is a number. *)
Lemma add_number (a b : float) :
  number a = true -> finite b = true -> number (PrimFloat.add a b) = true.
Proof.
  unfold number, finite. rewrite add_spec. unfold SF64add.
  destruct (Prim2SF a) as [sa|sa| |sa ma ea], (Prim2SF b) as [sb|sb| |sb mb eb];
    try discriminate; intros _ _; cbn [SFadd]; try reflexivity.
  - destruct sa, sb; reflexivity.
  - pose proof (binary_normalize_number
                  (cond_Zopp sa (Z.pos (fst (shl_align ma ea (Z.min ea eb)))) +
                   cond_Zopp sb (Z.pos (fst (shl_align mb eb (Z.min ea eb)))))
                  (Z.min ea eb) false) as Hn.
    destruct (binary_normalize _ _ _ _ _); congruence.
Qed.

Lemma SFdiv_core_nonneg (m1 m2 : positive) (e1 e2 : Z) :
  0 <= fst (fst (SFdiv_core_binary prec emax (Zpos m1) e1 (Zpos m2) e2)).
Proof.
  unfold SFdiv_core_binary.
  set (s := e1 - e2 - _).
  set (m' := match s with 0 => Z.pos m1 | Z.pos _ => Z.shiftl (Z.pos m1) s
                     | Z.neg _ => 0 end).
  assert (Hm' : 0 <= m').
  { unfold m'. destruct s; try lia. apply Z.shiftl_nonneg. lia. }
  pose proof (Z.div_pos m' (Zpos m2) Hm' ltac:(lia)) as Hq.
  unfold Z.div in Hq. destruct (Z.div_eucl m' (Zpos m2)) as [q r].
  exact Hq.
Qed.

(** A number divided by a finite double other than zero is a number. *)
Lemma div_number (a b : float) (sb : bool) (mb : positive) (eb : Z) :
  number a = true -> Prim2SF b = S754_finite sb mb eb ->
  number (PrimFloat.div a b) = true.
Proof.
  unfold number. rewrite div_spec. unfold SF64div. intros Ha ->.
  destruct (Prim2SF a) as [sa|sa| |sa ma ea]; try discriminate; try reflexivity.
  cbn [SFdiv].
  pose proof (SFdiv_core_nonneg ma mb ea eb) as Hq.
  destruct (SFdiv_core_binary prec emax (Z.pos ma) ea (Z.pos mb) eb) as [[mz ez] lz].
  cbn [fst] in Hq.
  pose proof (binary_round_aux_number (xorb sa sb) mz ez lz Hq) as Hn.
  destruct (binary_round_aux _ _ _ _ _ _); congruence.
Qed.

Lemma of_uint63_number (n : PrimInt63.int) : number (of_uint63 n) = true.
Proof.
  unfold number. rewrite of_uint63_spec.
  pose proof (binary_normalize_number (Uint63Axioms.to_Z n) 0 false) as Hn.
  destruct (binary_normalize _ _ _ _ _); congruence.
Qed.

Lemma opp_number (a : float) : number (PrimFloat.opp a) = number a.
Proof. unfold number. rewrite opp_spec. now destruct (Prim2SF a). Qed.

Lemma of_Z_number (n : Z) : number (Binary64.of_Z n) = true.
Proof.
  unfold Binary64.of_Z. destruct (n <? 0); rewrite ?opp_number;
    apply of_uint63_number.
Qed.

(** [round(v, 4)] of a number is a number. *)
Lemma round4_number (v : float) : number v = true -> number (round4 v) = true.
Proof.
  intros Hv. cbn [round4 Binary64.binary64]. unfold Binary64.round_ndigits4.
  destruct (PrimFloat.leb _ _); [exact Hv|].
  destruct (Binary64.scaled_round _ _) as [[s n]|]; [|exact Hv].
  assert (Hr : number (PrimFloat.div (Binary64.of_Z n) 10000) = true).
  { apply (div_number _ _ false 5497558138880000 (-39)); [apply of_Z_number|].
    reflexivity. }
  cbv zeta. destruct s; [rewrite opp_number|]; exact Hr.
Qed.

End Binary64NumberFacts.

(** ** What successful runs have computed *)

Lemma BuildPanels_returns {F : Type} `{PyFloat F} (self : PanelFactory)
    (specs : list PanelSpec) (ps : list Panel) :
  BuildPanels self specs = Returns ps ->
  exists built,
    BuildPanels_from self (coordinate_tolerance (validation self)) [] [] specs
      = Returns built
    /\ (allow_overlaps (validation self) = false ->
        _ValidateNoOverlap self built (coordinate_tolerance (validation self))
          = Returns tt)
    /\ ps = sort_panels built.
Proof.
  unfold BuildPanels. intros E.
  destruct (BuildPanels_from _ _ _ _ _) as [built| |]; simpl in E; try discriminate E.
  exists built. split; [reflexivity|].
  destruct (allow_overlaps _); simpl in E.
  - injection E as <-. split; [discriminate|reflexivity].
  - destruct (_ValidateNoOverlap _ _ _) as [[]| |]; simpl in E; try discriminate E.
    injection E as <-. split; reflexivity.
Qed.

Lemma StronglySorted_filter {A : Type} (R : A -> A -> Prop) (f : A -> bool)
    (l : list A) :
  StronglySorted R l -> StronglySorted R (filter f l).
Proof.
  induction 1 as [|a l Hs IH Hall]; cbn [filter]; [constructor|].
  destruct (f a); [|assumption].
  constructor; [assumption|].
  apply Forall_forall. intros b Hb. apply filter_In in Hb.
  rewrite Forall_forall in Hall. now apply Hall.
Qed.

(** In exact arithmetic the second loop ends only under a positive
    spacing, unless it records nothing. *)
Lemma stepped_spacing (self : RafterFactory (F := Qc)) (limit : Qc) :
  forall ps current,
    stepped self limit ps current -> ps = [] \/ (0 < this (spacing self))%Q.
Proof.
  induction ps as [|p ps IH]; intros current Hps; [now left|right].
  cbn [stepped] in Hps. destruct Hps as (Hc & _ & Hps).
  destruct (IH _ Hps) as [->|Hs]; [|assumption].
  cbn [stepped] in Hps.
  apply ExactFacts.fleb_true in Hc. apply ExactFacts.fleb_false in Hps.
  rewrite ExactFacts.this_fadd in Hps. lra.
Qed.

Lemma BuildGrid_exact_sorted (fuel : nat) (self : RafterFactory (F := Qc))
    (min_x max_x : Qc) (grid : RafterGrid) :
  BuildGrid fuel self min_x max_x = Returns grid ->
  StronglySorted Qcle (positions grid).
Proof.
  intros E. apply GridRuns.BuildGrid_positions_stepped in E.
  destruct E as (first & _ & Hps).
  destruct (stepped_spacing _ _ _ _ Hps) as [->|Hs]; [constructor|].
  apply (GridFacts.stepped_sorted self _ Hs _ _ Hps).
Qed.

(** ** Permuted specs *)

Section PermutedSpecs.
Context {F : Type} `{PyFloat F}.

Lemma BuildPanels_from_cons (self : PanelFactory) (tolerance : F)
    (acc : list Panel) (seen : list (Z * Z)) (item : PanelSpec)
    (rest : list PanelSpec) :
  BuildPanels_from self tolerance acc seen (item :: rest)
  = let* ps := checked_panel self tolerance seen item in
    BuildPanels_from self tolerance (acc ++ [fst ps]) (snd ps) rest.
Proof.
  cbn [BuildPanels_from]. unfold checked_panel.
  destruct (spec_x item); [|reflexivity].
  destruct (spec_y item); [|reflexivity].
  destruct (_ValidateCoordinateBounds _ _ _ _); cbn [bind]; try reflexivity.
  destruct (allow_duplicates _); cbn [bind]; [reflexivity|].
  destruct (_QuantizeCoordinate _ _ _ _); cbn [bind]; try reflexivity.
  destruct (key_in _ _); reflexivity.
Qed.

Lemma key_in_cons (k key : Z * Z) (seen : list (Z * Z)) :
  key_in k (key :: seen)
  = ((fst key =? fst k)%Z && (snd key =? snd k)%Z) || key_in k seen.
Proof. reflexivity. Qed.

Lemma same_keys_cons (key : Z * Z) (seen seen' : list (Z * Z)) :
  same_keys seen seen' -> same_keys (key :: seen) (key :: seen').
Proof. intros Hs k. rewrite !key_in_cons. now rewrite (Hs k). Qed.

(** What [checked_panel] returns, and when. *)
Lemma checked_panel_returns (self : PanelFactory) (tolerance : F)
    (seen : list (Z * Z)) (item : PanelSpec) (p : Panel) (seen1 : list (Z * Z)) :
  checked_panel self tolerance seen item = Returns (p, seen1)
  <-> exists x_value y_value,
        spec_x item = Some x_value /\ spec_y item = Some y_value
        /\ _ValidateCoordinateBounds self x_value y_value tolerance = Returns tt
        /\ p = {| panel_x := x_value; panel_y := y_value;
                  width := dim_width (dimensions self);
                  height := dim_height (dimensions self) |}
        /\ ((allow_duplicates (validation self) = true /\ seen1 = seen)
            \/ (allow_duplicates (validation self) = false
                /\ exists key,
                     _QuantizeCoordinate self x_value y_value tolerance = Returns key
                     /\ key_in key seen = false /\ seen1 = key :: seen)).
Proof.
  unfold checked_panel. split.
  - destruct (spec_x item) as [x_value|]; [|discriminate].
    destruct (spec_y item) as [y_value|]; [|discriminate].
    destruct (_ValidateCoordinateBounds _ _ _ _) as [[]| |] eqn:Eb; cbn [bind];
      try discriminate.
    destruct (allow_duplicates _) eqn:Ea; cbn [bind].
    + intros E. injection E as <- <-. exists x_value, y_value. auto 10.
    + destruct (_QuantizeCoordinate _ _ _ _) as [key| |] eqn:Eq; cbn [bind];
        try discriminate.
      destruct (key_in key seen) eqn:Ek; cbn [bind]; [discriminate|].
      intros E. injection E as <- <-. exists x_value, y_value.
      repeat split; try assumption. right. split; [reflexivity|]. exists key. auto.
  - intros (x_value & y_value & -> & -> & -> & -> & Hd). cbn [bind].
    destruct Hd as [[-> ->]|(-> & key & -> & Hk & ->)]; [reflexivity|].
    cbn [bind]. now rewrite Hk.
Qed.

Lemma checked_panel_same_keys (self : PanelFactory) (tolerance : F)
    (seen seen' : list (Z * Z)) (item : PanelSpec) (p : Panel) (seen1 : list (Z * Z)) :
  same_keys seen seen' ->
  checked_panel self tolerance seen item = Returns (p, seen1) ->
  exists seen1',
    checked_panel self tolerance seen' item = Returns (p, seen1')
    /\ same_keys seen1 seen1'.
Proof.
  intros Hs E. apply checked_panel_returns in E.
  destruct E as (x_value & y_value & Hx & Hy & Hb & Hp & Hd).
  destruct Hd as [[Ha ->]|(Ha & key & Hq & Hk & ->)].
  - exists seen'. split; [|assumption].
    apply checked_panel_returns. exists x_value, y_value. auto 10.
  - exists (key :: seen'). split; [|now apply same_keys_cons].
    apply checked_panel_returns. exists x_value, y_value.
    repeat split; try assumption. right. split; [assumption|].
    exists key. rewrite <- (Hs key). auto.
Qed.

Lemma key_eqb_sym (a b : Z * Z) :
  ((fst a =? fst b)%Z && (snd a =? snd b)%Z)
  = ((fst b =? fst a)%Z && (snd b =? snd a)%Z).
Proof. now rewrite (Z.eqb_sym (fst a)), (Z.eqb_sym (snd a)). Qed.

Lemma checked_panel_swap (self : PanelFactory) (tolerance : F)
    (seen : list (Z * Z)) (a b : PanelSpec) (pa pb : Panel)
    (seen1 seen2 : list (Z * Z)) :
  checked_panel self tolerance seen a = Returns (pa, seen1) ->
  checked_panel self tolerance seen1 b = Returns (pb, seen2) ->
  exists seen1' seen2',
    checked_panel self tolerance seen b = Returns (pb, seen1')
    /\ checked_panel self tolerance seen1' a = Returns (pa, seen2')
    /\ same_keys seen2 seen2'.
Proof.
  intros Ea Eb. apply checked_panel_returns in Ea, Eb.
  destruct Ea as (xa & ya & Hxa & Hya & Hba & Hpa & Hda).
  destruct Eb as (xb & yb & Hxb & Hyb & Hbb & Hpb & Hdb).
  destruct Hda as [[Ha ->]|(Ha & ka & Hqa & Hka & ->)];
    destruct Hdb as [[Hb' ->]|(Hb' & kb & Hqb & Hkb & ->)]; try congruence.
  - exists seen, seen. repeat split.
    + apply checked_panel_returns. exists xb, yb. auto 10.
    + apply checked_panel_returns. exists xa, ya. auto 10.
  - rewrite key_in_cons in Hkb. apply Bool.orb_false_iff in Hkb.
    destruct Hkb as [Hne Hkb].
    exists (kb :: seen), (ka :: kb :: seen). repeat split.
    + apply checked_panel_returns. exists xb, yb.
      repeat split; try assumption. right. split; [assumption|]. exists kb. auto.
    + apply checked_panel_returns. exists xa, ya.
      repeat split; try assumption. right. split; [assumption|]. exists ka.
      repeat split; [assumption|].
      rewrite key_in_cons, Hka, key_eqb_sym, Hne. reflexivity.
    + intros k. rewrite !key_in_cons.
      destruct ((fst kb =? fst k)%Z && (snd kb =? snd k)%Z),
               ((fst ka =? fst k)%Z && (snd ka =? snd k)%Z); reflexivity.
Qed.

Lemma BuildPanels_from_same (self : PanelFactory) (tolerance : F) :
  forall specs acc acc' seen seen' ps,
    Permutation acc acc' -> same_keys seen seen' ->
    BuildPanels_from self tolerance acc seen specs = Returns ps ->
    exists ps',
      BuildPanels_from self tolerance acc' seen' specs = Returns ps'
      /\ Permutation ps ps'.
Proof.
  induction specs as [|x l IH]; intros acc acc' seen seen' ps Hacc Hseen E.
  - cbn [BuildPanels_from] in *. injection E as <-. exists acc'. auto.
  - rewrite BuildPanels_from_cons in *.
    destruct (checked_panel self tolerance seen x) as [[p seen1]| |] eqn:Ex;
      cbn [bind] in E; try discriminate E.
    destruct (checked_panel_same_keys _ _ _ _ _ _ _ Hseen Ex) as (seen1' & -> & Hs1).
    cbn [bind fst snd] in *.
    apply (IH _ _ _ _ _ (Permutation_app_tail [p] Hacc) Hs1 E).
Qed.

Lemma BuildPanels_from_perm (self : PanelFactory) (tolerance : F)
    (specs specs' : list PanelSpec) :
  Permutation specs specs' ->
  forall acc acc' seen seen' ps,
    Permutation acc acc' -> same_keys seen seen' ->
    BuildPanels_from self tolerance acc seen specs = Returns ps ->
    exists ps',
      BuildPanels_from self tolerance acc' seen' specs' = Returns ps'
      /\ Permutation ps ps'.
Proof.
  induction 1 as [|x l l' Hperm IH|x y l|l l' l'' H1 IH1 H2 IH2];
    intros acc acc' seen seen' ps Hacc Hseen E.
  - cbn [BuildPanels_from] in *. injection E as <-. exists acc'. auto.
  - rewrite BuildPanels_from_cons in *.
    destruct (checked_panel self tolerance seen x) as [[p seen1]| |] eqn:Ex;
      cbn [bind] in E; try discriminate E.
    destruct (checked_panel_same_keys _ _ _ _ _ _ _ Hseen Ex) as (seen1' & -> & Hs1).
    cbn [bind fst snd] in *.
    apply (IH _ _ _ _ _ (Permutation_app_tail [p] Hacc) Hs1 E).
  - rewrite !BuildPanels_from_cons in E.
    destruct (checked_panel self tolerance seen y) as [[py seen1]| |] eqn:Ey;
      cbn [bind fst snd] in E; try discriminate E.
    rewrite BuildPanels_from_cons in E.
    destruct (checked_panel self tolerance seen1 x) as [[px seen2]| |] eqn:Ex;
      cbn [bind fst snd] in E; try discriminate E.
    destruct (checked_panel_swap _ _ _ _ _ _ _ _ _ Ey Ex)
      as (t1 & t2 & Ex' & Ey' & Hs2).
    destruct (checked_panel_same_keys _ _ _ _ _ _ _ Hseen Ex') as (u1 & Ex'' & Hu1).
    destruct (checked_panel_same_keys _ _ _ _ _ _ _ Hu1 Ey') as (u2 & Ey'' & Hu2).
    rewrite !BuildPanels_from_cons, Ex''. cbn [bind fst snd].
    rewrite BuildPanels_from_cons, Ey''. cbn [bind fst snd].
    apply (BuildPanels_from_same self tolerance l ((acc ++ [py]) ++ [px])
                                 ((acc' ++ [px]) ++ [py]) seen2 u2 ps); [| |exact E].
    + rewrite <- !app_assoc. apply Permutation_app; [assumption|apply perm_swap].
    + intros k. now rewrite (Hs2 k), (Hu2 k).
  - destruct (IH1 _ _ _ _ _ Hacc Hseen E) as (ps1 & E1 & Hp1).
    destruct (IH2 acc' acc' seen' seen' ps1 (Permutation_refl _) (fun k => eq_refl) E1)
      as (ps2 & E2 & Hp2).
    exists ps2. split; [assumption|]. eapply Permutation_trans; eassumption.
Qed.

(** [_RectanglesOverlap] does not depend on the order of its two panels. *)
Lemma RectanglesOverlap_sym (self : PanelFactory) (a b : Panel) (tolerance : F) :
  _RectanglesOverlap self a b tolerance = _RectanglesOverlap self b a tolerance.
Proof.
  unfold _RectanglesOverlap.
  now rewrite (Bool.orb_comm (fleb (RightEdge a) _)),
              (Bool.orb_comm (fleb (BottomEdge a) _)).
Qed.

Lemma ValidateNoOverlap_returns (self : PanelFactory) (tolerance : F)
    (first : Panel) (rest : list Panel) :
  _ValidateNoOverlap self (first :: rest) tolerance = Returns tt
  <-> Forall (fun second => _RectanglesOverlap self first second tolerance = false) rest
      /\ _ValidateNoOverlap self rest tolerance = Returns tt.
Proof.
  cbn [_ValidateNoOverlap].
  destruct (find _ rest) as [second|] eqn:Ef.
  - split; [discriminate|]. intros [Hall _].
    apply find_some in Ef. destruct Ef as [Hin Ho].
    rewrite Forall_forall in Hall. rewrite (Hall _ Hin) in Ho. discriminate Ho.
  - split; [|tauto]. intros E. split; [|assumption].
    apply Forall_forall. intros second Hin.
    destruct (_RectanglesOverlap self first second tolerance) eqn:Ho; [|reflexivity].
    now rewrite (find_none _ _ Ef _ Hin) in Ho.
Qed.

Lemma ValidateNoOverlap_perm (self : PanelFactory) (tolerance : F)
    (ps ps' : list Panel) :
  Permutation ps ps' ->
  _ValidateNoOverlap self ps tolerance = Returns tt ->
  _ValidateNoOverlap self ps' tolerance = Returns tt.
Proof.
  induction 1 as [|x l l' Hperm IH|x y l|l l' l'' H1 IH1 H2 IH2]; intros E.
  - exact E.
  - apply ValidateNoOverlap_returns in E. destruct E as [Hall E].
    apply ValidateNoOverlap_returns. split; [|now apply IH].
    eapply Permutation_Forall; eassumption.
  - apply ValidateNoOverlap_returns in E. destruct E as [Hy E].
    apply ValidateNoOverlap_returns in E. destruct E as [Hx E].
    inversion Hy as [|? ? Hyx Hy']; subst.
    apply ValidateNoOverlap_returns. split.
    + constructor; [now rewrite RectanglesOverlap_sym|assumption].
    + apply ValidateNoOverlap_returns. split; assumption.
  - auto.
Qed.

(** Every panel a factory builds has the dimensions of the factory, and its
    coordinates are those of a spec. *)
Lemma BuildPanels_from_invariant (Q : F -> F -> Prop) (self : PanelFactory)
    (tolerance : F) :
  let built_well p :=
    Q (panel_x p) (panel_y p)
    /\ width p = dim_width (dimensions self)
    /\ height p = dim_height (dimensions self) in
  forall specs acc seen ps,
    BuildPanels_from self tolerance acc seen specs = Returns ps ->
    Forall (fun item => forall x_value y_value,
                spec_x item = Some x_value -> spec_y item = Some y_value ->
                Q x_value y_value) specs ->
    Forall built_well acc ->
    Forall built_well ps.
Proof.
  intros built_well.
  induction specs as [|x l IH]; intros acc seen ps E Hspecs Hacc.
  - cbn [BuildPanels_from] in E. now injection E as <-.
  - rewrite BuildPanels_from_cons in E.
    destruct (checked_panel self tolerance seen x) as [[p seen1]| |] eqn:Ex;
      cbn [bind fst snd] in E; try discriminate E.
    inversion Hspecs as [|? ? Hx Hl]; subst.
    apply (IH _ _ _ E Hl). apply Forall_app. split; [assumption|].
    constructor; [|constructor].
    apply checked_panel_returns in Ex.
    destruct Ex as (xv & yv & Ex & Ey & _ & -> & _). unfold built_well. cbn. auto.
Qed.

(** [BuildPanels] on a permutation of the specs, where the [(y, x)] order is
    a total order on the panels built. *)
Section TotalOrder.
Context (P : @Panel F -> Prop).
Hypothesis order_asym :
  forall a b, P a -> P b -> panel_lt a b = true -> panel_lt b a = false.
Hypothesis order_trans :
  forall a b c, P a -> P b -> P c ->
                panel_lt b a = false -> panel_lt c b = false -> panel_lt c a = false.
Hypothesis order_tricho :
  forall a b, P a -> P b -> panel_lt a b = false -> panel_lt b a = false -> a = b.

Lemma BuildPanels_perm (self : PanelFactory) (specs specs' : list PanelSpec)
    (ps : list Panel) :
  Permutation specs specs' ->
  (forall built,
      BuildPanels_from self (coordinate_tolerance (validation self)) [] [] specs
        = Returns built -> Forall P built) ->
  BuildPanels self specs = Returns ps ->
  BuildPanels self specs' = Returns ps.
Proof.
  intros Hperm HP E. apply BuildPanels_returns in E.
  destruct E as (built & Hbuilt & Hov & ->).
  destruct (BuildPanels_from_perm self _ specs specs' Hperm [] [] [] [] built
              (Permutation_refl _) (fun k => eq_refl) Hbuilt)
    as (built' & Hbuilt' & Hp).
  unfold BuildPanels. rewrite Hbuilt'. cbn [bind].
  assert (Hsort : sort_panels built' = sort_panels built).
  { symmetry. unfold sort_panels.
    apply (sorted_perm panel_lt P order_asym order_trans order_tricho
                       _ _ Hp (HP built Hbuilt)). }
  destruct (allow_overlaps (validation self)); cbn [bind].
  - now rewrite Hsort.
  - rewrite (ValidateNoOverlap_perm self _ built built' Hp (Hov eq_refl)).
    cbn [bind]. now rewrite Hsort.
Qed.

Lemma CalculateLayout_perm (fuel : nat) (self : LayoutCalculator)
    (specs specs' : list PanelSpec) (r : LayoutResult) :
  Permutation specs specs' ->
  (forall built,
      BuildPanels_from (panel_factory self)
        (coordinate_tolerance (validation (panel_factory self))) [] [] specs
        = Returns built -> Forall P built) ->
  CalculateLayout fuel self specs = Returns r ->
  CalculateLayout fuel self specs' = Returns r.
Proof.
  intros Hperm HP E.
  unfold CalculateLayout, CalculateLayoutDetailed in *.
  destruct (BuildPanels (panel_factory self) specs) as [ps| |] eqn:Eb;
    cbn [bind] in E; try discriminate E.
  now rewrite (BuildPanels_perm _ _ _ _ Hperm HP Eb).
Qed.

End TotalOrder.

End PermutedSpecs.

(** * Properties stated by the specification *)

(** ** C1: one panel at (3.0, 0.0) over rafters 200.0 apart *)

(** The run at [binary64], as CPython performs it: the grid is
    [-395, -195, 5, 205, 405], the allowed window of the panel is
    [5, 45.7], the rafter at [5] lies in it, and the error raised is the
    right cantilever one, not the no-rafter one. *)
Lemma C1_not_no_rafter_error :
  BuildGrid 6 (rafter_factory (set_rafter_spacing default_calculator 200%float))
            3%float (3 + 44.7)%float
    = Returns {| positions := [-395; -195; 5; 205; 405]%float |}
  /\ PositionsInRange {| positions := [-395; -195; 5; 205; 405]%float |}
                      (3 + 2)%float (3 + 44.7 - 2)%float = [5%float]
  /\ CalculateLayout 6 (set_rafter_spacing default_calculator 200%float)
                     (single_panel_specs (F := float))
       = Raises (LayoutValidationError (RightCantileverExceeded 3%float))
  /\ ~ (exists allowed_start allowed_end,
          CalculateLayout 6 (set_rafter_spacing default_calculator 200%float)
                          (single_panel_specs (F := float))
            = Raises (LayoutValidationError (NoRafterInSpan allowed_start allowed_end))).
Proof.
  repeat split; try (vm_compute; reflexivity).
  intros (a & b & E). vm_compute in E. discriminate E.
Qed.

(** C1 (amended): with the default configuration except rafter spacing
    200.0, [CalculateLayout] on the single panel spec (3.0, 0.0) raises a
    [LayoutValidationError], and it is the right cantilever one: the grid is
    anchored at [min_x + edge_clearance], so the allowed window of the panel
    holds the rafter at 5.0, and 40.7 of the panel overhang it on the
    right.  Proved at both instances, for every sufficient fuel. *)
Theorem C1_spacing_200_raises_right_cantilever :
  forall fuel, (6 <= fuel)%nat ->
    CalculateLayout fuel (set_rafter_spacing default_calculator (lit 200 0))
                    (single_panel_specs (F := float))
      = Raises (LayoutValidationError (RightCantileverExceeded (lit 3 0)))
    /\ CalculateLayout fuel (set_rafter_spacing default_calculator (lit 200 0))
                       (single_panel_specs (F := Qc))
      = Raises (LayoutValidationError (RightCantileverExceeded (lit 3 0))).
Proof.
  intros fuel Hfuel. split.
  - rewrite (CalculateLayout_mono _ _ 6 fuel Hfuel); vm_compute; [reflexivity|discriminate].
  - rewrite (CalculateLayout_mono _ _ 6 fuel Hfuel); vm_compute; [reflexivity|discriminate].
Qed.

Lemma C1_spacing_200_witness :
  (6 <= 6)%nat
  /\ CalculateLayout 6 (set_rafter_spacing default_calculator (lit 200 0))
                     (single_panel_specs (F := float))
      = Raises (LayoutValidationError (RightCantileverExceeded (lit 3 0))).
Proof.
  split; [lia|].
  exact (proj1 (C1_spacing_200_raises_right_cantilever 6 (le_n 6))).
Defined.

(** ** C2: four panels in a 2x2 grid at exact panel-dimension offsets *)

(** C2: with the default configuration, [CalculateLayout] on the specs
    (0,0), (44.7,0), (0,71.1), (44.7,71.1) returns, and returns exactly the
    3 joints (44.7, 0), (44.7, 71.1), (44.7, 142.2): the row at 0 and the
    row at 71.1 each contribute two joints, the bottom joint of the first is
    the top joint of the second, and it is stored once. *)
Theorem C2_two_by_two_three_joints :
  forall fuel, (11 <= fuel)%nat ->
    (exists r,
        CalculateLayout fuel default_calculator (two_by_two_specs (F := float))
          = Returns r
        /\ JointCount r = 3%nat
        /\ joints r = [ {| joint_x := 44.7; joint_y := 0 |};
                        {| joint_x := 44.7; joint_y := 71.1 |};
                        {| joint_x := 44.7; joint_y := 142.2 |} ]%float
        /\ In {| joint_x := lit 447 1; joint_y := lit 711 1 |} (joints r))
    /\ (exists r,
        CalculateLayout fuel default_calculator (two_by_two_specs (F := Qc))
          = Returns r
        /\ JointCount r = 3%nat
        /\ map joint_fractions (joints r)
           = [ (447 # 10, 0 # 1); (447 # 10, 711 # 10); (447 # 10, 711 # 5) ]%Q)
    /\ (let jc := joint_calculator (default_calculator (F := float)) in
        let at_ x_value y_value :=
          {| panel_x := x_value; panel_y := y_value;
             width := 44.7%float; height := 71.1%float |} in
        pair_joints jc 0%float (at_ 0 0)%float (at_ 44.7 0)%float
          = [ {| joint_x := 44.7; joint_y := 0 |};
              {| joint_x := 44.7; joint_y := 71.1 |} ]%float
        /\ pair_joints jc 71.1%float (at_ 0 71.1)%float (at_ 44.7 71.1)%float
          = [ {| joint_x := 44.7; joint_y := 71.1 |};
              {| joint_x := 44.7; joint_y := 142.2 |} ]%float).
Proof.
  intros fuel Hfuel. split; [|split].
  - destruct (CalculateLayout 11 default_calculator (two_by_two_specs (F := float)))
      as [r| |] eqn:E; [|vm_compute in E; discriminate E..].
    exists r. split.
    + rewrite (CalculateLayout_mono _ _ 11 fuel Hfuel); rewrite E; [reflexivity|discriminate].
    + clear fuel Hfuel. vm_compute in E. injection E as <-.
      repeat split; vm_compute; auto.
  - destruct (CalculateLayout 11 default_calculator (two_by_two_specs (F := Qc)))
      as [r| |] eqn:E; [|vm_compute in E; discriminate E..].
    exists r. split.
    + rewrite (CalculateLayout_mono _ _ 11 fuel Hfuel); rewrite E; [reflexivity|discriminate].
    + clear fuel Hfuel. vm_compute in E. injection E as <-.
      split; vm_compute; reflexivity.
  - vm_compute. split; reflexivity.
Qed.

Lemma C2_two_by_two_witness :
  (11 <= 11)%nat
  /\ exists r,
      CalculateLayout 11 default_calculator (two_by_two_specs (F := float)) = Returns r
      /\ JointCount r = 3%nat.
Proof.
  split; [lia|].
  destruct (proj1 (C2_two_by_two_three_joints 11 (le_n 11))) as (r & E & Hn & _).
  exists r. split; assumption.
Defined.

(** ** C3: where the mounts lie *)

Section MountsClaim.
Context {F : Type} `{PyFloat F}.

(** C3: on every successful run of [CalculateLayoutDetailed], the [x] of
    every mount of the result is an element of the positions of the grid
    that was built (they are the [rafters] of the context), and its [y] is
    the [y] or the [BottomEdge] of one of the returned panels. *)
Theorem C3_mounts_on_rafters_and_panel_edges (fuel : nat) (self : LayoutCalculator)
    (specs : list PanelSpec) (context : LayoutContext) :
  CalculateLayoutDetailed fuel self specs = Returns context ->
  exists panel_0 others grid,
    panels context = panel_0 :: others
    /\ BuildGrid fuel (rafter_factory self)
                 (min_of (panel_x panel_0) (map panel_x others))
                 (max_of (RightEdge panel_0) (map RightEdge others)) = Returns grid
    /\ rafters context = positions grid
    /\ Forall (fun m =>
                 In (mount_x m) (positions grid)
                 /\ exists p, In p (panels context)
                              /\ (mount_y m = panel_y p \/ mount_y m = BottomEdge p))
              (mounts (result context)).
Proof.
  intros E. apply CalculateLayoutDetailed_returns in E.
  destruct E as (p0 & ps & grid & _ & Hps & Hg & Hr & Hm & _).
  exists p0, ps, grid. repeat split; try assumption.
  apply CalculateMounts_returns in Hm. rewrite Hm.
  apply Forall_forall. intros m Hin.
  apply in_flat_map in Hin. destruct Hin as (p & Hp & Hin).
  unfold top_mounts, bottom_mounts, selected_rafters, PositionsInRange in Hin.
  apply in_app_or in Hin.
  destruct Hin as [Hin|Hin]; apply in_map_iff in Hin;
    destruct Hin as (v & <- & Hv); apply filter_In in Hv; destruct Hv as [Hv _];
    simpl; (split; [assumption|exists p; split; [assumption|auto]]).
Qed.

End MountsClaim.

Lemma C3_mounts_witness :
  exists context,
    CalculateLayoutDetailed 11 default_calculator (two_by_two_specs (F := float))
      = Returns context
    /\ Forall (fun m => In (mount_x m) (rafters context)) (mounts (result context)).
Proof.
  assert (E : exists context,
             CalculateLayoutDetailed 11 default_calculator (two_by_two_specs (F := float))
               = Returns context)
    by (eexists; vm_compute; reflexivity).
  destruct E as [context E]. exists context. split; [exact E|].
  destruct (C3_mounts_on_rafters_and_panel_edges _ _ _ _ E)
    as (p0 & ps & grid & _ & _ & Hr & Hm).
  apply Forall_forall. intros m Hin.
  rewrite Forall_forall in Hm. destruct (Hm m Hin) as [Hx _].
  rewrite Hr. exact Hx.
Defined.

(** ** C4: the gap threshold *)

(** C4: for an adjacent pair [(left, right)] of a row with
    [gap = right.x - left.RightEdge()], [CalculateJoints] emits nothing when
    [gap >= horizontal_gap_threshold] and emits the top and the bottom joint
    of the pair otherwise, in particular when the gap is strictly below the
    threshold; a joint of the output was emitted for some adjacent pair of
    some row whose gap is below the threshold, and where [==] is equality
    every emitted joint is in the output.  With the default threshold 1.0,
    two panels of one row at a gap of exactly 1.0 give no joint, and at a
    gap of 0.5 they give two. *)
Theorem C4_gap_threshold :
  (forall (F : Type) (PF : PyFloat F) (self : JointCalculator) (row_key : F)
          (left_panel right_panel : Panel),
      let gap := fsub (panel_x right_panel) (RightEdge left_panel) in
      let seam_x := fdiv (fadd (RightEdge left_panel) (panel_x right_panel)) (lit 2 0) in
      (fleb (horizontal_gap_threshold self) gap = true ->
       pair_joints self row_key left_panel right_panel = [])
      /\ (fleb (horizontal_gap_threshold self) gap = false ->
          pair_joints self row_key left_panel right_panel
          = [ {| joint_x := round4 seam_x; joint_y := round4 row_key |};
              {| joint_x := round4 seam_x;
                 joint_y := round4 (fadd row_key (height left_panel)) |} ]))
  /\ (forall gap threshold : float,
         fltb gap threshold = true -> fleb threshold gap = false)
  /\ (forall gap threshold : Qc,
         fltb gap threshold = true <-> fleb threshold gap = false)
  /\ (forall (F : Type) (PF : PyFloat F) (self : JointCalculator)
             (ps : list Panel) (j : Joint),
         In j (CalculateJoints self ps) ->
         exists row_key row_panels left_panel right_panel,
           In (row_key, row_panels) (group_rows self ps)
           /\ In (left_panel, right_panel) (adjacent_pairs (sort_row row_panels))
           /\ fleb (horizontal_gap_threshold self)
                   (fsub (panel_x right_panel) (RightEdge left_panel)) = false
           /\ In j (pair_joints self row_key left_panel right_panel))
  /\ (forall (self : JointCalculator (F := Qc)) (ps : list Panel)
             (row_key : Qc) (row_panels : list Panel)
             (left_panel right_panel : Panel) (j : Joint),
         In (row_key, row_panels) (group_rows self ps) ->
         In (left_panel, right_panel) (adjacent_pairs (sort_row row_panels)) ->
         In j (pair_joints self row_key left_panel right_panel) ->
         In j (CalculateJoints self ps))
  /\ (let jc := joint_calculator (default_calculator (F := float)) in
      let at_ x_value y_value :=
        {| panel_x := x_value; panel_y := y_value;
           width := 44.7%float; height := 71.1%float |} in
      horizontal_gap_threshold jc = 1%float
      /\ (45.7 - RightEdge (at_ 0 0))%float = 1%float
      /\ CalculateJoints jc [at_ 0 0; at_ 45.7 0]%float = []
      /\ (45.2 - RightEdge (at_ 0 0) <? 1)%float = true
      /\ CalculateJoints jc [at_ 0 0; at_ 45.2 0]%float
         = [ {| joint_x := 44.95; joint_y := 0 |};
             {| joint_x := 44.95; joint_y := 71.1 |} ]%float).
Proof.
  split; [|split; [|split; [|split; [|split]]]].
  - intros F PF self row_key l r. apply pair_joints_spec.
  - intros gap threshold. apply binary64_lt_not_ge.
  - intros gap threshold. simpl. unfold Exact.Qc_ltb.
    destruct (Qle_bool threshold gap); simpl; intuition congruence.
  - intros F PF self ps j Hin. apply CalculateJoints_sound in Hin.
    destruct Hin as (k & rp & l & r & Hr & Hp & Hj).
    exists k, rp, l, r. repeat split; try assumption.
    now apply pair_joints_In_gap in Hj.
  - intros self ps k rp l r j Hr Hp Hj.
    apply (CalculateJoints_complete exact_feqb_eq).
    exists k, rp, l, r. auto.
  - vm_compute. repeat split; reflexivity.
Qed.

(** ** C5: the order of the specs does not matter *)

(** C5: if [CalculateLayout] accepts a list of specs it accepts every
    permutation of the list and returns the same joints (and the same
    mounts).  Proved in exact arithmetic, and at [binary64] for specs whose
    coordinates are neither NaN nor the negative zero; the two panels (0,0)
    and (44.7,0) give the joints (44.7, 0) and (44.7, 71.1) in either
    order. *)
Theorem C5_joints_independent_of_spec_order :
  (forall (fuel : nat) (self : LayoutCalculator (F := Qc))
          (specs specs' : list PanelSpec) (r : LayoutResult),
      Permutation specs specs' ->
      CalculateLayout fuel self specs = Returns r ->
      exists r',
        CalculateLayout fuel self specs' = Returns r'
        /\ joints r' = joints r /\ mounts r' = mounts r)
  /\ (forall (fuel : nat) (self : LayoutCalculator (F := float))
             (specs specs' : list PanelSpec) (r : LayoutResult),
         Permutation specs specs' ->
         Forall Binary64Order.ordinary_spec specs ->
         CalculateLayout fuel self specs = Returns r ->
         exists r',
           CalculateLayout fuel self specs' = Returns r'
           /\ joints r' = joints r /\ mounts r' = mounts r)
  /\ (exists r,
         CalculateLayout 11 default_calculator (two_by_two_specs (F := Qc)) = Returns r)
  /\ (exists r r',
         Forall Binary64Order.ordinary_spec [spec_at 0 0; spec_at 44.7 0]%float
         /\ CalculateLayout 11 default_calculator [spec_at 0 0; spec_at 44.7 0]%float
            = Returns r
         /\ CalculateLayout 11 default_calculator [spec_at 44.7 0; spec_at 0 0]%float
            = Returns r'
         /\ joints r' = joints r
         /\ joints r = [ {| joint_x := 44.7; joint_y := 0 |};
                         {| joint_x := 44.7; joint_y := 71.1 |} ]%float).
Proof.
  split; [|split; [|split]].
  - intros fuel self specs specs' r Hperm E. exists r.
    split; [|split; reflexivity].
    apply (CalculateLayout_perm
             (fun p => width p = dim_width (dimensions (panel_factory self))
                       /\ height p = dim_height (dimensions (panel_factory self)))
             (fun a b _ _ => OrderFacts.exact_panel_lt_asym a b)
             (fun a b c _ _ _ => OrderFacts.exact_panel_le_trans a b c)
             (OrderFacts.exact_panel_lt_tricho _ _) fuel self specs specs' r Hperm);
      [|exact E].
    intros built Hbuilt.
    pose proof (BuildPanels_from_invariant (fun _ _ => True) _ _ specs [] [] built
                  Hbuilt) as Hinv.
    cbv zeta in Hinv.
    eapply Forall_impl; [|apply Hinv; [apply Forall_forall; auto|constructor]].
    cbv beta. tauto.
  - intros fuel self specs specs' r Hperm Hord E. exists r.
    split; [|split; reflexivity].
    apply (CalculateLayout_perm
             (Binary64Order.ordinary_panel
                (dim_width (dimensions (panel_factory self)))
                (dim_height (dimensions (panel_factory self))))
             (Binary64OrderFacts.binary64_panel_lt_asym _ _)
             (Binary64OrderFacts.binary64_panel_le_trans _ _)
             (Binary64OrderFacts.binary64_panel_lt_tricho _ _) fuel self specs specs' r Hperm);
      [|exact E].
    intros built Hbuilt.
    pose proof (BuildPanels_from_invariant
                  (fun x_value y_value =>
                     Binary64Order.ordinary x_value = true
                     /\ Binary64Order.ordinary y_value = true)
                  _ _ specs [] [] built Hbuilt Hord) as Hinv.
    cbv zeta in Hinv.
    eapply Forall_impl; [|apply Hinv; constructor].
    cbv beta. unfold Binary64Order.ordinary_panel. tauto.
  - destruct (CalculateLayout 11 default_calculator (two_by_two_specs (F := Qc)))
      as [r| |] eqn:E; [|vm_compute in E; discriminate E..].
    now exists r.
  - do 2 eexists. split.
    { apply Forall_cons; [|apply Forall_cons; [|apply Forall_nil]];
        intros x_value y_value Ex Ey;
        injection Ex as <-; injection Ey as <-; vm_compute; auto. }
    split; [vm_compute; reflexivity|].
    split; [vm_compute; reflexivity|]. split; vm_compute; reflexivity.
Qed.

(** ** C6: order of the grid positions *)


(** The default grid under two panels side by side, at [binary64]: the
    first loop stops at [-30], in [(0 - 32, 0 - 16]], and the positions are
    strictly ascending. *)
Lemma binary64_default_grid :
  walk_back 3 (rafter_factory (default_calculator (F := float))) 0%float (0 + 2)%float
    = Some (-30)%float
  /\ BuildGrid 11 (rafter_factory (default_calculator (F := float)))
               0%float (44.7 + 44.7)%float
     = Returns {| positions := [-30; -14; 2; 18; 34; 50; 66; 82; 98; 114]%float |}.
Proof. split; vm_compute; reflexivity. Qed.

(** At [binary64] a spacing above 0.0001 does not keep the stored positions
    apart where the doubles are coarse: near [2e11] they are [2^-15] apart,
    and with spacing 0.000105 two neighbouring positions of the walk round
    to the same double, [200000000000.00049]. *)
Lemma binary64_equal_positions_at_2e11 :
  exists grid,
    BuildGrid 17 {| spacing := 0.000105%float; rafter_edge_clearance := 0%float |}
              2e11%float 200000000000.001%float = Returns grid
    /\ nth 7 (positions grid) 0%float = 200000000000.00049%float
    /\ nth 8 (positions grid) 0%float = 200000000000.00049%float.
Proof.
  destruct (BuildGrid 17 {| spacing := 0.000105%float;
                            rafter_edge_clearance := 0%float |}
                      2e11%float 200000000000.001%float)
    as [grid| |] eqn:E; [|vm_compute in E; discriminate E..].
  exists grid. split; [reflexivity|].
  vm_compute in E. injection E as <-. split; reflexivity.
Qed.

(** In the arithmetic of the rationals, for every spacing > 0 and every
    extent with [min_x <= max_x], [BuildGrid] returns a grid, and the
    positions of a returned grid are in ascending order, equal neighbours
    allowed; when the spacing exceeds 0.0001 they are strictly ascending. *)
Lemma BuildGrid_exact_ascending (self : RafterFactory (F := Qc)) (min_x max_x : Qc) :
  (0 < spacing self)%Qc -> (min_x <= max_x)%Qc ->
  (exists fuel grid, BuildGrid fuel self min_x max_x = Returns grid)
  /\ (forall fuel grid,
        BuildGrid fuel self min_x max_x = Returns grid ->
        StronglySorted Qcle (positions grid)
        /\ ((lit 1 4 < spacing self)%Qc ->
            StronglySorted Qclt (positions grid) /\ NoDup (positions grid))).
Proof.
  intros Hs Hle. split.
  - destruct (GridRuns.BuildGrid_exact_returns self min_x max_x Hs Hle)
      as (fuel & first & rest & Hrun & _).
    exists fuel, {| positions := round4 first :: rest |}.
    apply (Hrun fuel (le_n fuel)).
  - intros fuel grid E.
    apply GridRuns.BuildGrid_positions_stepped in E.
    destruct E as (first & _ & Hps). split.
    + apply (GridFacts.stepped_sorted self _ Hs _ _ Hps).
    + intros Hbig.
      assert (Hst : StronglySorted Qclt (positions grid)).
      { refine (proj2 (GridFacts.stepped_strictly_sorted self _ _ _ _ Hps)).
        unfold Qclt in Hbig. rewrite ExactFacts.this_lit in Hbig. exact Hbig. }
      split; [exact Hst|now apply GridRuns.StronglySorted_Qclt_NoDup].
Qed.



(** ** C7: the "NoPanels" error *)

Section NoPanelsClaim.
Context {F : Type} `{PyFloat F}.

(** C7: [CalculateLayoutDetailed], and so [CalculateLayout], raises
    [LayoutValidationError] "At least one panel must be supplied." exactly
    when the panel list is empty after validation, which is exactly when the
    spec sequence is empty; on a non-empty validated panel list it goes on
    to build the grid, the mounts and the joints. *)
Theorem C7_no_panels_iff_empty (fuel : nat) (self : LayoutCalculator) :
  CalculateLayoutDetailed fuel self [] = Raises (LayoutValidationError NoPanels)
  /\ CalculateLayout fuel self [] = Raises (LayoutValidationError NoPanels)
  /\ (forall specs,
        CalculateLayoutDetailed fuel self specs = Raises (LayoutValidationError NoPanels)
        <-> BuildPanels (panel_factory self) specs = Returns [])
  /\ (forall specs,
        CalculateLayout fuel self specs = Raises (LayoutValidationError NoPanels)
        <-> BuildPanels (panel_factory self) specs = Returns [])
  /\ (forall specs,
        BuildPanels (panel_factory self) specs = Returns [] <-> specs = [])
  /\ (forall specs panel_0 others,
        BuildPanels (panel_factory self) specs = Returns (panel_0 :: others) ->
        CalculateLayoutDetailed fuel self specs
        = let panels := panel_0 :: others in
          let* grid := BuildGrid fuel (rafter_factory self)
                         (min_of (panel_x panel_0) (map panel_x others))
                         (max_of (RightEdge panel_0) (map RightEdge others)) in
          let* mounts := CalculateMounts (mount_calculator self) panels grid in
          Returns {| result :=
                       {| mounts := mounts;
                          joints := CalculateJoints (joint_calculator self) panels |};
                     panels := panels;
                     rafters := positions grid |}).
Proof.
  assert (Hempty : BuildPanels (panel_factory self) [] = Returns []).
  { unfold BuildPanels. simpl. destruct (allow_overlaps _); reflexivity. }
  assert (Hdetailed : forall specs,
             CalculateLayoutDetailed fuel self specs
               = Raises (LayoutValidationError NoPanels)
             <-> BuildPanels (panel_factory self) specs = Returns []).
  { intros specs. unfold CalculateLayoutDetailed. split.
    - intros E.
      destruct (BuildPanels (panel_factory self) specs) as [[|p0 ps]| |] eqn:Eb;
        simpl in E.
      + reflexivity.
      + exfalso.
        destruct (BuildGrid _ _ _ _) eqn:Eg; simpl in E.
        * unfold CalculateMounts in E.
          destruct (CalculateMounts_from _ _ _ _) eqn:Em; simpl in E;
            try discriminate E.
          injection E as ->. now apply CalculateMounts_from_not_NoPanels in Em.
        * injection E as ->. now apply BuildGrid_not_NoPanels in Eg.
        * discriminate E.
      + exfalso. injection E as ->. now apply BuildPanels_not_NoPanels in Eb.
      + discriminate E.
    - intros ->. reflexivity. }
  repeat split.
  - unfold CalculateLayoutDetailed. now rewrite Hempty.
  - unfold CalculateLayout, CalculateLayoutDetailed. now rewrite Hempty.
  - apply Hdetailed.
  - apply Hdetailed.
  - intros E. apply Hdetailed. unfold CalculateLayout in E.
    destruct (CalculateLayoutDetailed fuel self specs); simpl in E;
      [discriminate E|now injection E as ->|discriminate E].
  - intros E. apply Hdetailed in E. unfold CalculateLayout. now rewrite E.
  - intros E. apply BuildPanels_length in E. destruct specs; [reflexivity|discriminate E].
  - intros ->. exact Hempty.
  - intros specs p0 ps E. unfold CalculateLayoutDetailed. rewrite E. reflexivity.
Qed.

End NoPanelsClaim.

(** ** C8: termination of [BuildGrid] and the rafter left of the panels *)


(** At [binary64] a step can be absorbed: at [1e17] doubles are 16 apart,
    [1e17 + 1.0] is [1e17] again, and the second loop of [BuildGrid] never
    reaches its limit. *)
Lemma binary64_walk_forward_absorbed :
  forall fuel,
    BuildGrid fuel {| spacing := 1%float; rafter_edge_clearance := 2%float |}
              1e17%float 1e17%float = OutOfFuel.
Proof.
  assert (G : forall fuel acc,
             walk_forward fuel {| spacing := 1%float; rafter_edge_clearance := 2%float |}
                          1e17%float acc 1e17%float = None).
  { induction fuel as [|fuel IH]; intros acc; [reflexivity|].
    rewrite walk_forward_S.
    replace (fleb 1e17%float 1e17%float) with true by (vm_compute; reflexivity).
    replace (fadd 1e17%float
               (spacing {| spacing := 1%float; rafter_edge_clearance := 2%float |}))
      with 1e17%float by (vm_compute; reflexivity).
    apply IH. }
  intros fuel. unfold BuildGrid.
  replace (fltb 1e17%float 1e17%float) with false by (vm_compute; reflexivity).
  replace (fadd 1e17%float
             (rafter_edge_clearance
                {| spacing := 1%float; rafter_edge_clearance := 2%float |}))
    with 1e17%float by (vm_compute; reflexivity).
  destruct fuel as [|fuel]; [reflexivity|].
  cbn [walk_back].
  replace (fltb _ _) with false by (vm_compute; reflexivity).
  replace (fadd 1e17%float
             (fmul (spacing {| spacing := 1%float; rafter_edge_clearance := 2%float |})
                   (lit 2 0)))
    with 1e17%float by (vm_compute; reflexivity).
  now rewrite G.
Qed.

(** At [binary64], where the doubles are coarse, a spacing above 0.00005
    does not put a stored position left of [min_x]: with spacing 0.0000505
    and the extent [2e10, 2e10] the first loop stops left of [min_x], at
    [19999999999.99995], but that position is stored as [20000000000.0]. *)
Lemma binary64_no_position_left_at_2e10 :
  walk_back 3 {| spacing := 0.0000505%float; rafter_edge_clearance := 0%float |}
            2e10%float (2e10 + 0)%float = Some 19999999999.99995%float
  /\ exists grid,
       BuildGrid 5 {| spacing := 0.0000505%float; rafter_edge_clearance := 0%float |}
                 2e10%float 2e10%float = Returns grid
       /\ existsb (fun p => fltb p 2e10%float) (positions grid) = false.
Proof.
  split; [vm_compute; reflexivity|].
  destruct (BuildGrid 5 {| spacing := 0.0000505%float;
                           rafter_edge_clearance := 0%float |}
                      2e10%float 2e10%float)
    as [grid| |] eqn:E; [|vm_compute in E; discriminate E..].
  exists grid. split; [reflexivity|].
  vm_compute in E. injection E as <-. vm_compute. reflexivity.
Qed.

(** In the arithmetic of the rationals, for every spacing > 0, clearance
    >= 0 and [min_x <= max_x], both loops of [BuildGrid] end; the first grid
    position, before rounding, lies in [(min_x - 2*spacing, min_x - spacing]];
    the returned grid is not empty and starts with the rounding of that
    position, which is strictly left of [min_x] when the spacing exceeds
    0.00005. *)
Lemma BuildGrid_exact_terminates (self : RafterFactory (F := Qc)) (min_x max_x : Qc) :
  (0 < spacing self)%Qc -> (0 <= rafter_edge_clearance self)%Qc ->
  (min_x <= max_x)%Qc ->
  exists fuel first rest,
    (forall fuel', (fuel <= fuel')%nat ->
       walk_back fuel' self min_x (fadd min_x (rafter_edge_clearance self)) = Some first
       /\ walk_forward fuel' self (fadd max_x (fmul (spacing self) (lit 2 0))) [] first
          = Some (round4 first :: rest)
       /\ BuildGrid fuel' self min_x max_x
          = Returns {| positions := round4 first :: rest |})
    /\ (fsub min_x (fmul (spacing self) (lit 2 0)) < first)%Qc
    /\ (first <= fsub min_x (spacing self))%Qc
    /\ ((lit 5 5 < spacing self)%Qc -> (round4 first < min_x)%Qc).
Proof.
  intros Hs Hec Hle.
  destruct (GridRuns.BuildGrid_exact_returns self min_x max_x Hs Hle)
    as (fuel & first & rest & Hrun & Hub & Hlb).
  exists fuel, first, rest. split; [|split; [|split]].
  - intros fuel' Hfuel. destruct (Hrun fuel' Hfuel) as [Hback Hgrid].
    split; [exact Hback|]. split; [|exact Hgrid].
    unfold BuildGrid in Hgrid.
    destruct (fltb max_x min_x); [discriminate Hgrid|].
    rewrite Hback in Hgrid.
    destruct (walk_forward _ _ _ _ _) as [ps|]; [|discriminate Hgrid].
    now injection Hgrid as ->.
  - exact (Hlb Hec).
  - exact Hub.
  - intros Hbig. unfold Qclt, Qcle in *.
    rewrite ExactFacts.this_lit in Hbig. rewrite ExactFacts.this_fsub in Hub.
    pose proof (ExactFacts.round4_near first) as Hnear.
    change (5 # Z.to_pos (10 ^ Z.of_nat 5))%Q with (5 # 100000)%Q in Hbig.
    lra.
Qed.



(** ** C9: order of the mounts *)

(** C9: on every successful run the mounts are the concatenation, over the
    returned panels in their order, that is the [(y, x)] sort of the panels
    built from the specs, of the top mounts of the panel followed by its
    bottom mounts, each at the rafters under the panel in grid order; in
    exact arithmetic the panels are ascending in [(y, x)] and the rafters
    under a panel ascending in [x], and at [binary64] the panels are
    ascending in [(y, x)] when no coordinate of a spec is a NaN or the
    negative zero.  For the two panels (0,0) and (44.7,0)
    the sequence of mounts is not sorted by [(y, x)]: the bottom mounts of
    the first panel, at y = 71.1, stand before the top mounts of the second,
    at y = 0. *)
Theorem C9_mounts_grouped_by_panel :
  (forall (F : Type) (PF : PyFloat F) (fuel : nat) (self : LayoutCalculator)
          (specs : list PanelSpec) (context : LayoutContext),
      CalculateLayoutDetailed fuel self specs = Returns context ->
      exists built,
        BuildPanels_from (panel_factory self)
          (coordinate_tolerance (validation (panel_factory self))) [] [] specs
          = Returns built
        /\ panels context = sort_panels built
        /\ mounts (result context)
           = flat_map (fun p =>
                         top_mounts (mount_calculator self)
                                    {| positions := rafters context |} p
                         ++ bottom_mounts (mount_calculator self)
                                          {| positions := rafters context |} p)
                      (panels context))
  /\ (forall (fuel : nat) (self : LayoutCalculator (F := Qc))
             (specs : list PanelSpec) (context : LayoutContext),
         CalculateLayoutDetailed fuel self specs = Returns context ->
         StronglySorted (fun a b => panel_lt b a = false) (panels context)
         /\ forall p, StronglySorted Qcle
                        (selected_rafters (mount_calculator self)
                                          {| positions := rafters context |} p))
  /\ (forall (fuel : nat) (self : LayoutCalculator (F := float))
             (specs : list PanelSpec) (context : LayoutContext),
         Forall Binary64Order.ordinary_spec specs ->
         CalculateLayoutDetailed fuel self specs = Returns context ->
         StronglySorted (fun a b => panel_lt b a = false) (panels context))
  /\ (exists r,
         CalculateLayout 11 default_calculator
           [spec_at 0 0; spec_at 44.7 0]%float = Returns r
         /\ mounts r
            = [ {| mount_x := 2; mount_y := 0 |}; {| mount_x := 18; mount_y := 0 |};
                {| mount_x := 34; mount_y := 0 |};
                {| mount_x := 2; mount_y := 71.1 |}; {| mount_x := 18; mount_y := 71.1 |};
                {| mount_x := 34; mount_y := 71.1 |};
                {| mount_x := 50; mount_y := 0 |}; {| mount_x := 66; mount_y := 0 |};
                {| mount_x := 82; mount_y := 0 |};
                {| mount_x := 50; mount_y := 71.1 |}; {| mount_x := 66; mount_y := 71.1 |};
                {| mount_x := 82; mount_y := 71.1 |} ]%float
         /\ ascending mount_lt (mounts r) = false).
Proof.
  split; [|split; [|split]].
  - intros F PF fuel self specs context E.
    apply CalculateLayoutDetailed_returns in E.
    destruct E as (p0 & ps & grid & Hb & Hps & _ & Hr & Hm & _).
    apply BuildPanels_returns in Hb. destruct Hb as (built & Hbuilt & _ & Hsort).
    exists built. split; [exact Hbuilt|]. split; [congruence|].
    apply CalculateMounts_returns in Hm. rewrite Hm, Hr. now destruct grid.
  - intros fuel self specs context E.
    apply CalculateLayoutDetailed_returns in E.
    destruct E as (p0 & ps & grid & Hb & Hps & Hg & Hr & _).
    apply BuildPanels_returns in Hb. destruct Hb as (built & _ & _ & Hsort).
    split.
    + rewrite Hps, Hsort. unfold sort_panels.
      apply (sorted_StronglySorted panel_lt (fun _ => True)
               (fun a b _ _ => OrderFacts.exact_panel_lt_asym a b)
               (fun a b c _ _ _ => OrderFacts.exact_panel_le_trans a b c)).
      apply Forall_forall. auto.
    + intros p. unfold selected_rafters, PositionsInRange.
      apply StronglySorted_filter. cbn [positions]. rewrite Hr.
      apply (BuildGrid_exact_sorted _ _ _ _ _ Hg).
  - intros fuel self specs context Hord E.
    apply CalculateLayoutDetailed_returns in E.
    destruct E as (p0 & ps & grid & Hb & Hps & _).
    apply BuildPanels_returns in Hb. destruct Hb as (built & Hbuilt & _ & Hsort).
    rewrite Hps, Hsort. unfold sort_panels.
    apply (sorted_StronglySorted panel_lt
             (Binary64Order.ordinary_panel
                (dim_width (dimensions (panel_factory self)))
                (dim_height (dimensions (panel_factory self))))
             (Binary64OrderFacts.binary64_panel_lt_asym _ _)
             (Binary64OrderFacts.binary64_panel_le_trans _ _)).
    pose proof (BuildPanels_from_invariant
                  (fun x_value y_value =>
                     Binary64Order.ordinary x_value = true
                     /\ Binary64Order.ordinary y_value = true)
                  _ _ specs [] [] built Hbuilt Hord) as Hinv.
    cbv zeta in Hinv.
    eapply Forall_impl; [|apply Hinv; constructor].
    cbv beta. unfold Binary64Order.ordinary_panel. tauto.
  - eexists. split; [vm_compute; reflexivity|].
    split; vm_compute; reflexivity.
Qed.

(** ** C10: fewer than two panels give no joint *)

Section FewPanelsClaim.
Context {F : Type} `{PyFloat F}.

(** C10: on a sequence of fewer than two panels, [CalculateJoints] returns
    the empty list, whatever the configuration ([CalculateJoints] has no
    way to raise). *)
Theorem C10_fewer_than_two_panels_no_joint (self : JointCalculator)
    (ps : list Panel) :
  (length ps < 2)%nat -> CalculateJoints self ps = [].
Proof.
  intros Hlen.
  destruct ps as [|p [|q ps]]; [reflexivity|reflexivity|simpl in Hlen; lia].
Qed.

End FewPanelsClaim.

Lemma C10_fewer_than_two_witness :
  (length [ {| panel_x := 3; panel_y := 0; width := 44.7; height := 71.1 |}%float ] < 2)%nat
  /\ CalculateJoints (joint_calculator default_calculator)
       [ {| panel_x := 3; panel_y := 0; width := 44.7; height := 71.1 |}%float ] = [].
Proof.
  split; [simpl; lia|].
  apply C10_fewer_than_two_panels_no_joint. simpl. lia.
Defined.

(** * Further properties of the code *)

(** ** Mounts: what [CalculateMounts] has checked, and how many it returns *)

Section MountFacts.
Context {F : Type} `{PyFloat F}.

Lemma existsb_false_Forall {A : Type} (f : A -> bool) (l : list A) :
  existsb f l = false <-> Forall (fun a => f a = false) l.
Proof.
  induction l as [|a l IH]; simpl.
  - split; [constructor|reflexivity].
  - rewrite orb_false_iff, IH. split.
    + intros [Ha Hl]. now constructor.
    + intros Hall. inversion Hall. now split.
Qed.

Lemma CalculatePanelMounts_within_limits (self : MountCalculator) (grid : RafterGrid)
    (panel : Panel) :
  (exists ms, _CalculatePanelMounts self panel grid = Returns ms)
  <-> within_limits self grid panel.
Proof.
  unfold within_limits, _CalculatePanelMounts, selected_rafters.
  destruct (PositionsInRange grid _ _) as [|r0 rs] eqn:E.
  - split; [intros [ms Hms]; discriminate Hms|].
    intros (r & o & Hsel & _). discriminate Hsel.
  - destruct (fltb (cantilever_limit self) _) eqn:Eleft.
    { split; [intros [ms Hms]; discriminate Hms|].
      intros (r & o & Hsel & Hl & _). injection Hsel as <- <-. congruence. }
    destruct (fltb (cantilever_limit self)
                   (fsub (fsub (RightEdge panel) (edge_clearance self)) _)) eqn:Eright.
    { split; [intros [ms Hms]; discriminate Hms|].
      intros (r & o & Hsel & _ & Hr & _). injection Hsel as <- <-. congruence. }
    destruct (existsb _ _) eqn:Espan.
    { split; [intros [ms Hms]; discriminate Hms|].
      intros (r & o & Hsel & _ & _ & Hs). injection Hsel as <- <-.
      apply existsb_exists in Espan. destruct Espan as ([a b] & Hin & Hab).
      rewrite Forall_forall in Hs. specialize (Hs _ Hin). simpl in Hs. congruence. }
    split; [|intros _; eexists; reflexivity].
    intros _. exists r0, rs. repeat split; try assumption.
    apply existsb_false_Forall in Espan.
    eapply Forall_impl; [|exact Espan]. intros [a b] Hab. exact Hab.
Qed.

Lemma CalculateMounts_from_within_limits (self : MountCalculator) (grid : RafterGrid) :
  forall (ps : list Panel) acc,
    (exists ms, CalculateMounts_from self grid acc ps = Returns ms)
    <-> Forall (within_limits self grid) ps.
Proof.
  induction ps as [|p ps IH]; intros acc.
  - split; [constructor|]. intros _. eexists. reflexivity.
  - cbn [CalculateMounts_from]. split.
    + intros [ms Hms].
      destruct (_CalculatePanelMounts self p grid) as [pm| |] eqn:Ep;
        try discriminate Hms.
      cbn [bind] in Hms. constructor.
      * apply CalculatePanelMounts_within_limits. now exists pm.
      * apply (IH (acc ++ pm)). now exists ms.
    + intros Hall. inversion Hall as [|? ? Hp Hps]; subst.
      apply CalculatePanelMounts_within_limits in Hp. destruct Hp as [pm Hpm].
      rewrite Hpm. cbn [bind]. now apply IH.
Qed.

Lemma flat_map_length_sum {A B : Type} (f : A -> list B) (l : list A) :
  length (flat_map f l) = list_sum (map (fun a => length (f a)) l).
Proof.
  induction l as [|a l IH]; [reflexivity|].
  simpl. now rewrite length_app, IH.
Qed.

Lemma list_sum_at_least {A : Type} (f : A -> nat) (n : nat) (l : list A) :
  Forall (fun a => (n <= f a)%nat) l -> (n * length l <= list_sum (map f l))%nat.
Proof.
  induction 1 as [|a l Ha Hl IH]; simpl; lia.
Qed.

End MountFacts.

Section MountProperties.
Context {F : Type} `{PyFloat F}.

(** X1: [CalculateMounts] returns exactly when every panel is within the
    limits: a rafter lies under it, the left and the right cantilever do not
    exceed [cantilever_limit], and no two neighbouring rafters under it are
    more than [span_limit + 1e-6] apart; so every panel of a layout that
    [CalculateLayoutDetailed] returns is within the limits. *)
Theorem X1_mounts_returned_iff_within_limits :
  (forall (self : MountCalculator) (ps : list Panel) (grid : RafterGrid),
      (exists ms, CalculateMounts self ps grid = Returns ms)
      <-> Forall (within_limits self grid) ps)
  /\ (forall (fuel : nat) (self : LayoutCalculator) (specs : list PanelSpec)
             (context : LayoutContext),
         CalculateLayoutDetailed fuel self specs = Returns context ->
         Forall (within_limits (mount_calculator self)
                               {| positions := rafters context |})
                (panels context)).
Proof.
  split.
  - intros self ps grid. apply CalculateMounts_from_within_limits.
  - intros fuel self specs context E.
    apply CalculateLayoutDetailed_returns in E.
    destruct E as (p0 & ps & grid & _ & _ & _ & Hr & Hm & _).
    destruct grid as [gp]. cbn [positions] in Hr. rewrite Hr.
    apply (CalculateMounts_from_within_limits _ _ _ []).
    eexists. exact Hm.
Qed.

(** X2: the number of mounts of a returned layout is twice the number of
    rafters under its panels, each panel counted with its own rafters: it is
    even, a rafter under two panels carries mounts of both, and as every
    accepted panel has a rafter under it there are at least two mounts for
    each spec. *)
Theorem X2_mount_count (fuel : nat) (self : LayoutCalculator)
    (specs : list PanelSpec) (context : LayoutContext) :
  CalculateLayoutDetailed fuel self specs = Returns context ->
  let under p :=
    length (selected_rafters (mount_calculator self)
                             {| positions := rafters context |} p) in
  MountCount (result context) = (2 * list_sum (map under (panels context)))%nat
  /\ Nat.even (MountCount (result context)) = true
  /\ (2 * length specs <= MountCount (result context))%nat.
Proof.
  intros E under.
  assert (Hcount : MountCount (result context)
                   = (2 * list_sum (map under (panels context)))%nat).
  { pose proof (CalculateLayoutDetailed_returns _ _ _ _ E)
      as (p0 & ps & grid & _ & _ & _ & Hr & Hm & _).
    apply CalculateMounts_returns in Hm. unfold MountCount. rewrite Hm.
    rewrite flat_map_length_sum. subst under.
    destruct grid as [gp]. cbn [positions] in Hr. rewrite Hr.
    generalize (panels context). intros l.
    induction l as [|p l IH]; [reflexivity|].
    cbn [map list_sum fold_right]. fold (@list_sum) in *.
    change (fold_right Nat.add 0%nat) with list_sum. rewrite IH.
    unfold top_mounts, bottom_mounts. rewrite length_app, !length_map. lia. }
  split; [exact Hcount|]. split.
  - rewrite Hcount. rewrite Nat.even_mul. reflexivity.
  - rewrite Hcount.
    assert (Hlen : length (panels context) = length specs).
    { pose proof (CalculateLayoutDetailed_returns _ _ _ _ E)
        as (p0 & ps & grid & Hb & Hps & _).
      rewrite Hps. now apply BuildPanels_length in Hb. }
    rewrite <- Hlen.
    assert (Hall : Forall (fun p => (1 <= under p)%nat) (panels context)).
    { pose proof (CalculateLayoutDetailed_returns _ _ _ _ E)
        as (p0 & ps & grid & _ & _ & _ & Hr & Hm & _).
      destruct grid as [gp]. cbn [positions] in Hr.
      assert (Hw : Forall (within_limits (mount_calculator self) {| positions := gp |})
                          (panels context)).
      { apply (CalculateMounts_from_within_limits _ _ _ []).
        eexists. exact Hm. }
      eapply Forall_impl; [|exact Hw].
      intros p (r0 & rs & Hsel & _). subst under. cbv beta.
      rewrite Hr, Hsel. simpl. lia. }
    apply list_sum_at_least in Hall. lia.
Qed.

End MountProperties.

Lemma X1_mounts_within_limits_witness :
  exists context,
    CalculateLayoutDetailed 11 default_calculator (two_by_two_specs (F := float))
      = Returns context
    /\ Forall (within_limits (mount_calculator default_calculator)
                             {| positions := rafters context |})
              (panels context).
Proof.
  assert (E : exists context,
             CalculateLayoutDetailed 11 default_calculator (two_by_two_specs (F := float))
               = Returns context)
    by (eexists; vm_compute; reflexivity).
  destruct E as [context E]. exists context. split; [exact E|].
  destruct (X1_mounts_returned_iff_within_limits (F := float)) as [_ Hrun].
  apply (Hrun _ _ _ _ E).
Defined.

Lemma X2_mount_count_witness :
  exists context,
    CalculateLayoutDetailed 11 default_calculator (two_by_two_specs (F := float))
      = Returns context
    /\ Nat.even (MountCount (result context)) = true.
Proof.
  assert (E : exists context,
             CalculateLayoutDetailed 11 default_calculator (two_by_two_specs (F := float))
               = Returns context)
    by (eexists; vm_compute; reflexivity).
  destruct E as [context E]. exists context. split; [exact E|].
  apply (X2_mount_count _ _ _ _ E).
Defined.

(** ** Panels: what [BuildPanels] accepts, and why it raises *)

Section SortFacts.
Context {A : Type} (lt : A -> A -> bool).

Lemma insort_Permutation (a : A) (l : list A) : Permutation (insort lt a l) (a :: l).
Proof.
  induction l as [|b l IH]; [reflexivity|].
  simpl. destruct (lt a b); [reflexivity|].
  rewrite IH. apply perm_swap.
Qed.

Lemma sorted_Permutation (l : list A) : Permutation (sorted lt l) l.
Proof.
  unfold sorted.
  assert (G : forall l acc, Permutation (fold_left (fun acc a => insort lt a acc) l acc)
                                        (acc ++ l)).
  { clear l. induction l as [|a l IH]; intros acc.
    - now rewrite app_nil_r.
    - cbn [fold_left]. rewrite IH, insort_Permutation.
      change (a :: acc) with ([a] ++ acc).
      change (a :: l) with ([a] ++ l).
      rewrite !app_assoc. apply Permutation_app_tail, Permutation_app_comm. }
  apply (G l []).
Qed.

End SortFacts.

Section PanelFacts.
Context {F : Type} `{PyFloat F}.

Lemma key_in_In (k : Z * Z) (seen : list (Z * Z)) : key_in k seen = true <-> In k seen.
Proof.
  unfold key_in. rewrite existsb_exists. split.
  - intros ([a b] & Hin & Heq). destruct k as [c d]. simpl in Heq.
    apply andb_true_iff in Heq. destruct Heq as [Ha Hb].
    apply Z.eqb_eq in Ha, Hb. now subst.
  - intros Hin. exists k. split; [exact Hin|].
    now rewrite !Z.eqb_refl.
Qed.

Lemma spec_eta (item : PanelSpec) (x_value y_value : F) :
  spec_x item = Some x_value -> spec_y item = Some y_value ->
  item = spec_at x_value y_value.
Proof. destruct item as [sx sy]. simpl. intros -> ->. reflexivity. Qed.

Lemma ValidateCoordinateBounds_returns (self : PanelFactory) (x_value y_value tolerance : F) :
  _ValidateCoordinateBounds self x_value y_value tolerance = Returns tt
  <-> allow_negative_coordinates (validation self) = true
      \/ below_bounds x_value y_value tolerance = false.
Proof.
  unfold _ValidateCoordinateBounds, below_bounds.
  destruct (allow_negative_coordinates (validation self)).
  - split; [now left|reflexivity].
  - destruct (_ || _).
    + split; [discriminate|]. intros [Hf|Hf]; discriminate Hf.
    + split; [now right|reflexivity].
Qed.

(** What [BuildPanels_from] has checked of the specs it accepts: the panels
    it adds are those of the specs, in their order; each passed the bounds
    check; and where duplicates are refused the keys of the panels are new,
    one after the other. *)
Lemma BuildPanels_from_accepted (self : PanelFactory) (tolerance : F) :
  forall specs acc seen ps,
    BuildPanels_from self tolerance acc seen specs = Returns ps ->
    exists built,
      ps = acc ++ built
      /\ map spec_of built = specs
      /\ Forall (fun p => p = panel_at self (panel_x p) (panel_y p)
                          /\ _ValidateCoordinateBounds self (panel_x p) (panel_y p)
                                                       tolerance = Returns tt) built
      /\ (allow_duplicates (validation self) = false ->
          NoDup seen ->
          exists keys,
            map (quantized self tolerance) built = map Returns keys
            /\ NoDup (rev keys ++ seen)).
Proof.
  induction specs as [|item rest IH]; intros acc seen ps E.
  - injection E as <-. exists []. rewrite app_nil_r.
    repeat split; [constructor|].
    intros _ Hnd. exists []. now split.
  - rewrite BuildPanels_from_cons in E.
    destruct (checked_panel self tolerance seen item) as [[p seen1]| |] eqn:Ec;
      try discriminate E.
    cbn [bind fst snd] in E.
    apply checked_panel_returns in Ec.
    destruct Ec as (x_value & y_value & Hx & Hy & Hb & Hp & Hseen).
    destruct (IH _ _ _ E) as (built & Hps & Hspecs & Hall & Hkeys).
    exists (p :: built). split; [|split; [|split]].
    + rewrite Hps, <- app_assoc. reflexivity.
    + cbn [map]. rewrite Hspecs. f_equal. unfold spec_of. rewrite Hp. cbn.
      symmetry. now apply spec_eta.
    + constructor; [|exact Hall]. rewrite Hp. cbn. split; [reflexivity|exact Hb].
    + intros Hdup Hnd.
      destruct Hseen as [[Hd _]|(_ & key & Hq & Hnew & Hseen1)]; [congruence|].
      subst seen1.
      assert (Hnd1 : NoDup (key :: seen)).
      { constructor; [|exact Hnd]. intros Hin. apply key_in_In in Hin. congruence. }
      destruct (Hkeys Hdup Hnd1) as (keys & Hmap & Hndk).
      exists (key :: keys). split.
      * cbn [map]. rewrite Hmap. f_equal. unfold quantized. rewrite Hp. exact Hq.
      * cbn [rev]. rewrite <- app_assoc. exact Hndk.
Qed.

End PanelFacts.

Section PanelErrors.
Context {F : Type} `{PyFloat F}.

Lemma QuantizeCoordinate_outcome (self : PanelFactory) (x_value y_value tolerance : F) :
  (exists key, _QuantizeCoordinate self x_value y_value tolerance = Returns key)
  \/ (exists e, _QuantizeCoordinate self x_value y_value tolerance
                = Raises (BuiltinError e)).
Proof.
  unfold _QuantizeCoordinate, py_round.
  destruct (round_int (fdiv x_value _)) as [e|qx]; [right; now exists e|].
  destruct (round_int (fdiv y_value _)) as [e|qy]; [right; now exists e|].
  left. eexists. reflexivity.
Qed.

(** Why [checked_panel] raises. *)
Lemma checked_panel_raises (self : PanelFactory) (tolerance : F)
    (seen : list (Z * Z)) (item : PanelSpec) (e : Exception F) :
  checked_panel self tolerance seen item = Raises e ->
  (incomplete item /\ e = LayoutValidationError MissingCoordinate)
  \/ exists x_value y_value,
       item = spec_at x_value y_value
       /\ ((allow_negative_coordinates (validation self) = false
            /\ below_bounds x_value y_value tolerance = true
            /\ e = LayoutValidationError (NegativeCoordinate x_value y_value))
           \/ (_ValidateCoordinateBounds self x_value y_value tolerance = Returns tt
               /\ allow_duplicates (validation self) = false
               /\ ((exists b, _QuantizeCoordinate self x_value y_value tolerance
                              = Raises (BuiltinError b)
                              /\ e = BuiltinError b)
                   \/ (exists key,
                          _QuantizeCoordinate self x_value y_value tolerance
                          = Returns key
                          /\ In key seen
                          /\ e = LayoutValidationError
                                   (DuplicatePanel x_value y_value))))).
Proof.
  unfold checked_panel.
  destruct (spec_x item) as [x_value|] eqn:Hx;
    [|intros E; injection E as <-; left; split; [now left|reflexivity]].
  destruct (spec_y item) as [y_value|] eqn:Hy;
    [|intros E; injection E as <-; left; split; [now right|reflexivity]].
  intros E. right. exists x_value, y_value. split; [now apply spec_eta|].
  destruct (_ValidateCoordinateBounds self x_value y_value tolerance)
    as [[]| |] eqn:Eb.
  - right. split; [reflexivity|]. cbn [bind] in E.
    destruct (allow_duplicates (validation self)); [discriminate E|].
    split; [reflexivity|].
    destruct (QuantizeCoordinate_outcome self x_value y_value tolerance)
      as [[key Hq]|[b Hq]]; rewrite Hq in E |- *; cbn [bind] in E.
    + right. exists key. split; [reflexivity|].
      destruct (key_in key seen) eqn:Hin; cbn [bind] in E; [|discriminate E].
      injection E as <-. split; [now apply key_in_In|reflexivity].
    + left. exists b. injection E as <-. now split.
  - left. unfold _ValidateCoordinateBounds in Eb. unfold below_bounds.
    destruct (allow_negative_coordinates (validation self)); [discriminate Eb|].
    destruct (_ || _); [|discriminate Eb].
    cbn [bind] in E. injection Eb as <-. injection E as <-. now repeat split.
  - unfold _ValidateCoordinateBounds in Eb.
    destruct (allow_negative_coordinates (validation self)); [discriminate Eb|].
    destruct (_ || _); discriminate Eb.
Qed.

(** Where [BuildPanels_from] raises: at the first spec that fails, the
    specs before it accepted; a key seen by then was seen at the start or
    is the key of one of them. *)
Lemma BuildPanels_from_raises (self : PanelFactory) (tolerance : F) :
  forall specs acc seen e,
    BuildPanels_from self tolerance acc seen specs = Raises e ->
    exists before item after seen',
      specs = before ++ item :: after
      /\ checked_panel self tolerance seen' item = Raises e
      /\ (exists ps, BuildPanels_from self tolerance acc seen before = Returns ps)
      /\ (allow_duplicates (validation self) = false ->
          forall key, In key seen' ->
            In key seen
            \/ exists x_value y_value,
                 In (spec_at x_value y_value) before
                 /\ _QuantizeCoordinate self x_value y_value tolerance = Returns key).
Proof.
  induction specs as [|item rest IH]; intros acc seen e E; [discriminate E|].
  rewrite BuildPanels_from_cons in E.
  destruct (checked_panel self tolerance seen item) as [[p seen1]| |] eqn:Ec;
    try discriminate E.
  - cbn [bind fst snd] in E.
    destruct (IH _ _ _ E) as (before & item' & after & seen' & Hs & Hc & [ps Hps] & Hk).
    exists (item :: before), item', after, seen'.
    split; [now rewrite Hs|]. split; [exact Hc|]. split.
    + exists ps. cbn [app]. rewrite BuildPanels_from_cons, Ec. exact Hps.
    + intros Hdup key Hin.
      apply checked_panel_returns in Ec.
      destruct Ec as (x_value & y_value & Hx & Hy & _ & _ & Hseen).
      destruct Hseen as [[Hd _]|(_ & key1 & Hq & _ & ->)]; [congruence|].
      destruct (Hk Hdup key Hin) as [[<-|Hold]|(x' & y' & Hin' & Hq')].
      * right. exists x_value, y_value. split; [|exact Hq].
        left. now apply spec_eta.
      * now left.
      * right. exists x', y'. split; [now right|exact Hq'].
  - cbn [bind] in E. injection E as <-.
    exists [], item, rest, seen. split; [reflexivity|]. split; [exact Ec|].
    split; [exists acc; reflexivity|]. intros _ key Hin. now left.
Qed.

Lemma ValidateNoOverlap_raises (self : PanelFactory) (tolerance : F) :
  forall ps e,
    _ValidateNoOverlap self ps tolerance = Raises e ->
    exists l1 first l2 second l3,
      ps = l1 ++ first :: l2 ++ second :: l3
      /\ _RectanglesOverlap self first second tolerance = true
      /\ e = LayoutValidationError
               (OverlappingPanels (panel_x first) (panel_y first)
                                  (panel_x second) (panel_y second)).
Proof.
  induction ps as [|first rest IH]; intros e E; [discriminate E|].
  cbn [_ValidateNoOverlap] in E.
  destruct (find _ rest) as [second|] eqn:Ef.
  - injection E as <-. apply find_some in Ef. destruct Ef as [Hin Hov].
    apply in_split in Hin. destruct Hin as (l2 & l3 & ->).
    exists [], first, l2, second, l3. now repeat split.
  - destruct (IH _ E) as (l1 & a & l2 & b & l3 & -> & Hov & He).
    exists (first :: l1), a, l2, b, l3. now repeat split.
Qed.

Lemma ValidateNoOverlap_pairs (self : PanelFactory) (tolerance : F) :
  forall ps,
    _ValidateNoOverlap self ps tolerance = Returns tt
    <-> ForallOrdPairs (fun a b => _RectanglesOverlap self a b tolerance = false) ps.
Proof.
  induction ps as [|first rest IH].
  - split; [constructor|reflexivity].
  - rewrite ValidateNoOverlap_returns, IH. split.
    + intros [Ha Hr]. now constructor.
    + intros Hall. inversion Hall; subst. now split.
Qed.

Lemma BuildPanels_raises (self : PanelFactory) (specs : list PanelSpec)
    (e : Exception F) :
  BuildPanels self specs = Raises e ->
  BuildPanels_from self (coordinate_tolerance (validation self)) [] [] specs = Raises e
  \/ exists built,
       BuildPanels_from self (coordinate_tolerance (validation self)) [] [] specs
       = Returns built
       /\ allow_overlaps (validation self) = false
       /\ _ValidateNoOverlap self built (coordinate_tolerance (validation self))
          = Raises e.
Proof.
  unfold BuildPanels.
  destruct (BuildPanels_from _ _ _ _ _) as [built| |]; cbn [bind];
    [|intros E; now left|discriminate].
  destruct (allow_overlaps (validation self)); [discriminate|].
  destruct (_ValidateNoOverlap _ _ _) as [[]| |] eqn:Ev; cbn [bind]; try discriminate.
  intros E. injection E as <-. right. now exists built.
Qed.

End PanelErrors.

Lemma NoDup_map_injective {A B : Type} (f : A -> B) (l : list A) :
  (forall a b, f a = f b -> a = b) -> NoDup l -> NoDup (map f l).
Proof.
  intros Hinj. induction 1 as [|a l Ha Hl IH]; [constructor|].
  cbn [map]. constructor; [|exact IH].
  intros Hin. apply in_map_iff in Hin. destruct Hin as (b & Hb & Hin).
  apply Hinj in Hb. now subst.
Qed.

Section PanelProperties.
Context {F : Type} `{PyFloat F}.

(** Why [BuildPanels] raises "Duplicate panel detected". *)
Lemma BuildPanels_duplicate_cause (self : PanelFactory) (specs : list PanelSpec)
    (x_value y_value : F) :
  BuildPanels self specs
  = Raises (LayoutValidationError (DuplicatePanel x_value y_value)) ->
  allow_duplicates (validation self) = false
  /\ exists before after earlier_x earlier_y key,
       specs = before ++ spec_at x_value y_value :: after
       /\ In (spec_at earlier_x earlier_y) before
       /\ _QuantizeCoordinate self earlier_x earlier_y
                              (coordinate_tolerance (validation self)) = Returns key
       /\ _QuantizeCoordinate self x_value y_value
                              (coordinate_tolerance (validation self)) = Returns key.
Proof.
  intros E. apply BuildPanels_raises in E.
  destruct E as [E|(built & _ & _ & E)].
  - apply BuildPanels_from_raises in E.
    destruct E as (before & item & after & seen' & -> & Hc & _ & Hk).
    apply checked_panel_raises in Hc.
    destruct Hc as [[_ Hc]|(x' & y' & -> & Hc)]; [discriminate Hc|].
    destruct Hc as [(_ & _ & He)|(_ & Hdup & [(b & _ & He)|(key & Hq & Hin & He)])];
      try discriminate He.
    injection He as <- <-. split; [exact Hdup|].
    destruct (Hk Hdup key Hin) as [[]|(ex & ey & Hbefore & Hq')].
    exists before, after, ex, ey, key. now repeat split.
  - apply ValidateNoOverlap_raises in E.
    destruct E as (? & ? & ? & ? & ? & _ & _ & He). discriminate He.
Qed.

(** X3: the panels that [BuildPanels] returns are the specs, one panel for
    each spec at the coordinates of the spec, rearranged, no spec dropped
    and none added, and every panel has the configured width and height. *)
Theorem X3_panels_are_the_specs (self : PanelFactory) (specs : list PanelSpec)
    (ps : list Panel) :
  BuildPanels self specs = Returns ps ->
  Permutation (map spec_of ps) specs
  /\ Forall (fun p => width p = dim_width (dimensions self)
                      /\ height p = dim_height (dimensions self)) ps.
Proof.
  intros E. apply BuildPanels_returns in E.
  destruct E as (built & Hb & _ & ->).
  apply BuildPanels_from_accepted in Hb.
  destruct Hb as (built' & Heq & Hspecs & Hall & _). cbn [app] in Heq. subst built'.
  assert (Hperm : Permutation (sort_panels built) built)
    by apply sorted_Permutation.
  split.
  - rewrite <- Hspecs. now apply Permutation_map.
  - apply (Permutation_Forall (Permutation_sym Hperm)).
    eapply Forall_impl; [|exact Hall].
    intros p [Hp _]. rewrite Hp. cbn. now split.
Qed.

(** X4: unless negative coordinates are allowed, no coordinate of an
    accepted panel is below minus the tolerance, and the error
    "Negative coordinates are not allowed" names the coordinates of a spec
    that has one below it. *)
Theorem X4_coordinate_bounds (self : PanelFactory) (specs : list PanelSpec) :
  let tolerance := coordinate_tolerance (validation self) in
  (forall ps,
      allow_negative_coordinates (validation self) = false ->
      BuildPanels self specs = Returns ps ->
      Forall (fun p => fltb (panel_x p) (fneg tolerance) = false
                       /\ fltb (panel_y p) (fneg tolerance) = false) ps)
  /\ (forall x_value y_value,
         BuildPanels self specs
         = Raises (LayoutValidationError (NegativeCoordinate x_value y_value)) ->
         allow_negative_coordinates (validation self) = false
         /\ In (spec_at x_value y_value) specs
         /\ (fltb x_value (fneg tolerance) = true
             \/ fltb y_value (fneg tolerance) = true)).
Proof.
  intros tolerance. split.
  - intros ps Hneg E. apply BuildPanels_returns in E.
    destruct E as (built & Hb & _ & ->).
    apply BuildPanels_from_accepted in Hb.
    destruct Hb as (built' & Heq & _ & Hall & _). cbn [app] in Heq. subst built'.
    apply (Permutation_Forall (Permutation_sym (sorted_Permutation _ built))).
    eapply Forall_impl; [|exact Hall].
    intros p [_ Hp]. apply ValidateCoordinateBounds_returns in Hp.
    destruct Hp as [Hp|Hp]; [congruence|].
    unfold below_bounds in Hp. now apply orb_false_iff in Hp.
  - intros x_value y_value E. apply BuildPanels_raises in E.
    destruct E as [E|(built & _ & _ & E)].
    + apply BuildPanels_from_raises in E.
      destruct E as (before & item & after & seen' & -> & Hc & _).
      apply checked_panel_raises in Hc.
      destruct Hc as [[_ Hc]|(x' & y' & -> & Hc)]; [discriminate Hc|].
      destruct Hc as [(Hneg & Hlow & He)|(_ & _ & [(b & _ & He)|(key & _ & _ & He)])];
        try discriminate He.
      injection He as <- <-. split; [exact Hneg|]. split.
      * apply in_or_app. right. now left.
      * unfold below_bounds in Hlow. now apply orb_true_iff in Hlow.
    + apply ValidateNoOverlap_raises in E.
      destruct E as (? & ? & ? & ? & ? & _ & _ & He). discriminate He.
Qed.

(** X5: a spec without its ["x"] or ["y"] is never accepted: at the head of
    the specs it raises "Each panel spec must contain 'x' and 'y'.",
    anywhere in the specs it keeps [BuildPanels] from returning, and that
    error is raised only if there is such a spec. *)
Theorem X5_missing_coordinate (self : PanelFactory) :
  (forall item rest,
      incomplete item ->
      BuildPanels self (item :: rest) = Raises (LayoutValidationError MissingCoordinate))
  /\ (forall specs ps,
         Exists incomplete specs -> BuildPanels self specs <> Returns ps)
  /\ (forall specs,
         BuildPanels self specs = Raises (LayoutValidationError MissingCoordinate) ->
         Exists incomplete specs).
Proof.
  split; [|split].
  - intros item rest Hinc. unfold BuildPanels. cbn [BuildPanels_from].
    destruct Hinc as [Hx|Hy].
    + now rewrite Hx.
    + rewrite Hy. now destruct (spec_x item).
  - intros specs ps Hex E. apply BuildPanels_returns in E.
    destruct E as (built & Hb & _).
    apply BuildPanels_from_accepted in Hb.
    destruct Hb as (built' & _ & Hspecs & _).
    apply Exists_exists in Hex. destruct Hex as (item & Hin & Hinc).
    rewrite <- Hspecs in Hin. apply in_map_iff in Hin.
    destruct Hin as (p & <- & _).
    destruct Hinc as [Hinc|Hinc]; discriminate Hinc.
  - intros specs E. apply BuildPanels_raises in E.
    destruct E as [E|(built & _ & _ & E)].
    + apply BuildPanels_from_raises in E.
      destruct E as (before & item & after & seen' & -> & Hc & _).
      apply checked_panel_raises in Hc.
      destruct Hc as [[Hinc _]|(x' & y' & -> & Hc)].
      * apply Exists_exists. exists item. split; [|exact Hinc].
        apply in_or_app. right. now left.
      * destruct Hc as [(_ & _ & He)|(_ & _ & [(b & _ & He)|(key & _ & _ & He)])];
          discriminate He.
    + apply ValidateNoOverlap_raises in E.
      destruct E as (? & ? & ? & ? & ? & _ & _ & He). discriminate He.
Qed.

(** X6: unless duplicates are allowed, the panels of an accepted layout
    have pairwise different position keys, so no panel is returned twice;
    and the error "Duplicate panel detected" names the coordinates of a spec
    whose key is that of a spec before it. *)
Theorem X6_duplicates (self : PanelFactory) (specs : list PanelSpec) :
  let tolerance := coordinate_tolerance (validation self) in
  (forall ps,
      allow_duplicates (validation self) = false ->
      BuildPanels self specs = Returns ps ->
      (exists keys,
          map (quantized self tolerance) ps = map Returns keys /\ NoDup keys)
      /\ NoDup ps)
  /\ (forall x_value y_value,
         BuildPanels self specs
         = Raises (LayoutValidationError (DuplicatePanel x_value y_value)) ->
         allow_duplicates (validation self) = false
         /\ exists before after earlier_x earlier_y key,
              specs = before ++ spec_at x_value y_value :: after
              /\ In (spec_at earlier_x earlier_y) before
              /\ _QuantizeCoordinate self earlier_x earlier_y tolerance = Returns key
              /\ _QuantizeCoordinate self x_value y_value tolerance = Returns key).
Proof.
  intros tolerance. split.
  - intros ps Hdup E. apply BuildPanels_returns in E.
    destruct E as (built & Hb & _ & ->).
    apply BuildPanels_from_accepted in Hb.
    destruct Hb as (built' & Heq & _ & _ & Hkeys). cbn [app] in Heq. subst built'.
    destruct (Hkeys Hdup (NoDup_nil _)) as (keys & Hmap & Hnd).
    rewrite app_nil_r in Hnd.
    assert (Hndk : NoDup keys).
    { apply (Permutation_NoDup (l := rev keys)); [|exact Hnd].
      apply Permutation_sym, Permutation_rev. }
    assert (Hndq : NoDup (map (quantized self tolerance) built)).
    { fold tolerance in Hmap. rewrite Hmap.
      apply NoDup_map_injective; [|exact Hndk].
      intros a b Hab. now injection Hab. }
    assert (Hperm : Permutation (sort_panels built) built)
      by apply sorted_Permutation.
    assert (Hnds : NoDup (map (quantized self tolerance) (sort_panels built))).
    { apply (Permutation_NoDup (l := map (quantized self tolerance) built));
        [|exact Hndq].
      apply Permutation_map, Permutation_sym, Hperm. }
    split; [|now apply NoDup_map_inv in Hnds].
    fold tolerance in Hmap.
    assert (G : forall l : list Panel,
               Forall (fun p => exists key, quantized self tolerance p = Returns key) l ->
               exists ks, map (quantized self tolerance) l = map Returns ks).
    { induction l as [|p l IH]; intros Hall; [exists []; reflexivity|].
      inversion Hall as [|? ? [key Hp] Hl]; subst.
      destruct (IH Hl) as [ks Hks]. exists (key :: ks).
      cbn [map]. now rewrite Hp, Hks. }
    destruct (G (sort_panels built)) as [ks Hks].
    { apply (Permutation_Forall (Permutation_sym Hperm)).
      apply Forall_forall. intros p Hin.
      apply (in_map (quantized self tolerance)) in Hin. rewrite Hmap in Hin.
      apply in_map_iff in Hin. destruct Hin as (key & Hkey & _). now exists key. }
    exists ks. split; [exact Hks|].
    rewrite Hks in Hnds. now apply NoDup_map_inv in Hnds.
  - intros x_value y_value E. now apply BuildPanels_duplicate_cause.
Qed.

(** X7: unless overlaps are allowed, no two panels of an accepted layout
    overlap; the error "Panel at ... overlaps panel at ..." names two specs
    that do, the first standing before the second, and is raised only when
    every spec has passed the checks of its own. *)
Theorem X7_overlaps (self : PanelFactory) (specs : list PanelSpec) :
  let tolerance := coordinate_tolerance (validation self) in
  (forall ps,
      allow_overlaps (validation self) = false ->
      BuildPanels self specs = Returns ps ->
      ForallOrdPairs (fun a b => _RectanglesOverlap self a b tolerance = false) ps)
  /\ (forall first_x first_y second_x second_y,
         BuildPanels self specs
         = Raises (LayoutValidationError
                     (OverlappingPanels first_x first_y second_x second_y)) ->
         allow_overlaps (validation self) = false
         /\ (exists built,
                BuildPanels_from self tolerance [] [] specs = Returns built)
         /\ exists l1 l2 l3,
              specs = l1 ++ spec_at first_x first_y :: l2
                         ++ spec_at second_x second_y :: l3
              /\ _RectanglesOverlap self (panel_at self first_x first_y)
                                    (panel_at self second_x second_y) tolerance = true).
Proof.
  intros tolerance. split.
  - intros ps Hov E. apply BuildPanels_returns in E.
    destruct E as (built & _ & Hv & ->).
    apply ValidateNoOverlap_pairs.
    apply (ValidateNoOverlap_perm self _ built); [|now apply Hv].
    apply Permutation_sym, sorted_Permutation.
  - intros x1 y1 x2 y2 E. apply BuildPanels_raises in E.
    destruct E as [E|(built & Hb & Hov & E)].
    + apply BuildPanels_from_raises in E.
      destruct E as (before & item & after & seen' & -> & Hc & _).
      apply checked_panel_raises in Hc.
      destruct Hc as [[_ Hc]|(x' & y' & -> & Hc)]; [discriminate Hc|].
      destruct Hc as [(_ & _ & He)|(_ & _ & [(b & _ & He)|(key & _ & _ & He)])];
        discriminate He.
    + split; [exact Hov|]. split; [now exists built|].
      apply ValidateNoOverlap_raises in E.
      destruct E as (l1 & a & l2 & b & l3 & -> & Hab & He).
      injection He as -> -> -> ->.
      apply BuildPanels_from_accepted in Hb.
      destruct Hb as (built' & Heq & Hspecs & Hall & _). cbn [app] in Heq.
      subst built'.
      exists (map spec_of l1), (map spec_of l2), (map spec_of l3). split.
      * rewrite <- Hspecs.
        rewrite map_app. cbn [map]. rewrite map_app. reflexivity.
      * rewrite Forall_forall in Hall.
        destruct (Hall a) as [<- _]; [apply in_or_app; right; now left|].
        destruct (Hall b) as [<- _]; [|exact Hab].
        apply in_or_app. right. right. apply in_or_app. right. now left.
Qed.

End PanelProperties.

Lemma X3_panels_are_the_specs_witness :
  exists ps,
    BuildPanels (panel_factory default_calculator) (two_by_two_specs (F := float))
    = Returns ps
    /\ Permutation (map spec_of ps) (two_by_two_specs (F := float)).
Proof.
  assert (E : exists ps,
             BuildPanels (panel_factory default_calculator)
                         (two_by_two_specs (F := float)) = Returns ps)
    by (eexists; vm_compute; reflexivity).
  destruct E as [ps E]. exists ps. split; [exact E|].
  apply (X3_panels_are_the_specs _ _ _ E).
Defined.

Lemma X4_coordinate_bounds_witness :
  BuildPanels (panel_factory default_calculator) [spec_at (-1) 0]%float
  = Raises (LayoutValidationError (NegativeCoordinate (-1) 0))%float
  /\ In (spec_at (-1) 0)%float [spec_at (-1) 0]%float
  /\ fltb (-1)%float (fneg (lit 1 4)) = true.
Proof.
  assert (E : BuildPanels (panel_factory default_calculator) [spec_at (-1) 0]%float
              = Raises (LayoutValidationError (NegativeCoordinate (-1) 0))%float)
    by (vm_compute; reflexivity).
  split; [exact E|].
  destruct (X4_coordinate_bounds (panel_factory default_calculator)
                                 [spec_at (-1) 0]%float) as [_ Hcause].
  destruct (Hcause _ _ E) as (_ & Hin & _). split; [exact Hin|reflexivity].
Defined.

Lemma X5_missing_coordinate_witness :
  incomplete {| spec_x := None; spec_y := Some 0%float |}
  /\ BuildPanels (panel_factory default_calculator)
                 [{| spec_x := None; spec_y := Some 0%float |}; spec_at 0 0]%float
     = Raises (LayoutValidationError MissingCoordinate).
Proof.
  assert (Hinc : incomplete {| spec_x := None; spec_y := Some 0%float |})
    by (left; reflexivity).
  split; [exact Hinc|].
  destruct (X5_missing_coordinate (panel_factory (default_calculator (F := float))))
    as [Hhead _].
  apply Hhead. exact Hinc.
Defined.

Lemma X6_duplicates_witness :
  BuildPanels (panel_factory default_calculator) [spec_at 0 0; spec_at 0 0]%float
  = Raises (LayoutValidationError (DuplicatePanel 0 0))%float
  /\ exists before after earlier_x earlier_y,
       [spec_at 0 0; spec_at 0 0]%float = before ++ spec_at 0%float 0%float :: after
       /\ In (spec_at earlier_x earlier_y) before.
Proof.
  assert (E : BuildPanels (panel_factory default_calculator)
                          [spec_at 0 0; spec_at 0 0]%float
              = Raises (LayoutValidationError (DuplicatePanel 0 0))%float)
    by (vm_compute; reflexivity).
  split; [exact E|].
  destruct (X6_duplicates (panel_factory default_calculator)
                          [spec_at 0 0; spec_at 0 0]%float) as [_ Hcause].
  destruct (Hcause _ _ E) as (_ & before & after & ex & ey & key & Hs & Hin & _).
  now exists before, after, ex, ey.
Defined.

Lemma X7_overlaps_witness :
  BuildPanels (panel_factory default_calculator) [spec_at 0 0; spec_at 10 0]%float
  = Raises (LayoutValidationError (OverlappingPanels 0 0 10 0))%float
  /\ _RectanglesOverlap (panel_factory default_calculator)
       (panel_at (panel_factory default_calculator) 0 0)%float
       (panel_at (panel_factory default_calculator) 10 0)%float
       (lit 1 4) = true.
Proof.
  assert (E : BuildPanels (panel_factory default_calculator)
                          [spec_at 0 0; spec_at 10 0]%float
              = Raises (LayoutValidationError (OverlappingPanels 0 0 10 0))%float)
    by (vm_compute; reflexivity).
  split; [exact E|].
  destruct (X7_overlaps (panel_factory default_calculator)
                        [spec_at 0 0; spec_at 10 0]%float) as [_ Hcause].
  destruct (Hcause _ _ _ _ E) as (_ & _ & l1 & l2 & l3 & _ & Hov).
  exact Hov.
Defined.

(** ** Rows and joints *)

Section RowFacts.
Context {F : Type} `{PyFloat F}.

Lemma FindRowKey_spec (rows : list (F * list Panel)) (y_value tolerance : F) :
  _FindRowKey rows y_value tolerance = y_value
  \/ (In (_FindRowKey rows y_value tolerance) (map fst rows)
      /\ fleb (fabs (fsub (_FindRowKey rows y_value tolerance) y_value)) tolerance
         = true).
Proof.
  induction rows as [|[key l] rows IH]; [now left|].
  cbn [_FindRowKey].
  destruct (fleb (fabs (fsub key y_value)) tolerance) eqn:E.
  - right. split; [now left|exact E].
  - destruct IH as [IH|[IH1 IH2]]; [now left|].
    right. split; [now right|exact IH2].
Qed.

Lemma setdefault_append_spec {K A : Type} (keq : K -> K -> bool)
    (d : list (K * list A)) (k : K) (a : A) :
  (exists d1 k' l d2,
      d = d1 ++ (k', l) :: d2 /\ keq k' k = true
      /\ setdefault_append keq d k a = d1 ++ (k', l ++ [a]) :: d2)
  \/ (Forall (fun row => keq (fst row) k = false) d
      /\ setdefault_append keq d k a = d ++ [(k, [a])]).
Proof.
  induction d as [|[k' l] d IH]; [right; now split|].
  cbn [setdefault_append]. destruct (keq k' k) eqn:E.
  - left. exists [], k', l, d. now repeat split.
  - destruct IH as [(d1 & k1 & l1 & d2 & -> & Hk & ->)|[Hall ->]].
    + left. exists ((k', l) :: d1), k1, l1, d2. now repeat split.
    + right. split; [|reflexivity]. constructor; [exact E|exact Hall].
Qed.

Lemma flat_map_snd_app {K A : Type} (d1 d2 : list (K * list A)) :
  flat_map snd (d1 ++ d2) = flat_map snd d1 ++ flat_map snd d2.
Proof. apply flat_map_app. Qed.

Lemma setdefault_append_Permutation {K A : Type} (keq : K -> K -> bool)
    (d : list (K * list A)) (k : K) (a : A) :
  Permutation (flat_map snd (setdefault_append keq d k a)) (flat_map snd d ++ [a]).
Proof.
  destruct (setdefault_append_spec keq d k a)
    as [(d1 & k' & l & d2 & -> & _ & ->)|[_ ->]].
  - rewrite !flat_map_app. cbn [flat_map snd].
    rewrite <- !app_assoc. apply Permutation_app_head.
    apply Permutation_app_head. apply Permutation_app_comm.
  - rewrite flat_map_app. cbn [flat_map snd]. now rewrite app_nil_r.
Qed.

Lemma setdefault_append_nonempty {K A : Type} (keq : K -> K -> bool)
    (d : list (K * list A)) (k : K) (a : A) :
  Forall (fun row => snd row <> []) d ->
  Forall (fun row => snd row <> []) (setdefault_append keq d k a).
Proof.
  intros Hall.
  destruct (setdefault_append_spec keq d k a)
    as [(d1 & k' & l & d2 & -> & _ & ->)|[_ ->]].
  - apply Forall_app in Hall. destruct Hall as [H1 H2].
    inversion H2; subst. apply Forall_app. split; [exact H1|].
    constructor; [|assumption]. cbn. now destruct l.
  - apply Forall_app. split; [exact Hall|]. constructor; [discriminate|constructor].
Qed.

(** The rows hold the panels, each once, and no row is empty. *)
Lemma group_rows_partition (self : JointCalculator) (ps : list Panel) :
  Permutation (flat_map snd (group_rows self ps)) ps
  /\ Forall (fun row => snd row <> []) (group_rows self ps).
Proof.
  unfold group_rows.
  assert (G : forall (l : list Panel) rows,
             Forall (fun row => snd row <> []) rows ->
             let rows' :=
               fold_left
                 (fun row_map p =>
                    setdefault_append feqb row_map
                      (_FindRowKey row_map (panel_y p) (vertical_tolerance self)) p)
                 l rows in
             Permutation (flat_map snd rows') (flat_map snd rows ++ l)
             /\ Forall (fun row => snd row <> []) rows').
  { induction l as [|p l IH]; intros rows Hne; cbn [fold_left].
    - split; [now rewrite app_nil_r|exact Hne].
    - destruct (IH (setdefault_append feqb rows
                      (_FindRowKey rows (panel_y p) (vertical_tolerance self)) p))
        as [Hperm Hall].
      { now apply setdefault_append_nonempty. }
      split; [|exact Hall].
      rewrite Hperm, setdefault_append_Permutation, <- app_assoc. reflexivity. }
  apply (G ps []). constructor.
Qed.

(** X8: the rows of [CalculateJoints] partition the panels: every panel is
    in exactly one row, as often as it stands in the input, and no row is
    empty. *)
Theorem X8_rows_partition_the_panels (self : JointCalculator) (ps : list Panel) :
  Permutation (flat_map snd (group_rows self ps)) ps
  /\ Forall (fun row => snd row <> []) (group_rows self ps).
Proof. apply group_rows_partition. Qed.

End RowFacts.

(** ** Dictionaries whose [==] is equality *)

Section DictKeys.
Context {K V : Type} (keq : K -> K -> bool).
Hypothesis keq_refl : forall a, keq a a = true.

Lemma dict_set_keys_NoDup (d : list (K * V)) (k : K) (v : V) :
  NoDup (map fst d) -> NoDup (map fst (dict_set keq d k v)).
Proof.
  induction d as [|[k' v'] d IH]; intros Hnd.
  - cbn. constructor; [intros []|constructor].
  - cbn [dict_set]. destruct (keq k' k) eqn:E; [exact Hnd|].
    cbn [map fst] in *. inversion Hnd as [|? ? Hnotin Hnd']; subst.
    constructor; [|now apply IH].
    intros Hin. apply Hnotin. clear IH Hnd Hnd' Hnotin.
    induction d as [|[k1 v1] d IH]; cbn [dict_set map fst] in *.
    + destruct Hin as [<-|[]]. now rewrite keq_refl in E.
    + destruct (keq k1 k); cbn [map fst] in Hin; [exact Hin|].
      destruct Hin as [Hin|Hin]; [now left|right; now apply IH].
Qed.

End DictKeys.

(** ** Rows where [==] is equality on the [y] of the panels *)

Section AnchoredRows.
Context {F : Type} `{PyFloat F}.
Variable number : F -> Prop.
Hypothesis number_refl : forall a, number a -> feqb a a = true.
Hypothesis number_eq : forall a b, number a -> number b -> feqb a b = true -> a = b.

Lemma setdefault_append_new_key {A : Type} (d : list (F * list A)) (k : F) (a : A) :
  feqb k k = true ->
  NoDup (map fst d) -> NoDup (map fst (setdefault_append feqb d k a)).
Proof.
  intros Hk Hnd.
  destruct (setdefault_append_spec feqb d k a)
    as [(d1 & k' & l & d2 & -> & _ & ->)|[Hall ->]].
  - rewrite map_app in *. exact Hnd.
  - rewrite map_app. cbn [map fst].
    apply (Permutation_NoDup (l := k :: map fst d));
      [apply Permutation_cons_append|].
    constructor; [|exact Hnd].
    intros Hin. apply in_map_iff in Hin. destruct Hin as (row & <- & Hin).
    rewrite Forall_forall in Hall. specialize (Hall _ Hin). congruence.
Qed.

Lemma group_rows_anchored (self : JointCalculator) :
  forall (ps : list Panel) (rows : list (F * list Panel)),
    Forall (fun p => number (panel_y p)) ps ->
    Forall number (map fst rows) ->
    NoDup (map fst rows) ->
    Forall (anchored (vertical_tolerance self)) rows ->
    let rows' :=
      fold_left
        (fun row_map p =>
           setdefault_append feqb row_map
             (_FindRowKey row_map (panel_y p) (vertical_tolerance self)) p)
        ps rows in
    NoDup (map fst rows') /\ Forall (anchored (vertical_tolerance self)) rows'.
Proof.
  induction ps as [|p ps IH]; intros rows Hps Hnum Hnd Hall; cbn [fold_left];
    [now split|].
  inversion Hps as [|? ? Hp Hps']; subst.
  pose proof (FindRowKey_spec rows (panel_y p) (vertical_tolerance self)) as Hkey.
  remember (_FindRowKey rows (panel_y p) (vertical_tolerance self)) as k eqn:Ek.
  clear Ek.
  assert (Hk : number k).
  { destruct Hkey as [->|[Hin _]]; [exact Hp|].
    rewrite Forall_forall in Hnum. now apply Hnum. }
  apply IH; [exact Hps'| | |].
  - destruct (setdefault_append_spec feqb rows k p)
      as [(d1 & k' & l & d2 & -> & _ & ->)|[_ ->]].
    + rewrite map_app in *. exact Hnum.
    + rewrite map_app. apply Forall_app. split; [exact Hnum|].
      constructor; [exact Hk|constructor].
  - apply setdefault_append_new_key; [now apply number_refl|exact Hnd].
  - destruct (setdefault_append_spec feqb rows k p)
      as [(d1 & k' & l & d2 & -> & Hkk & ->)|[Hnone ->]].
    + assert (Hk' : number k').
      { rewrite Forall_forall in Hnum. apply Hnum.
        rewrite map_app. apply in_or_app. right. now left. }
      apply (number_eq _ _ Hk' Hk) in Hkk. subst k'.
      apply Forall_app in Hall. destruct Hall as [H1 H2].
      inversion H2 as [|? ? Hrow H3]; subst.
      apply Forall_app. split; [exact H1|]. constructor; [|exact H3].
      destruct Hrow as (first & others & Hl & Hy & Hothers). cbn [fst snd] in *.
      subst l. exists first, (others ++ [p]). cbn [fst snd].
      split; [reflexivity|]. split; [exact Hy|].
      apply Forall_app. split; [exact Hothers|].
      constructor; [|constructor].
      destruct Hkey as [Hkey|[_ Hkey]]; [left; now rewrite Hkey|now right].
    + apply Forall_app. split; [exact Hall|]. constructor; [|constructor].
      exists p, []. cbn [fst snd]. split; [reflexivity|].
      split; [|constructor].
      destruct Hkey as [Hkey|[Hin _]]; [now rewrite Hkey|].
      apply in_map_iff in Hin. destruct Hin as (row & Hrow & Hin).
      rewrite Forall_forall in Hnone. specialize (Hnone _ Hin).
      rewrite Hrow, (number_refl _ Hk) in Hnone. discriminate Hnone.
Qed.

End AnchoredRows.

Lemma binary64_rows_anchored (self : JointCalculator (F := float))
    (ps : list Panel) :
  Forall (fun p => Binary64Order.ordinary (panel_y p) = true) ps ->
  NoDup (map fst (group_rows self ps))
  /\ Forall (anchored (vertical_tolerance self)) (group_rows self ps).
Proof.
  intros Hps.
  apply (group_rows_anchored (fun v => Binary64Order.ordinary v = true));
    try (constructor; fail); [| |exact Hps].
  - intros a Ha. now apply (Binary64OrderFacts.eqb_key a a Ha Ha).
  - intros a b Ha Hb E. apply Binary64OrderFacts.fkey_inj; [exact Ha|exact Hb|].
    now apply (Binary64OrderFacts.eqb_key a b Ha Hb).
Qed.

Lemma exact_rows_anchored (self : JointCalculator (F := Qc)) (ps : list Panel) :
  NoDup (map fst (group_rows self ps))
  /\ Forall (anchored (vertical_tolerance self)) (group_rows self ps).
Proof.
  apply (group_rows_anchored (fun _ => True));
    try (constructor; fail).
  - intros a _. change (Qc_eq_bool a a = true). unfold Qc_eq_bool.
    now destruct (Qc_eq_dec a a).
  - intros a b _ _. apply exact_feqb_eq.
  - apply Forall_forall. auto.
Qed.

(** At [binary64] a NaN is a key that is never found again: two panels
    whose [y] is a NaN make two rows with the same key. *)
Lemma binary64_rows_of_nan :
  map fst (group_rows (joint_calculator (default_calculator (F := float)))
             [ {| panel_x := 0; panel_y := PrimFloat.nan;
                  width := 44.7; height := 71.1 |};
               {| panel_x := 50; panel_y := PrimFloat.nan;
                  width := 44.7; height := 71.1 |} ]%float)
  = [PrimFloat.nan; PrimFloat.nan].
Proof. vm_compute. reflexivity. Qed.

(** X9: the rows of [CalculateJoints] have pairwise different keys and each
    is anchored at its first panel: the key is the [y] of the first panel
    that was put into the row, and every other panel of the row has a [y]
    within [vertical_tolerance] of the key (or equal to it).  At [binary64]
    this holds for panels whose [y] is neither a NaN nor the negative zero;
    in the arithmetic of the rationals it holds for all panels. *)
Theorem X9_rows_anchored_at_first_panel :
  (forall (self : JointCalculator (F := float)) (ps : list Panel),
      Forall (fun p => Binary64Order.ordinary (panel_y p) = true) ps ->
      NoDup (map fst (group_rows self ps))
      /\ Forall (anchored (vertical_tolerance self)) (group_rows self ps))
  /\ (forall (self : JointCalculator (F := Qc)) (ps : list Panel),
         NoDup (map fst (group_rows self ps))
         /\ Forall (anchored (vertical_tolerance self)) (group_rows self ps)).
Proof. split; [exact binary64_rows_anchored|exact exact_rows_anchored]. Qed.

Lemma X9_rows_anchored_witness :
  let ps := [ {| panel_x := 0; panel_y := 0; width := 44.7; height := 71.1 |};
              {| panel_x := 44.7; panel_y := 0.3; width := 44.7; height := 71.1 |};
              {| panel_x := 0; panel_y := 71.1; width := 44.7; height := 71.1 |}
            ]%float in
  Forall (anchored (vertical_tolerance (joint_calculator default_calculator)))
         (group_rows (joint_calculator (default_calculator (F := float))) ps).
Proof.
  intros ps.
  assert (Hps : Forall (fun p => Binary64Order.ordinary (panel_y p) = true) ps).
  { repeat constructor. }
  exact (proj2 (proj1 X9_rows_anchored_at_first_panel
                      (joint_calculator default_calculator) ps Hps)).
Defined.

(** ** Dictionaries: keys that are pairwise apart *)

Section DictSlots.
Context {K V : Type} (keq : K -> K -> bool) (key : V -> K).

Lemma dict_set_spec (d : list (K * V)) (k : K) (v : V) :
  (exists d1 k' v' d2,
      d = d1 ++ (k', v') :: d2 /\ keq k' k = true
      /\ dict_set keq d k v = d1 ++ (k', v) :: d2)
  \/ (Forall (fun e => keq (fst e) k = false) d
      /\ dict_set keq d k v = d ++ [(k, v)]).
Proof.
  induction d as [|[k' v'] d IH]; [right; now split|].
  cbn [dict_set]. destruct (keq k' k) eqn:E.
  - left. exists [], k', v', d. now repeat split.
  - destruct IH as [(d1 & k1 & v1 & d2 & -> & Hk & ->)|[Hall ->]].
    + left. exists ((k', v') :: d1), k1, v1, d2. now repeat split.
    + right. split; [|reflexivity]. constructor; [exact E|exact Hall].
Qed.

Lemma ForallOrdPairs_snoc {A : Type} (R : A -> A -> Prop) (l : list A) (a : A) :
  ForallOrdPairs R l -> Forall (fun b => R b a) l -> ForallOrdPairs R (l ++ [a]).
Proof.
  intros Hl Ha. induction Hl as [|b l Hb Hl IH]; cbn [app].
  - constructor; constructor.
  - inversion Ha as [|? ? Hba Ha']; subst.
    constructor; [|now apply IH].
    apply Forall_app. split; [exact Hb|]. constructor; [exact Hba|constructor].
Qed.

(** No key of the dictionary is [==] to a later one. *)
Lemma dict_set_apart (d : list (K * V)) (k : K) (v : V) :
  ForallOrdPairs (fun a b => keq a b = false) (map fst d) ->
  ForallOrdPairs (fun a b => keq a b = false) (map fst (dict_set keq d k v)).
Proof.
  intros Hd.
  destruct (dict_set_spec d k v) as [(d1 & k' & v' & d2 & -> & _ & ->)|[Hall ->]].
  - rewrite map_app in *. exact Hd.
  - rewrite map_app. cbn [map fst]. apply ForallOrdPairs_snoc; [exact Hd|].
    apply Forall_forall. intros a Ha. apply in_map_iff in Ha.
    destruct Ha as (e & <- & He). rewrite Forall_forall in Hall. now apply Hall.
Qed.

(** Every value sits at its own key or at one that is [==] to it. *)
Lemma dict_set_slotted (d : list (K * V)) (v : V) :
  Forall (fun e => fst e = key (snd e) \/ keq (fst e) (key (snd e)) = true) d ->
  Forall (fun e => fst e = key (snd e) \/ keq (fst e) (key (snd e)) = true)
         (dict_set keq d (key v) v).
Proof.
  intros Hd.
  destruct (dict_set_spec d (key v) v)
    as [(d1 & k' & v' & d2 & -> & Hk & ->)|[_ ->]].
  - apply Forall_app in Hd. destruct Hd as [H1 H2].
    inversion H2 as [|? ? _ H3]; subst.
    apply Forall_app. split; [exact H1|]. constructor; [now right|exact H3].
  - apply Forall_app. split; [exact Hd|]. constructor; [now left|constructor].
Qed.

End DictSlots.

Section JointSlots.
Context {F : Type} `{PyFloat F}.

Lemma joints_dict_slots (self : JointCalculator) :
  forall rows d,
    ForallOrdPairs (fun a b => tuple_eqb a b = false) (map fst d)
    /\ Forall (fun e => fst e = joint_key (snd e)
                        \/ tuple_eqb (fst e) (joint_key (snd e)) = true) d ->
    let d' := fold_left (row_joints self) rows d in
    ForallOrdPairs (fun a b => tuple_eqb a b = false) (map fst d')
    /\ Forall (fun e => fst e = joint_key (snd e)
                        \/ tuple_eqb (fst e) (joint_key (snd e)) = true) d'.
Proof.
  assert (Hstore : forall new d,
             ForallOrdPairs (fun a b => tuple_eqb a b = false) (map fst d)
             /\ Forall (fun e => fst e = joint_key (snd e)
                                 \/ tuple_eqb (fst e) (joint_key (snd e)) = true) d ->
             ForallOrdPairs (fun a b => tuple_eqb a b = false)
                            (map fst (store_joints d new))
             /\ Forall (fun e => fst e = joint_key (snd e)
                                 \/ tuple_eqb (fst e) (joint_key (snd e)) = true)
                       (store_joints d new)).
  { unfold store_joints. induction new as [|j new IH]; intros d Hd; [exact Hd|].
    cbn [fold_left]. apply IH. destruct Hd as [H1 H2]. split.
    - now apply dict_set_apart.
    - now apply dict_set_slotted. }
  induction rows as [|[row_key row_panels] rows IH]; intros d Hd; [exact Hd|].
  cbn [fold_left]. apply IH. unfold row_joints.
  generalize (adjacent_pairs (sort_row row_panels)). intros prs. revert d Hd.
  induction prs as [|[l r] prs IHp]; intros d Hd; [exact Hd|].
  cbn [fold_left]. apply IHp. now apply Hstore.
Qed.

(** The keys of the rows are the [y] of panels. *)
Lemma group_rows_keys (self : JointCalculator) (Q : F -> Prop) (ps : list Panel) :
  Forall (fun p => Q (panel_y p)) ps ->
  Forall (fun row => Q (fst row)) (group_rows self ps).
Proof.
  unfold group_rows.
  assert (G : forall l rows,
             Forall (fun p => Q (panel_y p)) l ->
             Forall (fun row : F * list Panel => Q (fst row)) rows ->
             Forall (fun row : F * list Panel => Q (fst row))
               (fold_left
                  (fun row_map p =>
                     setdefault_append feqb row_map
                       (_FindRowKey row_map (panel_y p) (vertical_tolerance self)) p)
                  l rows)).
  { induction l as [|p l IH]; intros rows Hl Hrows; [exact Hrows|].
    inversion Hl as [|? ? Hp Hl']; subst. cbn [fold_left]. apply IH; [exact Hl'|].
    pose proof (FindRowKey_spec rows (panel_y p) (vertical_tolerance self)) as Hkey.
    remember (_FindRowKey rows (panel_y p) (vertical_tolerance self)) as k eqn:Ek.
    clear Ek.
    destruct (setdefault_append_spec feqb rows k p)
      as [(d1 & k' & l0 & d2 & -> & _ & ->)|[_ ->]].
    - apply Forall_app in Hrows. destruct Hrows as [H1 H2].
      inversion H2; subst. apply Forall_app. split; [exact H1|].
      constructor; assumption.
    - apply Forall_app. split; [exact Hrows|]. constructor; [|constructor].
      cbn [fst]. destruct Hkey as [->|[Hin _]]; [exact Hp|].
      apply in_map_iff in Hin. destruct Hin as (row & <- & Hin).
      rewrite Forall_forall in Hrows. now apply Hrows. }
  intros Hps. apply G; [exact Hps|constructor].
Qed.

Lemma adjacent_pairs_In {A : Type} (l : list A) (a b : A) :
  In (a, b) (adjacent_pairs l) -> In a l /\ In b l.
Proof.
  unfold adjacent_pairs. intros Hin. split.
  - now apply in_combine_l in Hin.
  - apply in_combine_r in Hin. destruct l; [destruct Hin|now right].
Qed.

(** The panels of an emitted joint are panels of the input, and the key of
    its row is the [y] of one. *)
Lemma emitted_from (self : JointCalculator) (Q : F -> Prop) (ps : list Panel)
    (j : Joint) :
  Forall (fun p => Q (panel_y p)) ps ->
  emitted self (group_rows self ps) j ->
  exists row_key left_panel right_panel,
    Q row_key /\ In left_panel ps /\ In right_panel ps
    /\ In j (pair_joints self row_key left_panel right_panel).
Proof.
  intros Hps (row_key & row_panels & l & r & Hrow & Hpair & Hj).
  exists row_key, l, r.
  pose proof (group_rows_keys self Q ps Hps) as Hkeys.
  rewrite Forall_forall in Hkeys. specialize (Hkeys _ Hrow). cbn [fst] in Hkeys.
  split; [exact Hkeys|].
  apply adjacent_pairs_In in Hpair. destruct Hpair as [Hl Hr].
  unfold sort_row in Hl, Hr. rewrite sorted_In in Hl, Hr.
  destruct (group_rows_partition self ps) as [Hperm _].
  assert (Hsub : forall p, In p row_panels -> In p ps).
  { intros p Hp. apply (Permutation_in _ Hperm). apply in_flat_map.
    exists (row_key, row_panels). now split. }
  repeat split; auto.
Qed.

End JointSlots.

(** ** The joints of finite panels at [binary64] *)

Module Binary64Joints.
Import Binary64Order Binary64Number Binary64NumberFacts.

Lemma number_not_nan (v : float) : number v = true -> Prim2SF v <> S754_nan.
Proof. apply number_spec. Qed.

Lemma eqb_numbers (x y : float) :
  PrimFloat.eqb x y = true -> number x = true /\ number y = true.
Proof.
  rewrite FloatAxioms.eqb_spec. unfold SFeqb, number.
  destruct (Prim2SF x) as [sx|sx| |sx mx ex] eqn:Ex,
           (Prim2SF y) as [sy|sy| |sy my ey] eqn:Ey;
    cbn [SFcompare]; try discriminate; auto.
Qed.

Lemma ltb_rank (x y : float) :
  number x = true -> number y = true ->
  (PrimFloat.ltb x y = true <-> key_lt (fkey x) (fkey y)).
Proof.
  intros Hx Hy. apply number_not_nan in Hx, Hy.
  rewrite FloatAxioms.ltb_spec. unfold SFltb.
  rewrite (Binary64OrderFacts.SFcompare_key _ _ Hx Hy).
  fold (fkey x) (fkey y).
  destruct (Binary64OrderFacts.key_compare_spec (fkey x) (fkey y)) as [E|L|G].
  - rewrite E. split; [discriminate|]. destruct (fkey y) as [[? ?] ?]. cbn. lia.
  - tauto.
  - split; [discriminate|]. destruct (fkey x) as [[? ?] ?], (fkey y) as [[? ?] ?].
    cbn in *. lia.
Qed.

Lemma eqb_rank (x y : float) :
  number x = true -> number y = true ->
  (PrimFloat.eqb x y = true <-> fkey x = fkey y).
Proof.
  intros Hx Hy. apply number_not_nan in Hx, Hy.
  rewrite FloatAxioms.eqb_spec. unfold SFeqb.
  rewrite (Binary64OrderFacts.SFcompare_key _ _ Hx Hy).
  fold (fkey x) (fkey y).
  destruct (Binary64OrderFacts.key_compare_spec (fkey x) (fkey y)) as [E|L|G].
  - tauto.
  - split; [discriminate|]. intros E. rewrite E in L.
    destruct (fkey y) as [[? ?] ?]. cbn in L. lia.
  - split; [discriminate|]. intros E. rewrite E in G.
    destruct (fkey y) as [[? ?] ?]. cbn in G. lia.
Qed.

Lemma tuple_lt_rank (a1 a2 b1 b2 : float) :
  number a1 = true -> number a2 = true ->
  number b1 = true -> number b2 = true ->
  (tuple_lt (a1, a2) (b1, b2) = true
   <-> key_lt (fkey a1) (fkey b1)
       \/ (fkey a1 = fkey b1 /\ key_lt (fkey a2) (fkey b2))).
Proof.
  intros Ha1 Ha2 Hb1 Hb2. unfold tuple_lt. cbn [fst snd].
  change (feqb a1 b1) with (PrimFloat.eqb a1 b1).
  change (feqb a2 b2) with (PrimFloat.eqb a2 b2).
  change (fltb a1 b1) with (PrimFloat.ltb a1 b1).
  change (fltb a2 b2) with (PrimFloat.ltb a2 b2).
  pose proof (eqb_rank a1 b1 Ha1 Hb1) as E1. pose proof (eqb_rank a2 b2 Ha2 Hb2) as E2.
  pose proof (ltb_rank a1 b1 Ha1 Hb1) as L1. pose proof (ltb_rank a2 b2 Ha2 Hb2) as L2.
  destruct (fkey a1) as [[p1 p2] p3], (fkey b1) as [[q1 q2] q3],
           (fkey a2) as [[r1 r2] r3], (fkey b2) as [[t1 t2] t3].
  rewrite Binary64OrderFacts.triple_eq in *. cbn [key_lt] in *.
  destruct (PrimFloat.eqb a1 b1), (PrimFloat.eqb a2 b2),
           (PrimFloat.ltb a1 b1), (PrimFloat.ltb a2 b2); cbn [negb];
    intuition (try discriminate; try lia).
Qed.

Lemma joint_lt_rank (a b : Joint (F := float)) :
  number_joint a -> number_joint b ->
  (joint_lt a b = true
   <-> key_lt (fst (joint_rank a)) (fst (joint_rank b))
       \/ (fst (joint_rank a) = fst (joint_rank b)
           /\ key_lt (snd (joint_rank a)) (snd (joint_rank b)))).
Proof.
  intros [Hxa Hya] [Hxb Hyb]. unfold joint_lt, joint_rank. cbn [fst snd].
  now apply tuple_lt_rank.
Qed.

Ltac rank_arith :=
  unfold joint_rank; cbn [fst snd];
  repeat match goal with
         | |- context [fkey ?v] =>
             let k := fresh "k" in
             generalize (fkey v); intros [[? ?] ?]
         end;
  cbn [key_lt]; rewrite ?Binary64OrderFacts.triple_eq; intros; lia.

Lemma binary64_joint_lt_asym (a b : Joint (F := float)) :
  number_joint a -> number_joint b ->
  joint_lt a b = true -> joint_lt b a = false.
Proof.
  intros Pa Pb. rewrite <- Bool.not_true_iff_false.
  rewrite (joint_lt_rank a b Pa Pb), (joint_lt_rank b a Pb Pa).
  rank_arith.
Qed.

Lemma binary64_joint_le_trans (a b c : Joint (F := float)) :
  number_joint a -> number_joint b -> number_joint c ->
  joint_lt b a = false -> joint_lt c b = false -> joint_lt c a = false.
Proof.
  intros Pa Pb Pc. rewrite <- !Bool.not_true_iff_false.
  rewrite (joint_lt_rank b a Pb Pa), (joint_lt_rank c b Pc Pb),
          (joint_lt_rank c a Pc Pa).
  rank_arith.
Qed.

Lemma binary64_joint_lt_tricho (a b : Joint (F := float)) :
  number_joint a -> number_joint b ->
  joint_lt a b = false -> joint_lt b a = false -> joint_rank a = joint_rank b.
Proof.
  intros Pa Pb. rewrite <- !Bool.not_true_iff_false.
  rewrite (joint_lt_rank a b Pa Pb), (joint_lt_rank b a Pb Pa).
  unfold joint_rank. cbn [fst snd].
  generalize (fkey (joint_y a)) (fkey (joint_y b))
    (fkey (joint_x a)) (fkey (joint_x b)).
  intros [[? ?] ?] [[? ?] ?] [[? ?] ?] [[? ?] ?].
  cbn [key_lt]. rewrite ?Binary64OrderFacts.triple_eq. intros Hab Hba.
  repeat match goal with
         | |- (_, _) = (_, _) => f_equal
         end; lia.
Qed.

(** The key of a slot ranks as the joint it holds. *)
Lemma slot_rank (k : float * float) (v : Joint (F := float)) :
  k = joint_key v \/ tuple_eqb k (joint_key v) = true ->
  number_joint v ->
  number (fst k) = true /\ number (snd k) = true
  /\ fkey (fst k) = fkey (joint_x v) /\ fkey (snd k) = fkey (joint_y v).
Proof.
  intros [->|E] [Hx Hy]; [cbn [joint_key fst snd]; auto|].
  unfold tuple_eqb, joint_key in E. cbn [fst snd] in E.
  apply andb_prop in E. destruct E as [E1 E2].
  change (PrimFloat.eqb (fst k) (joint_x v) = true) in E1.
  change (PrimFloat.eqb (snd k) (joint_y v) = true) in E2.
  destruct (eqb_numbers _ _ E1) as [N1 _]. destruct (eqb_numbers _ _ E2) as [N2 _].
  repeat split; try assumption.
  - now apply (eqb_rank _ _ N1 Hx).
  - now apply (eqb_rank _ _ N2 Hy).
Qed.

Lemma slots_ranks_NoDup (d : list (float * float * Joint)) :
  ForallOrdPairs (fun a b => tuple_eqb a b = false) (map fst d) ->
  Forall (fun e => fst e = joint_key (snd e)
                   \/ tuple_eqb (fst e) (joint_key (snd e)) = true) d ->
  Forall number_joint (dict_values d) ->
  NoDup (map joint_rank (dict_values d)).
Proof.
  unfold dict_values.
  induction d as [|[k v] d IH]; intros Hap Hsl Hnum; cbn [map fst snd] in *;
    [constructor|].
  inversion Hap as [|? ? Hk Hap']; subst.
  inversion Hsl as [|? ? Hv Hsl']; subst.
  inversion Hnum as [|? ? Nv Hnum']; subst. cbn [fst snd] in Hv.
  constructor; [|now apply IH].
  intros Hin. apply in_map_iff in Hin. destruct Hin as (w & Ew & Hin).
  apply in_map_iff in Hin. destruct Hin as ([k' w'] & Ew' & Hin).
  cbn [snd] in Ew'. subst w'.
  rewrite Forall_forall in Hk, Hsl', Hnum'.
  assert (Nw : number_joint w) by (apply Hnum'; apply in_map_iff; now exists (k', w)).
  specialize (Hsl' _ Hin). cbn [fst snd] in Hsl'.
  specialize (Hk k' ltac:(apply in_map_iff; now exists (k', w))).
  destruct (slot_rank k v Hv Nv) as (N1 & N2 & R1 & R2).
  destruct (slot_rank k' w Hsl' Nw) as (N1' & N2' & R1' & R2').
  unfold joint_rank in Ew. injection Ew as Ey Ex.
  assert (Et : tuple_eqb k k' = true).
  { unfold tuple_eqb. apply andb_true_intro. split.
    - apply (eqb_rank _ _ N1 N1'). congruence.
    - apply (eqb_rank _ _ N2 N2'). congruence. }
  congruence.
Qed.

(** The joints emitted for finite panels have numbers as coordinates. *)
Lemma pair_joints_numbers (self : JointCalculator (F := float)) (row_key : float)
    (left_panel right_panel : Panel) (j : Joint) :
  finite row_key = true -> finite_panel left_panel -> finite_panel right_panel ->
  In j (pair_joints self row_key left_panel right_panel) -> number_joint j.
Proof.
  intros Hk (Hlx & Hly & Hlw & Hlh) (Hrx & Hry & Hrw & Hrh) Hin.
  unfold pair_joints in Hin. destruct (fleb _ _); [destruct Hin|].
  cbv zeta in Hin.
  assert (Hseam : number (round4 (fdiv (fadd (RightEdge left_panel) (panel_x right_panel))
                                       (lit 2 0))) = true).
  { apply round4_number.
    apply (div_number _ _ false 4503599627370496 (-51)); [|reflexivity].
    apply add_number; [|exact Hrx].
    unfold RightEdge. apply add_number; [now apply finite_number|exact Hlw]. }
  destruct Hin as [<-|[<-|[]]]; split; cbn [joint_x joint_y]; try exact Hseam.
  - apply round4_number. now apply finite_number.
  - apply round4_number. apply add_number; [now apply finite_number|exact Hlh].
Qed.

(** For panels with finite coordinates and size, the joints are strictly
    ascending in [(y, x)] and none stands twice. *)
Lemma CalculateJoints_finite_ascending (self : JointCalculator (F := float))
    (ps : list Panel) :
  Forall finite_panel ps ->
  StronglySorted (fun a b => joint_lt a b = true) (CalculateJoints self ps)
  /\ NoDup (CalculateJoints self ps).
Proof.
  intros Hps. unfold CalculateJoints.
  set (d := fold_left (row_joints self) (group_rows self ps) []).
  change (sorted (fun a b => tuple_lt (joint_y a, joint_x a) (joint_y b, joint_x b))
                 (dict_values d))
    with (sorted joint_lt (dict_values d)).
  destruct (joints_dict_slots self (group_rows self ps) [])
    as [Hap Hsl]; [split; constructor|]. fold d in Hap, Hsl.
  assert (Hnum : Forall number_joint (dict_values d)).
  { apply Forall_forall. intros j Hj. unfold d in Hj.
    apply rows_fold_In in Hj. destruct Hj as [[]|Hj].
    apply (emitted_from self (fun y => finite y = true)) in Hj.
    - destruct Hj as (row_key & l & r & Hk & Hl & Hr & Hj).
      rewrite Forall_forall in Hps.
      apply (pair_joints_numbers self row_key l r); auto.
    - eapply Forall_impl; [|exact Hps]. intros p Hp. apply Hp. }
  pose proof (slots_ranks_NoDup d Hap Hsl Hnum) as Hranks.
  pose proof (sorted_Permutation joint_lt (dict_values d)) as Hperm.
  assert (Hnum' : Forall number_joint (sorted joint_lt (dict_values d))).
  { apply (Permutation_Forall (Permutation_sym Hperm)). exact Hnum. }
  assert (Hranks' : NoDup (map joint_rank (sorted joint_lt (dict_values d)))).
  { apply (Permutation_NoDup (l := map joint_rank (dict_values d)));
      [|exact Hranks].
    apply Permutation_map, Permutation_sym, Hperm. }
  assert (Hsorted : StronglySorted (fun a b => joint_lt b a = false)
                                   (sorted joint_lt (dict_values d))).
  { apply (sorted_StronglySorted joint_lt number_joint
             binary64_joint_lt_asym binary64_joint_le_trans).
    exact Hnum. }
  split; [|now apply NoDup_map_inv in Hranks'].
  clear Hperm. revert Hnum' Hranks'.
  induction Hsorted as [|a l Hl IH Ha]; intros Hnum' Hranks'; [constructor|].
  inversion Hnum' as [|? ? Na Nl]; subst.
  cbn [map] in Hranks'. inversion Hranks' as [|? ? Hnotin Hnd']; subst.
  constructor; [now apply IH|].
  rewrite Forall_forall in Ha, Nl |- *. intros b Hb.
  destruct (joint_lt a b) eqn:E; [reflexivity|].
  exfalso. apply Hnotin.
  rewrite (binary64_joint_lt_tricho a b Na (Nl b Hb) E (Ha b Hb)).
  now apply in_map.
Qed.

End Binary64Joints.

(** ** Joints in the arithmetic of the rationals *)

Module JointFacts.

Lemma feqb_refl (a : Qc) : feqb a a = true.
Proof.
  change (Qc_eq_bool a a = true). unfold Qc_eq_bool.
  now destruct (Qc_eq_dec a a).
Qed.

Lemma tuple_eqb_refl (a : Qc * Qc) : tuple_eqb a a = true.
Proof. unfold tuple_eqb. now rewrite !feqb_refl. Qed.

Lemma store_joints_keys_NoDup (new : list (Joint (F := Qc))) :
  forall d, NoDup (map fst d) -> NoDup (map fst (store_joints d new)).
Proof.
  unfold store_joints. induction new as [|j new IH]; intros d Hnd; [exact Hnd|].
  cbn [fold_left]. apply IH.
  now apply dict_set_keys_NoDup; [apply tuple_eqb_refl|].
Qed.

Lemma row_joints_invariant (self : JointCalculator (F := Qc)) (row : Qc * list Panel) :
  forall d, keyed joint_key d /\ NoDup (map fst d) ->
            keyed joint_key (row_joints self d row)
            /\ NoDup (map fst (row_joints self d row)).
Proof.
  destruct row as [row_key row_panels]. unfold row_joints.
  generalize (adjacent_pairs (sort_row row_panels)). intros prs.
  induction prs as [|[l r] prs IH]; intros d [Hk Hnd]; cbn [fold_left]; [now split|].
  apply IH. split.
  - apply store_joints_keyed; [exact exact_feqb_eq|exact Hk].
  - now apply store_joints_keys_NoDup.
Qed.

Lemma joints_dict_invariant (self : JointCalculator (F := Qc)) :
  forall rows d, keyed joint_key d /\ NoDup (map fst d) ->
                 keyed joint_key (fold_left (row_joints self) rows d)
                 /\ NoDup (map fst (fold_left (row_joints self) rows d)).
Proof.
  induction rows as [|row rows IH]; intros d Hd; cbn [fold_left]; [exact Hd|].
  apply IH. now apply row_joints_invariant.
Qed.

Lemma keyed_values_NoDup (d : list (Qc * Qc * Joint)) :
  keyed joint_key d -> NoDup (map fst d) -> NoDup (dict_values d).
Proof.
  intros Hk Hnd. unfold dict_values.
  apply (NoDup_map_inv joint_key). rewrite map_map.
  replace (map (fun kv => joint_key (snd kv)) d) with (map fst d); [exact Hnd|].
  apply map_ext_in. intros kv Hin. unfold keyed in Hk. rewrite Forall_forall in Hk.
  now apply Hk.
Qed.

Lemma joint_lt_asym (a b : Joint (F := Qc)) :
  joint_lt a b = true -> joint_lt b a = false.
Proof.
  unfold joint_lt. rewrite OrderFacts.tuple_lt_true, OrderFacts.tuple_lt_false.
  intros [Hlt|[Heq Hlt]]; [left; lra|right; split; [lra|lra]].
Qed.

Lemma joint_le_trans (a b c : Joint (F := Qc)) :
  joint_lt b a = false -> joint_lt c b = false -> joint_lt c a = false.
Proof.
  unfold joint_lt. rewrite !OrderFacts.tuple_lt_false.
  intros [H1|[H1 H1']] [H2|[H2 H2']].
  - left; lra.
  - left; lra.
  - left; lra.
  - right; split; lra.
Qed.

Lemma joint_lt_tricho (a b : Joint (F := Qc)) :
  joint_lt a b = false -> joint_lt b a = false -> a = b.
Proof.
  unfold joint_lt. rewrite !OrderFacts.tuple_lt_false.
  destruct a as [ax ay], b as [bx by_]. cbn [joint_x joint_y].
  intros H1 H2.
  assert (Hy : (this ay == this by_)%Q) by (destruct H1 as [?|[? ?]], H2 as [?|[? ?]]; lra).
  assert (Hx : (this ax == this bx)%Q) by (destruct H1 as [?|[? ?]], H2 as [?|[? ?]]; lra).
  apply Qc_is_canon in Hx, Hy. now subst.
Qed.

End JointFacts.

(** In the arithmetic of the rationals the joints that [CalculateJoints]
    returns are strictly ascending in [(y, x)] and none stands twice. *)
Lemma exact_joints_ascending (self : JointCalculator (F := Qc))
    (ps : list Panel) :
  StronglySorted (fun a b => joint_lt a b = true) (CalculateJoints self ps)
  /\ NoDup (CalculateJoints self ps).
Proof.
  unfold CalculateJoints.
  set (d := fold_left (row_joints self) (group_rows self ps) []).
  assert (Hd : keyed joint_key d /\ NoDup (map fst d)).
  { apply JointFacts.joints_dict_invariant. split; constructor. }
  destruct Hd as [Hk Hnd].
  pose proof (JointFacts.keyed_values_NoDup d Hk Hnd) as Hvalues.
  assert (Hnodup : NoDup (sorted joint_lt (dict_values d))).
  { apply (Permutation_NoDup (l := dict_values d)); [|exact Hvalues].
    apply Permutation_sym, sorted_Permutation. }
  split; [|exact Hnodup].
  assert (Hsorted : StronglySorted (fun a b => joint_lt b a = false)
                                   (sorted joint_lt (dict_values d))).
  { apply (sorted_StronglySorted joint_lt (fun _ => True)
             (fun a b _ _ => JointFacts.joint_lt_asym a b)
             (fun a b c _ _ _ => JointFacts.joint_le_trans a b c)).
    apply Forall_forall. auto. }
  change (sorted (fun a b => tuple_lt (joint_y a, joint_x a) (joint_y b, joint_x b))
                 (dict_values d))
    with (sorted joint_lt (dict_values d)).
  induction Hsorted as [|a l Hl IH Ha]; [constructor|].
  inversion Hnodup as [|? ? Hnotin Hnd']; subst.
  constructor; [now apply IH|].
  rewrite Forall_forall in Ha |- *. intros b Hb.
  destruct (joint_lt a b) eqn:E; [reflexivity|].
  exfalso. apply Hnotin.
  rewrite (JointFacts.joint_lt_tricho a b E (Ha b Hb)). exact Hb.
Qed.

(** At [binary64] a NaN among the coordinates breaks the order: a joint
    whose [x] is a NaN is a key that is never found again, and three panels
    whose [x] is a NaN give each of their joints twice. *)
Lemma binary64_joints_of_nan :
  CalculateJoints (joint_calculator (default_calculator (F := float)))
    [ {| panel_x := PrimFloat.nan; panel_y := 0; width := 44.7; height := 71.1 |};
      {| panel_x := PrimFloat.nan; panel_y := 0; width := 44.7; height := 71.1 |};
      {| panel_x := PrimFloat.nan; panel_y := 0; width := 44.7; height := 71.1 |} ]%float
  = [ {| joint_x := PrimFloat.nan; joint_y := 0 |};
      {| joint_x := PrimFloat.nan; joint_y := 0 |};
      {| joint_x := PrimFloat.nan; joint_y := 71.1 |};
      {| joint_x := PrimFloat.nan; joint_y := 71.1 |} ]%float.
Proof. vm_compute. reflexivity. Qed.

(** X10: the joints that [CalculateJoints] returns are strictly ascending
    in [(y, x)]: they are sorted and no joint stands twice in the output.
    At [binary64] this holds for panels whose coordinates, width and height
    are finite doubles, the order being the [<] and [==] of the doubles; in
    the arithmetic of the rationals it holds for all panels. *)
Theorem X10_joints_strictly_ascending :
  (forall (self : JointCalculator (F := float)) (ps : list Panel),
      Forall Binary64Number.finite_panel ps ->
      StronglySorted (fun a b => joint_lt a b = true) (CalculateJoints self ps)
      /\ NoDup (CalculateJoints self ps))
  /\ (forall (self : JointCalculator (F := Qc)) (ps : list Panel),
         StronglySorted (fun a b => joint_lt a b = true) (CalculateJoints self ps)
         /\ NoDup (CalculateJoints self ps)).
Proof.
  split; [exact Binary64Joints.CalculateJoints_finite_ascending
         |exact exact_joints_ascending].
Qed.

Lemma X10_joints_strictly_ascending_witness :
  let ps := [ {| panel_x := 0; panel_y := 0; width := 44.7; height := 71.1 |};
              {| panel_x := 44.7; panel_y := 0; width := 44.7; height := 71.1 |};
              {| panel_x := 0; panel_y := 71.1; width := 44.7; height := 71.1 |};
              {| panel_x := 44.7; panel_y := 71.1; width := 44.7; height := 71.1 |}
            ]%float in
  StronglySorted (fun a b => joint_lt a b = true)
                 (CalculateJoints
                    (joint_calculator (default_calculator (F := float))) ps).
Proof.
  intros ps.
  assert (Hps : Forall Binary64Number.finite_panel ps).
  { repeat constructor. }
  exact (proj1 (proj1 X10_joints_strictly_ascending
                      (joint_calculator default_calculator) ps Hps)).
Defined.

(** ** The outcomes of the parts *)

Lemma NoDup_map_on {A B : Type} (f : A -> B) (l : list A) :
  (forall a b, In a l -> In b l -> f a = f b -> a = b) ->
  NoDup l -> NoDup (map f l).
Proof.
  intros Hinj Hnd. induction Hnd as [|a l Ha Hl IH]; [constructor|].
  cbn [map]. constructor.
  - intros Hin. apply in_map_iff in Hin. destruct Hin as (b & Hb & Hin).
    apply Ha. rewrite (Hinj a b); [exact Hin|now left|now right|now symmetry].
  - apply IH. intros x y Hx Hy. apply Hinj; now right.
Qed.

Section ErrorKinds.
Context {F : Type} `{PyFloat F}.

Lemma CalculatePanelMounts_raises (self : MountCalculator) (panel : Panel)
    (grid : RafterGrid) (e : Exception F) :
  _CalculatePanelMounts self panel grid = Raises e ->
  exists message, e = LayoutValidationError message.
Proof.
  unfold _CalculatePanelMounts.
  destruct (PositionsInRange grid _ _) as [|r0 rs];
    [intros E; injection E as <-; eexists; reflexivity|].
  repeat match goal with
         | |- context [if ?c then _ else _] => destruct c
         end;
    intros E; try discriminate E; injection E as <-; eexists; reflexivity.
Qed.

Lemma CalculateMounts_from_outcome (self : MountCalculator) (grid : RafterGrid) :
  forall (ps : list Panel) acc,
    (exists ms, CalculateMounts_from self grid acc ps = Returns ms)
    \/ (exists message,
           CalculateMounts_from self grid acc ps
           = Raises (LayoutValidationError message)).
Proof.
  induction ps as [|p ps IH]; intros acc; [left; eexists; reflexivity|].
  cbn [CalculateMounts_from].
  destruct (_CalculatePanelMounts self p grid) as [pm|e|] eqn:Ep; cbn [bind].
  - apply IH.
  - apply CalculatePanelMounts_raises in Ep. destruct Ep as [message ->].
    right. now exists message.
  - exfalso. unfold _CalculatePanelMounts in Ep.
    destruct (PositionsInRange grid _ _) as [|r0 rs]; [discriminate Ep|].
    repeat match type of Ep with
           | context [if ?c then _ else _] => destruct c
           end; discriminate Ep.
Qed.

End ErrorKinds.

(** ** Repeated positions and the overlap check *)

Section RepeatedPositions.
Context {F : Type} `{PyFloat F}.

(** X12: the overlap check alone refuses a repeated position, whether
    duplicates are allowed or not.  Unless overlaps are allowed, and where
    the panel at every spec overlaps itself by the test of
    [_RectanglesOverlap] (it is wider and higher than the tolerance, as the
    code computes its edges at that position), no panel stands twice in an
    accepted layout and no spec twice in the specs.  This holds for every
    instance of the arithmetic, [binary64] among them. *)
Theorem X12_overlap_check_refuses_repeats (self : PanelFactory)
    (specs : list PanelSpec) (ps : list Panel) :
  allow_overlaps (validation self) = false ->
  Forall (overlaps_itself self) specs ->
  BuildPanels self specs = Returns ps ->
  NoDup ps /\ NoDup specs.
Proof.
  intros Hov Hself E.
  pose proof (BuildPanels_returns _ _ _ E) as (built & Hb & Hv & ->).
  apply BuildPanels_from_accepted in Hb.
  destruct Hb as (built' & Heq & Hspecs & Hall & _). cbn [app] in Heq. subst built'.
  assert (Hpairs : ForallOrdPairs
                     (fun a b => _RectanglesOverlap self a b
                                   (coordinate_tolerance (validation self)) = false)
                     built).
  { apply ValidateNoOverlap_pairs. now apply Hv. }
  assert (Hown : Forall (fun p => _RectanglesOverlap self p p
                                    (coordinate_tolerance (validation self)) = true)
                        built).
  { apply Forall_forall. intros p Hin.
    rewrite Forall_forall in Hall, Hself.
    destruct (Hall p Hin) as [Hp _]. rewrite Hp.
    apply (Hself (spec_of p)); [|reflexivity|reflexivity].
    rewrite <- Hspecs. now apply in_map. }
  assert (Hnd : NoDup built).
  { clear Hspecs Hall Hv E. induction Hpairs as [|a l Ha Hl IH]; [constructor|].
    inversion Hown as [|? ? Hsa Hsl]; subst.
    constructor; [|now apply IH].
    intros Hin. rewrite Forall_forall in Ha. specialize (Ha a Hin). congruence. }
  split.
  - apply (Permutation_NoDup (l := built)); [|exact Hnd].
    apply Permutation_sym, sorted_Permutation.
  - rewrite <- Hspecs. apply NoDup_map_on; [|exact Hnd].
    intros a b Ha Hb Hab. rewrite Forall_forall in Hall.
    destruct (Hall a Ha) as [Ea _]. destruct (Hall b Hb) as [Eb _].
    rewrite Ea, Eb. unfold spec_of, spec_at in Hab.
    injection Hab as -> ->. reflexivity.
Qed.

End RepeatedPositions.

(** At [binary64] a panel far from the origin does not overlap itself:
    at [1e18] the doubles are 128 apart, [1e18 + 44.7] and [1e18 + 0.0001]
    are both [1e18], and with duplicates allowed the same position is
    accepted twice. *)
Lemma binary64_repeat_accepted_at_1e18 :
  let self :=
    {| dimensions := {| dim_width := 44.7%float; dim_height := 71.1%float |};
       validation := {| allow_negative_coordinates := false;
                        allow_duplicates := true;
                        allow_overlaps := false;
                        coordinate_tolerance := 0.0001%float |} |} in
  let p := {| panel_x := 1e18%float; panel_y := 0%float;
              width := 44.7%float; height := 71.1%float |} in
  BuildPanels self [spec_at 1e18%float 0%float; spec_at 1e18%float 0%float]
  = Returns [p; p]
  /\ _RectanglesOverlap self p p 0.0001%float = false.
Proof. split; vm_compute; reflexivity. Qed.

Lemma X12_overlap_check_witness :
  let self :=
    {| dimensions := {| dim_width := 44.7%float; dim_height := 71.1%float |};
       validation := {| allow_negative_coordinates := false;
                        allow_duplicates := true;
                        allow_overlaps := false;
                        coordinate_tolerance := 0.0001%float |} |} in
  exists ps,
    BuildPanels self (two_by_two_specs (F := float)) = Returns ps
    /\ NoDup ps /\ NoDup (two_by_two_specs (F := float)).
Proof.
  intros self.
  assert (E : exists ps, BuildPanels self (two_by_two_specs (F := float)) = Returns ps).
  { destruct (BuildPanels self (two_by_two_specs (F := float))) as [ps| |] eqn:E;
      [exists ps; reflexivity|vm_compute in E; discriminate E..]. }
  destruct E as [ps E]. exists ps. split; [exact E|].
  assert (Hown : Forall (overlaps_itself self) (two_by_two_specs (F := float))).
  { repeat (apply Forall_cons; [|]); [..|apply Forall_nil];
      intros x_value y_value Ex Ey;
      injection Ex as <-; injection Ey as <-; vm_compute; reflexivity. }
  exact (X12_overlap_check_refuses_repeats self _ ps eq_refl Hown E).
Defined.

(** ** A NaN among the coordinates *)

Module Binary64Errors.

Lemma nan_not_below (x_value bound : float) :
  Prim2SF x_value = S754_nan -> fltb x_value bound = false.
Proof.
  intros Hx. change (fltb x_value bound) with (PrimFloat.ltb x_value bound).
  rewrite FloatAxioms.ltb_spec, Hx. reflexivity.
Qed.

Lemma nan_quotient (x_value scale : float) :
  Prim2SF x_value = S754_nan -> Prim2SF (fdiv x_value scale) = S754_nan.
Proof.
  intros Hx. change (fdiv x_value scale) with (PrimFloat.div x_value scale).
  rewrite FloatAxioms.div_spec, Hx. reflexivity.
Qed.

Lemma round_nan (v : float) :
  Prim2SF v = S754_nan -> py_round v = Raises (BuiltinError ValueError).
Proof.
  intros Hv. unfold py_round.
  change (round_int v) with (Binary64.round_to_int v).
  unfold Binary64.round_to_int. now rewrite Hv.
Qed.

End Binary64Errors.



(** ** The grid and the extent *)

Section WalkBack.
Context {F : Type} `{PyFloat F}.

(** The first loop of [BuildGrid] ends where its test fails. *)
Lemma walk_back_exit (self : RafterFactory) (min_x : F) :
  forall fuel first r,
    walk_back fuel self min_x first = Some r ->
    fltb (fsub min_x (fmul (spacing self) (lit 2 0))) (fsub r (spacing self)) = false.
Proof.
  induction fuel as [|fuel IH]; intros first r E; [discriminate E|].
  cbn [walk_back] in E.
  destruct (fltb _ _) eqn:Et; [now apply IH in E|].
  injection E as <-. exact Et.
Qed.

End WalkBack.

Module GridCover.
Import ExactFacts.
Open Scope Q_scope.

Lemma adjacent_pairs_cons {A : Type} (a b : A) (l : list A) :
  adjacent_pairs (a :: b :: l) = (a, b) :: adjacent_pairs (b :: l).
Proof. reflexivity. Qed.

Lemma last_cons {A : Type} (l : list A) :
  forall a d, last (a :: l) d = last l a.
Proof.
  induction l as [|b l IH]; intros a d; [reflexivity|].
  change (last (a :: b :: l) d) with (last (b :: l) d).
  now rewrite !IH.
Qed.

Lemma stepped_cover (self : RafterFactory (F := Qc)) (limit : Qc) :
  0 < this (spacing self) ->
  forall ps current,
    stepped self limit ps current ->
    this current <= this limit ->
    exists rest,
      ps = round4 current :: rest
      /\ this limit - this (spacing self) - (1 # 20000)
         < this (last rest (round4 current))
      /\ evenly_spaced (spacing self) ps.
Proof.
  intros Hs. induction ps as [|p ps IH]; intros current Hps Hle; cbn [stepped] in Hps.
  - apply fleb_false in Hps. lra.
  - destruct Hps as (_ & -> & Hps). exists ps. split; [reflexivity|].
    pose proof (round4_near current) as Hnear.
    destruct (fleb (fadd current (spacing self)) limit) eqn:E.
    + apply fleb_true in E.
      destruct (IH _ Hps E) as (rest & -> & Hlast & Heven).
      split; [rewrite last_cons; exact Hlast|].
      unfold evenly_spaced. rewrite adjacent_pairs_cons.
      constructor; [|exact Heven]. cbn [fst snd].
      pose proof (round4_near (fadd current (spacing self))) as Hnear'.
      rewrite this_fadd in Hnear'. lra.
    + destruct ps as [|q ps].
      * apply fleb_false in E. rewrite this_fadd in E.
        split; [cbn [last]; lra|constructor].
      * cbn [stepped] in Hps. destruct Hps as [Hq _]. congruence.
Qed.

Lemma BuildGrid_cover (fuel : nat) (self : RafterFactory (F := Qc))
    (min_x max_x : Qc) (grid : RafterGrid) :
  0 < this (spacing self) ->
  BuildGrid fuel self min_x max_x = Returns grid ->
  this min_x <= this max_x
  /\ exists first others,
       positions grid = first :: others
       /\ this first <= this min_x - this (spacing self) + (1 # 20000)
       /\ this max_x + this (spacing self) - (1 # 20000) < this (last others first)
       /\ evenly_spaced (spacing self) (positions grid).
Proof.
  intros Hs E.
  assert (Hle : this min_x <= this max_x).
  { unfold BuildGrid in E. destruct (fltb max_x min_x) eqn:Et; [discriminate E|].
    now apply fltb_false in Et. }
  split; [exact Hle|].
  apply GridRuns.BuildGrid_positions_stepped in E.
  destruct E as (start & Hback & Hsteps).
  apply walk_back_exit in Hback. apply fltb_false in Hback.
  rewrite !this_fsub, this_fmul, GridFacts.this_lit_2 in Hback.
  destruct (stepped_cover self _ Hs _ _ Hsteps) as (rest & Hps & Hlast & Heven).
  { rewrite this_fadd, this_fmul, GridFacts.this_lit_2. lra. }
  exists (round4 start), rest. split; [exact Hps|].
  rewrite this_fadd, this_fmul, GridFacts.this_lit_2 in Hlast.
  pose proof (round4_near start) as Hnear.
  split; [lra|]. split; [lra|exact Heven].
Qed.

End GridCover.

(** In the arithmetic of the rationals, for a spacing above 0, a grid that
    [BuildGrid] returns covers the extent with a margin: its first position
    is at or left of [min_x - spacing], its last position is right of
    [max_x + spacing] (each up to the rounding, 0.00005), and neighbouring
    positions are one spacing apart, up to 0.0001. *)
Lemma exact_grid_cover (fuel : nat) (self : RafterFactory (F := Qc))
    (min_x max_x : Qc) (grid : RafterGrid) :
  (0 < spacing self)%Qc ->
  BuildGrid fuel self min_x max_x = Returns grid ->
  exists first others,
    positions grid = first :: others
    /\ (this first <= this min_x - this (spacing self) + (1 # 20000))%Q
    /\ (this max_x + this (spacing self) - (1 # 20000) < this (last others first))%Q
    /\ evenly_spaced (spacing self) (positions grid).
Proof.
  intros Hs E. unfold Qclt in Hs. change (this (Q2Qc 0)) with 0%Q in Hs.
  now destruct (GridCover.BuildGrid_cover _ _ _ _ _ Hs E) as [_ Hcover].
Qed.



(** ** Where the built-in exceptions come from *)

Section BuiltinErrors.
Context {F : Type} `{PyFloat F}.

Lemma BuildGrid_raises (fuel : nat) (self : RafterFactory) (min_x max_x : F)
    (e : Exception F) :
  BuildGrid fuel self min_x max_x = Raises e ->
  e = BuiltinError ValueError /\ fltb max_x min_x = true.
Proof.
  unfold BuildGrid. destruct (fltb max_x min_x).
  - intros E. injection E as <-. now split.
  - destruct (walk_back _ _ _ _); [|discriminate].
    destruct (walk_forward _ _ _ _ _); discriminate.
Qed.

Lemma BuildPanels_builtin (self : PanelFactory) (specs : list PanelSpec)
    (b : Builtin) :
  BuildPanels self specs = Raises (BuiltinError b) ->
  allow_duplicates (validation self) = false
  /\ exists x_value y_value,
       In (spec_at x_value y_value) specs
       /\ _ValidateCoordinateBounds self x_value y_value
            (coordinate_tolerance (validation self)) = Returns tt
       /\ _QuantizeCoordinate self x_value y_value
            (coordinate_tolerance (validation self)) = Raises (BuiltinError b).
Proof.
  intros E. apply BuildPanels_raises in E.
  destruct E as [E|(built & _ & _ & E)].
  - apply BuildPanels_from_raises in E.
    destruct E as (before & item & after & seen' & -> & Hc & _).
    apply checked_panel_raises in Hc.
    destruct Hc as [[_ Hc]|(x' & y' & -> & Hc)]; [discriminate Hc|].
    destruct Hc as [(_ & _ & He)|(Hb & Hdup & [(b' & Hq & He)|(key & _ & _ & He)])];
      try discriminate He.
    injection He as <-. split; [exact Hdup|].
    exists x', y'. split; [apply in_elt|]. now split.
  - apply ValidateNoOverlap_raises in E.
    destruct E as (? & ? & ? & ? & ? & _ & _ & He). discriminate He.
Qed.


End BuiltinErrors.


(** ** Counting the joints *)

Section JointCounts.
Context {F : Type} `{PyFloat F}.

Lemma dict_set_length {K V : Type} (keq : K -> K -> bool) (d : list (K * V))
    (k : K) (v : V) :
  (length (dict_set keq d k v) <= S (length d))%nat.
Proof.
  induction d as [|[k' v'] d IH]; cbn [dict_set length]; [lia|].
  destruct (keq k' k); cbn [length]; lia.
Qed.

Lemma store_joints_length (new : list Joint) :
  forall d, (length (store_joints d new) <= length d + length new)%nat.
Proof.
  unfold store_joints. induction new as [|j new IH]; intros d; cbn [fold_left length].
  - lia.
  - specialize (IH (dict_set tuple_eqb d (joint_key j) j)).
    pose proof (dict_set_length tuple_eqb d (joint_key j) j). lia.
Qed.

Lemma pair_joints_length (self : JointCalculator) (row_key : F)
    (left_panel right_panel : Panel) :
  (length (pair_joints self row_key left_panel right_panel) <= 2)%nat.
Proof.
  unfold pair_joints. destruct (fleb _ _); cbn [length]; lia.
Qed.

Lemma adjacent_pairs_length {A : Type} (l : list A) :
  length (adjacent_pairs l) = (length l - 1)%nat.
Proof.
  unfold adjacent_pairs. rewrite length_combine.
  destruct l as [|a l]; cbn [tl length]; lia.
Qed.

Lemma row_joints_length (self : JointCalculator) (row : F * list Panel) :
  forall d,
    (length (row_joints self d row) <= length d + 2 * (length (snd row) - 1))%nat.
Proof.
  destruct row as [row_key row_panels]. unfold row_joints. cbn [snd].
  rewrite <- (sorted_length (fun a b => fltb (panel_x a) (panel_x b)) row_panels).
  fold (sort_row row_panels).
  rewrite <- adjacent_pairs_length.
  generalize (adjacent_pairs (sort_row row_panels)). intros prs.
  induction prs as [|[l r] prs IH]; intros d; cbn [fold_left length]; [lia|].
  specialize (IH (store_joints d (pair_joints self row_key l r))).
  pose proof (store_joints_length (pair_joints self row_key l r) d).
  pose proof (pair_joints_length self row_key l r). lia.
Qed.

Lemma rows_joints_length (self : JointCalculator) (rows : list (F * list Panel)) :
  forall d,
    (length (fold_left (row_joints self) rows d)
     <= length d + 2 * list_sum (map (fun row => length (snd row) - 1) rows))%nat.
Proof.
  induction rows as [|row rows IH]; intros d; cbn [fold_left map]; [simpl; lia|].
  specialize (IH (row_joints self d row)).
  pose proof (row_joints_length self row d).
  change (list_sum ((length (snd row) - 1)%nat
                    :: map (fun row => (length (snd row) - 1)%nat) rows))
    with ((length (snd row) - 1)
          + list_sum (map (fun row => (length (snd row) - 1)%nat) rows))%nat.
  lia.
Qed.

Lemma rows_pairs_count {K A : Type} (rows : list (K * list A)) :
  Forall (fun row => snd row <> []) rows ->
  (list_sum (map (fun row => length (snd row) - 1) rows) + length rows
   = length (flat_map snd rows))%nat.
Proof.
  induction 1 as [|row rows Hrow Hrows IH]; [reflexivity|].
  cbn [map flat_map length]. rewrite length_app.
  change (list_sum ((length (snd row) - 1)%nat
                    :: map (fun row => (length (snd row) - 1)%nat) rows))
    with ((length (snd row) - 1)
          + list_sum (map (fun row => (length (snd row) - 1)%nat) rows))%nat.
  destruct (snd row) as [|p l]; [congruence|]. cbn [length]. lia.
Qed.

(** X18: [CalculateJoints] returns at most two joints for each pair of
    neighbours in a row: with [n] panels in [r] rows at most [2 * (n - r)]
    joints, so fewer than [2 * n], and none when every panel is in a row of
    its own. *)
Theorem X18_joint_count_bound (self : JointCalculator) (ps : list Panel) :
  (length (CalculateJoints self ps) + 2 * length (group_rows self ps)
   <= 2 * length ps)%nat.
Proof.
  unfold CalculateJoints. rewrite sorted_length. unfold dict_values.
  rewrite length_map.
  pose proof (rows_joints_length self (group_rows self ps) []) as Hlen.
  cbn [length] in Hlen.
  destruct (group_rows_partition self ps) as [Hperm Hne].
  pose proof (rows_pairs_count _ Hne) as Hcount.
  rewrite (Permutation_length Hperm) in Hcount. lia.
Qed.

End JointCounts.

(** ** The check of the tolerance *)

Module Binary64Tolerance.

Lemma not_below_nan (v bound : float) :
  Prim2SF bound = S754_nan -> fltb v bound = false.
Proof.
  intros Hb. change (fltb v bound) with (PrimFloat.ltb v bound).
  rewrite FloatAxioms.ltb_spec, Hb. unfold SFltb.
  now destruct (Prim2SF v) as [| | |? ? ?].
Qed.

Lemma not_le_nan (v bound : float) :
  Prim2SF v = S754_nan -> fleb v bound = false.
Proof.
  intros Hv. change (fleb v bound) with (PrimFloat.leb v bound).
  rewrite FloatAxioms.leb_spec, Hv. reflexivity.
Qed.

Lemma opp_nan (v : float) : Prim2SF v = S754_nan -> Prim2SF (fneg v) = S754_nan.
Proof.
  intros Hv. change (fneg v) with (PrimFloat.opp v).
  rewrite FloatAxioms.opp_spec, Hv. reflexivity.
Qed.

Lemma quotient_by_nan (v scale : float) :
  Prim2SF scale = S754_nan -> Prim2SF (fdiv v scale) = S754_nan.
Proof.
  intros Hs. change (fdiv v scale) with (PrimFloat.div v scale).
  rewrite FloatAxioms.div_spec, Hs. unfold SF64div, SFdiv.
  now destruct (Prim2SF v) as [| | |? ? ?].
Qed.

End Binary64Tolerance.

(** X20: [ValidationSettings.__post_init__] refuses a tolerance that is
    [<= 0]: in exact arithmetic it accepts exactly the tolerances above 0.
    At [binary64] a NaN is accepted too, no comparison holding of it; with
    such a tolerance the scale of [_QuantizeCoordinate] is the NaN, and
    where duplicates are refused [BuildPanels] raises [ValueError] on any
    specs that start with a complete one. *)
Theorem X20_tolerance_check :
  (forall self : ValidationSettings (F := Qc),
      ValidationSettings_post_init self = Returns tt
      <-> (0 < coordinate_tolerance self)%Qc)
  /\ (forall self : ValidationSettings (F := Qc),
         ValidationSettings_post_init self
         = Raises (LayoutValidationError ToleranceNotPositive)
         <-> (coordinate_tolerance self <= 0)%Qc)
  /\ (forall self : PanelFactory (F := float),
         Prim2SF (coordinate_tolerance (validation self)) = S754_nan ->
         ValidationSettings_post_init (validation self) = Returns tt
         /\ (allow_duplicates (validation self) = false ->
             forall x_value y_value rest,
               BuildPanels self (spec_at x_value y_value :: rest)
               = Raises (BuiltinError ValueError))).
Proof.
  split; [|split].
  - intros self. unfold ValidationSettings_post_init.
    destruct (fleb (coordinate_tolerance self) (lit 0 0)) eqn:E.
    + apply ExactFacts.fleb_true in E. rewrite ExactFacts.this_lit in E.
      split; [discriminate|]. intros Hpos. unfold Qclt in Hpos.
      change (this (Q2Qc 0)) with 0%Q in Hpos.
      change (0 # Z.to_pos (10 ^ Z.of_nat 0))%Q with 0%Q in E. lra.
    + apply ExactFacts.fleb_false in E. rewrite ExactFacts.this_lit in E.
      split; [intros _|reflexivity]. unfold Qclt.
      change (this (Q2Qc 0)) with 0%Q.
      change (0 # Z.to_pos (10 ^ Z.of_nat 0))%Q with 0%Q in E. exact E.
  - intros self. unfold ValidationSettings_post_init.
    destruct (fleb (coordinate_tolerance self) (lit 0 0)) eqn:E.
    + apply ExactFacts.fleb_true in E. rewrite ExactFacts.this_lit in E.
      split; [intros _|reflexivity]. unfold Qcle.
      change (this (Q2Qc 0)) with 0%Q.
      change (0 # Z.to_pos (10 ^ Z.of_nat 0))%Q with 0%Q in E. exact E.
    + apply ExactFacts.fleb_false in E. rewrite ExactFacts.this_lit in E.
      split; [discriminate|]. intros Hle. unfold Qcle in Hle.
      change (this (Q2Qc 0)) with 0%Q in Hle.
      change (0 # Z.to_pos (10 ^ Z.of_nat 0))%Q with 0%Q in E. lra.
  - intros self Hnan. split.
    + unfold ValidationSettings_post_init.
      now rewrite Binary64Tolerance.not_le_nan.
    + intros Hdup x_value y_value rest.
      unfold BuildPanels. rewrite BuildPanels_from_cons.
      unfold checked_panel. cbn [spec_at spec_x spec_y].
      assert (Hb : _ValidateCoordinateBounds self x_value y_value
                     (coordinate_tolerance (validation self)) = Returns tt).
      { apply ValidateCoordinateBounds_returns. right. unfold below_bounds.
        rewrite !Binary64Tolerance.not_below_nan;
          [reflexivity|now apply Binary64Tolerance.opp_nan..]. }
      rewrite Hb. cbn [bind]. rewrite Hdup.
      unfold _QuantizeCoordinate.
      assert (Hscale : py_max (coordinate_tolerance (validation self)) (lit 1 9)
                       = coordinate_tolerance (validation self)).
      { unfold py_max.
        change (fltb (coordinate_tolerance (validation self)) (lit 1 9))
          with (PrimFloat.ltb (coordinate_tolerance (validation self)) (lit 1 9)).
        now rewrite FloatAxioms.ltb_spec, Hnan. }
      rewrite Hscale.
      rewrite Binary64Errors.round_nan; [reflexivity|].
      now apply Binary64Tolerance.quotient_by_nan.
Qed.

Lemma X20_tolerance_check_witness :
  ValidationSettings_post_init
    {| allow_negative_coordinates := false; allow_duplicates := false;
       allow_overlaps := false; coordinate_tolerance := PrimFloat.nan |}
  = Returns tt
  /\ BuildPanels
       {| dimensions := {| dim_width := 44.7; dim_height := 71.1 |};
          validation :=
            {| allow_negative_coordinates := false; allow_duplicates := false;
               allow_overlaps := false; coordinate_tolerance := PrimFloat.nan |} |}%float
       [spec_at 0 0]%float
     = Raises (BuiltinError ValueError).
Proof.
  destruct X20_tolerance_check as (_ & _ & Hnan).
  destruct (Hnan {| dimensions := {| dim_width := 44.7; dim_height := 71.1 |};
                    validation :=
                      {| allow_negative_coordinates := false; allow_duplicates := false;
                         allow_overlaps := false;
                         coordinate_tolerance := PrimFloat.nan |} |}%float eq_refl)
    as [Hinit Hrun].
  split; [exact Hinit|]. apply Hrun. reflexivity.
Defined.
